(** * NutriScan: the analyse / parse / persist pipeline of [src/index.tsx]

    A shallow embedding of the two analysis handlers of the [FoodAnalyzer]
    component ([handleAnalyze], [handleTextAnalyze]), of [loadHistory], and of
    the JavaScript built-ins they lean on ([String.prototype.split], [trim],
    [replace] with the fence pattern, [match] with the calorie pattern,
    [parseInt], [JSON.parse]).

    Conventions of the model.
    - A JavaScript string is the list of its UTF-16 code units ([list N]).
    - A JavaScript number is kept as an exact decimal [m * 10^e]; the rounding
      of IEEE doubles (beyond 2^53, or of long fractions) is outside the model.
    - The AI service, the file reader, the remote store, the console and the
      alert box are the environment: a handler is a tree of external calls,
      and [run] folds it over an arbitrary environment, recording every call
      with the answer it received. *)

From Stdlib Require Import String Ascii.
From Stdlib Require Import List NArith ZArith Bool Arith Lia.
From Stdlib Require Import Sorting.Sorted Sorting.Permutation.
From Stdlib Require Import DecimalString.
Import ListNotations.

Set Implicit Arguments.
Set Warnings "-register-all".

(* ================================================================== *)
(** ** JavaScript strings *)

Module JsString.

(** A string value: its UTF-16 code units. *)
Definition jsstring := list N.

(** A literal, written in ASCII. *)
Definition lit (s : string) : jsstring :=
  map N_of_ascii (list_ascii_of_string s).

Definition dquote : jsstring := [34%N].
Definition newline : jsstring := [10%N].

Fixpoint str_eqb (a b : jsstring) : bool :=
  match a, b with
  | [], [] => true
  | x :: a', y :: b' => N.eqb x y && str_eqb a' b'
  | _, _ => false
  end.

(** [s.startsWith(p)]. *)
Fixpoint starts_with (p s : jsstring) : bool :=
  match p, s with
  | [], _ => true
  | _ :: _, [] => false
  | x :: p', y :: s' => N.eqb x y && starts_with p' s'
  end.

(** WhiteSpace and LineTerminator code points of ECMAScript: what
    [trim] removes and what [\s] matches. *)
Definition is_space (c : N) : bool :=
  ((9 <=? c) && (c <=? 13)            (* TAB LF VT FF CR *)
   || (c =? 32) || (c =? 160)         (* SP, NBSP *)
   || (c =? 5760)                     (* U+1680 *)
   || ((8192 <=? c) && (c <=? 8202))  (* U+2000 .. U+200A *)
   || (c =? 8232) || (c =? 8233)      (* LS, PS *)
   || (c =? 8239) || (c =? 8287)      (* U+202F, U+205F *)
   || (c =? 12288) || (c =? 65279))%N (* U+3000, BOM *).

Fixpoint trim_start (s : jsstring) : jsstring :=
  match s with
  | c :: s' => if is_space c then trim_start s' else s
  | [] => []
  end.

Definition trim_end (s : jsstring) : jsstring :=
  rev (trim_start (rev s)).

(** [s.trim()]. *)
Definition trim (s : jsstring) : jsstring := trim_end (trim_start s).

(** The first occurrence of [sep] in [s]: the text before it and the text
    after it ([s.indexOf(sep)] with the two slices around the match). *)
Fixpoint cut (sep s : jsstring) : option (jsstring * jsstring) :=
  if starts_with sep s then Some ([], skipn (length sep) s)
  else match s with
       | [] => None
       | c :: s' =>
           match cut sep s' with
           | Some (b, a) => Some (c :: b, a)
           | None => None
           end
       end.

(** [s.split(sep)] for a non-empty separator: successive, non-overlapping
    occurrences found left to right.  The fuel bounds the number of pieces;
    [split] gives it the length of [s], which [split_unfold] shows to be
    enough. *)
Fixpoint split_fuel (fuel : nat) (sep s : jsstring) : list jsstring :=
  match cut sep s with
  | None => [s]
  | Some (b, a) =>
      match fuel with
      | O => [b; a]
      | S fuel' => b :: split_fuel fuel' sep a
      end
  end.

Definition split (sep s : jsstring) : list jsstring :=
  split_fuel (length s) sep s.

(** Positions (code-unit offsets) at which [sep] occurs in [s],
    overlapping occurrences included. *)
Fixpoint occurrences_from (i : nat) (sep s : jsstring) : list nat :=
  (if starts_with sep s then [i] else []) ++
  match s with
  | [] => []
  | _ :: s' => occurrences_from (S i) sep s'
  end.

Definition occurrences (sep s : jsstring) : list nat :=
  occurrences_from 0 sep s.

Definition is_digit (c : N) : bool := ((48 <=? c) && (c <=? 57))%N.

(** The longest run of decimal digits at the head of [s], and the rest. *)
Fixpoint span_digits (s : jsstring) : jsstring * jsstring :=
  match s with
  | c :: s' =>
      if is_digit c
      then let (d, r) := span_digits s' in (c :: d, r)
      else ([], s)
  | [] => ([], [])
  end.

(** Value of a run of decimal digits, most significant first. *)
Definition digits_value (d : jsstring) : N :=
  fold_left (fun acc c => (10 * acc + (c - 48))%N) d 0%N.

End JsString.
Import JsString.

(* ================================================================== *)
(** ** JavaScript values and [JSON.parse] *)

Module Json.

(** The values the pipeline handles: JSON values, and [undefined] for a
    missing property.  [JNum m e] is the number [m * 10^e]. *)
Inductive JsValue : Type :=
| JUndefined
| JNull
| JBool (b : bool)
| JNum (m e : Z)
| JStr (s : jsstring)
| JArr (items : list JsValue)
| JObj (fields : list (jsstring * JsValue)).

Definition num (n : Z) : JsValue := JNum n 0.

(** Outcome of a parser: a value and the unread input, a [SyntaxError], or
    fuel exhausted (which [JSON_parse_fuel_enough] rules out). *)
Inductive presult (A : Type) : Type :=
| POk (a : A) (rest : jsstring)
| PSyntaxError
| POutOfFuel.
Arguments PSyntaxError {A}.
Arguments POutOfFuel {A}.

(** JSON white space: space, tab, line feed, carriage return. *)
Definition is_json_ws (c : N) : bool :=
  ((c =? 32) || (c =? 9) || (c =? 10) || (c =? 13))%N.

Fixpoint skip_ws (s : jsstring) : jsstring :=
  match s with
  | c :: s' => if is_json_ws c then skip_ws s' else s
  | [] => []
  end.

Definition hex_value (c : N) : option N :=
  if ((48 <=? c) && (c <=? 57))%N then Some (c - 48)%N
  else if ((97 <=? c) && (c <=? 102))%N then Some (c - 87)%N
  else if ((65 <=? c) && (c <=? 70))%N then Some (c - 55)%N
  else None.

Definition hex4 (a b c d : N) : option N :=
  match hex_value a, hex_value b, hex_value c, hex_value d with
  | Some x, Some y, Some z, Some w =>
      Some (((x * 16 + y) * 16 + z) * 16 + w)%N
  | _, _, _, _ => None
  end.

(** The character an escape letter stands for. *)
Definition simple_escape (c : N) : option N :=
  if (c =? 34)%N then Some 34%N          (* quote *)
  else if (c =? 92)%N then Some 92%N     (* backslash *)
  else if (c =? 47)%N then Some 47%N     (* slash *)
  else if (c =? 98)%N then Some 8%N      (* escape b *)
  else if (c =? 102)%N then Some 12%N    (* escape f *)
  else if (c =? 110)%N then Some 10%N    (* escape n *)
  else if (c =? 114)%N then Some 13%N    (* escape r *)
  else if (c =? 116)%N then Some 9%N     (* escape t *)
  else None.

(** A string, read after its opening quote up to the closing one. *)
Fixpoint parse_string_body (s : jsstring) : option (jsstring * jsstring) :=
  match s with
  | [] => None
  | c :: r =>
      if (c =? 34)%N then Some ([], r)
      else if (c =? 92)%N then
        match r with
        | [] => None
        | e :: r1 =>
            if (e =? 117)%N then           (* u and four hex digits *)
              match r1 with
              | h1 :: h2 :: h3 :: h4 :: r2 =>
                  match hex4 h1 h2 h3 h4, parse_string_body r2 with
                  | Some u, Some (body, rest) => Some (u :: body, rest)
                  | _, _ => None
                  end
              | _ => None
              end
            else
              match simple_escape e, parse_string_body r1 with
              | Some u, Some (body, rest) => Some (u :: body, rest)
              | _, _ => None
              end
        end
      else if (c <? 32)%N then None
      else match parse_string_body r with
           | Some (body, rest) => Some (c :: body, rest)
           | None => None
           end
  end.

(** The digits of the integer part: a single [0], or a run that starts
    with [1..9]. *)
Definition parse_int_digits (s : jsstring) : option (jsstring * jsstring) :=
  match s with
  | c :: r =>
      if (c =? 48)%N then Some ([c], r)
      else if is_digit c then Some (span_digits s)
      else None
  | [] => None
  end.

Definition parse_frac (s : jsstring) : option (jsstring * jsstring) :=
  match s with
  | c :: r =>
      if (c =? 46)%N then
        match span_digits r with
        | ([], _) => None
        | (d, r') => Some (d, r')
        end
      else Some ([], s)
  | [] => Some ([], s)
  end.

Definition parse_exp (s : jsstring) : option (Z * jsstring) :=
  match s with
  | c :: r =>
      if ((c =? 101) || (c =? 69))%N then
        let '(neg, r1) :=
          match r with
          | g :: r' =>
              if (g =? 45)%N then (true, r')
              else if (g =? 43)%N then (false, r')
              else (false, r)
          | [] => (false, r)
          end in
        match span_digits r1 with
        | ([], _) => None
        | (d, r2) =>
            let v := Z.of_N (digits_value d) in
            Some (if neg then (- v)%Z else v, r2)
        end
      else Some (0%Z, s)
  | [] => Some (0%Z, s)
  end.

(** A number literal: [-? int frac? exp?].  The value is kept exact, as the
    mantissa and exponent read: the code holds the nearest double, so two
    literals of one double are two values here, and a literal past the
    range of doubles, [Infinity] in the code, is a number here. *)
Definition parse_number (s : jsstring) : presult JsValue :=
  let '(neg, s1) :=
    match s with
    | c :: r => if (c =? 45)%N then (true, r) else (false, s)
    | [] => (false, s)
    end in
  match parse_int_digits s1 with
  | None => PSyntaxError
  | Some (i, s2) =>
      match parse_frac s2 with
      | None => PSyntaxError
      | Some (f, s3) =>
          match parse_exp s3 with
          | None => PSyntaxError
          | Some (x, s4) =>
              let m := Z.of_N (digits_value (i ++ f)) in
              POk (JNum (if neg then (- m)%Z else m)
                        (x - Z.of_nat (length f))%Z) s4
          end
      end
  end.

Definition parse_literal (word : jsstring) (v : JsValue) (s : jsstring)
  : presult JsValue :=
  if starts_with word s then POk v (skipn (length word) s)
  else PSyntaxError.

Definition kw_true : jsstring := Eval cbv in lit "true".
Definition kw_false : jsstring := Eval cbv in lit "false".
Definition kw_null : jsstring := Eval cbv in lit "null".

(** Recursive descent over the JSON grammar.  [parse_value] reads one value
    (leading white space skipped); [parse_elements] reads what follows
    [[] up to the matching bracket, [parse_members] what follows [{]. *)
Fixpoint parse_value (fuel : nat) (s : jsstring) {struct fuel}
  : presult JsValue :=
  match fuel with
  | O => POutOfFuel
  | S fuel' =>
      match skip_ws s with
      | [] => PSyntaxError
      | c :: r =>
          if (c =? 123)%N then             (* { *)
            match skip_ws r with
            | c' :: r' =>
                if (c' =? 125)%N then POk (JObj []) r'
                else parse_members fuel' [] r
            | [] => parse_members fuel' [] r
            end
          else if (c =? 91)%N then         (* [ *)
            match skip_ws r with
            | c' :: r' =>
                if (c' =? 93)%N then POk (JArr []) r'
                else parse_elements fuel' [] r
            | [] => parse_elements fuel' [] r
            end
          else if (c =? 34)%N then         (* string *)
            match parse_string_body r with
            | Some (str, r') => POk (JStr str) r'
            | None => PSyntaxError
            end
          else if (c =? 116)%N then parse_literal kw_true (JBool true) (c :: r)
          else if (c =? 102)%N then parse_literal kw_false (JBool false) (c :: r)
          else if (c =? 110)%N then parse_literal kw_null JNull (c :: r)
          else parse_number (c :: r)
      end
  end

with parse_elements (fuel : nat) (acc : list JsValue) (s : jsstring)
  {struct fuel} : presult JsValue :=
  match fuel with
  | O => POutOfFuel
  | S fuel' =>
      match parse_value fuel' s with
      | POk v r =>
          match skip_ws r with
          | c :: r' =>
              if (c =? 44)%N then parse_elements fuel' (v :: acc) r'
              else if (c =? 93)%N then POk (JArr (rev (v :: acc))) r'
              else PSyntaxError
          | [] => PSyntaxError
          end
      | PSyntaxError => PSyntaxError
      | POutOfFuel => POutOfFuel
      end
  end

with parse_members (fuel : nat) (acc : list (jsstring * JsValue))
  (s : jsstring) {struct fuel} : presult JsValue :=
  match fuel with
  | O => POutOfFuel
  | S fuel' =>
      match skip_ws s with
      | [] => PSyntaxError
      | q :: r =>
          if (q =? 34)%N then
            match parse_string_body r with
            | None => PSyntaxError
            | Some (key, r1) =>
                match skip_ws r1 with
                | [] => PSyntaxError
                | colon :: r2 =>
                    if (colon =? 58)%N then
                      match parse_value fuel' r2 with
                      | POk v r3 =>
                          match skip_ws r3 with
                          | c :: r4 =>
                              if (c =? 44)%N
                              then parse_members fuel' ((key, v) :: acc) r4
                              else if (c =? 125)%N
                              then POk (JObj (rev ((key, v) :: acc))) r4
                              else PSyntaxError
                          | [] => PSyntaxError
                          end
                      | PSyntaxError => PSyntaxError
                      | POutOfFuel => POutOfFuel
                      end
                    else PSyntaxError
                end
            end
          else PSyntaxError
      end
  end.

(** Fuel that covers any input of this length. *)
Definition fuel_for (s : jsstring) : nat := 2 * length s + 2.

(** [JSON.parse(s)]: [Some v] for the value, [None] for a [SyntaxError].
    The whole input must be one value, white space around it allowed. *)
Definition JSON_parse (s : jsstring) : option JsValue :=
  match parse_value (fuel_for s) s with
  | POk v rest =>
      match skip_ws rest with
      | [] => Some v
      | _ :: _ => None
      end
  | _ => None
  end.

(** Own, non-inherited property [k] of an object literal as [JSON.parse]
    builds it: of duplicate keys the last one wins. *)
Fixpoint lookup (k : jsstring) (fields : list (jsstring * JsValue))
  : option JsValue :=
  match fields with
  | [] => None
  | (k', v) :: rest =>
      match lookup k rest with
      | Some w => Some w
      | None => if str_eqb k k' then Some v else None
      end
  end.

(** [v.k] for a property name [k] that no prototype defines (such as the
    four macro names): a [TypeError] ([None]) on [null] and [undefined],
    [undefined] on primitives, arrays and objects without the key. *)
Definition get_prop (k : jsstring) (v : JsValue) : option JsValue :=
  match v with
  | JUndefined | JNull => None
  | JObj fields =>
      Some match lookup k fields with Some w => w | None => JUndefined end
  | _ => Some JUndefined
  end.

(** [o.k = w] on an object: the key keeps its place if present, and is
    appended otherwise. *)
Fixpoint assign (k : jsstring) (w : JsValue)
  (fields : list (jsstring * JsValue)) : list (jsstring * JsValue) :=
  match fields with
  | [] => [(k, w)]
  | (k', v) :: rest =>
      if str_eqb k k' then (k', w) :: rest
      else (k', v) :: assign k w rest
  end.

(** [o.k = w] where [o] is an object (as the literal the parse step
    starts from); other values are left as they are. *)
Definition set_prop (k : jsstring) (w : JsValue) (o : JsValue) : JsValue :=
  match o with
  | JObj fields => JObj (assign k w fields)
  | other => other
  end.

End Json.
Import Json.

(* ================================================================== *)
(** ** Step C: parsing the reply of the analysis call *)

Module Parse.

(** The marker between the summary and the macro block. *)
Definition SENTINEL : jsstring := Eval cbv in lit "---JSON---".

Definition FENCE_JSON : jsstring := Eval cbv in lit "```json".
Definition FENCE : jsstring := Eval cbv in lit "```".

(** [s.replace(/```json|```/g, empty)].  [skip] counts the code units of a
    fence still to be dropped; at each position the first alternative
    is tried before the second. *)
Fixpoint strip_fences_from (skip : nat) (s : jsstring) : jsstring :=
  match s with
  | [] => []
  | c :: s' =>
      match skip with
      | S k => strip_fences_from k s'
      | O =>
          if starts_with FENCE_JSON s
          then strip_fences_from (length FENCE_JSON - 1) s'
          else if starts_with FENCE s
          then strip_fences_from (length FENCE - 1) s'
          else c :: strip_fences_from 0 s'
      end
  end.

Definition strip_fences (s : jsstring) : jsstring := strip_fences_from 0 s.

(** The letters of the label, lower case. *)
Definition CALORIES : jsstring := Eval cbv in lit "calories".

(** A prefix match that ignores the case of ASCII letters ([p] is lower
    case), as the [i] flag does without the [u] flag. *)
Fixpoint starts_with_ci (p s : jsstring) : bool :=
  match p, s with
  | [], _ => true
  | _ :: _, [] => false
  | x :: p', y :: s' =>
      ((N.eqb y x) || (N.eqb y (x - 32))) && starts_with_ci p' s'
  end.

(** [/Calories:?\s*(\d+)/i] anchored at the head of [s]: the capture. *)
Definition match_calories_here (s : jsstring) : option jsstring :=
  if starts_with_ci CALORIES s then
    let r := skipn (length CALORIES) s in
    let r1 := match r with
              | c :: r' => if (c =? 58)%N then r' else r
              | [] => r
              end in
    match span_digits (trim_start r1) with
    | ([], _) => None
    | (d, _) => Some d
    end
  else None.

(** [s.match(/Calories:?\s*(\d+)/i)]: the capture of the leftmost match. *)
Fixpoint match_calories (s : jsstring) : option jsstring :=
  match match_calories_here s with
  | Some d => Some d
  | None =>
      match s with
      | [] => None
      | _ :: s' => match_calories s'
      end
  end.

(** [parseInt] on a run of decimal digits: the exact value, where the code
    holds the nearest double ([Infinity] past the range of doubles). *)
Definition parseInt (d : jsstring) : JsValue :=
  num (Z.of_N (digits_value d)).

Definition K_CALORIES : jsstring := Eval cbv in lit "calories".
Definition K_PROTEIN : jsstring := Eval cbv in lit "protein".
Definition K_FAT : jsstring := Eval cbv in lit "fat".
Definition K_CARBS : jsstring := Eval cbv in lit "carbs".

(** [{ calories: c, protein: p, fat: f, carbs: b }]. *)
Definition macros_object (c p f b : JsValue) : JsValue :=
  JObj [(K_CALORIES, c); (K_PROTEIN, p); (K_FAT, f); (K_CARBS, b)].

(** [{ calories: 0, protein: 0, fat: 0, carbs: 0 }]. *)
Definition zero_macros : JsValue :=
  macros_object (num 0) (num 0) (num 0) (num 0).

(** What the parse step leaves behind: the two variables [summary] and
    [macros], and whether [console.error("JSON Parse Error", e)] ran. *)
Record Parsed : Type := mkParsed {
  parsed_summary : jsstring;
  parsed_macros : JsValue;
  parse_error_logged : bool
}.

(** The structured parse of the second piece:
    [JSON.parse] of the piece with its fences replaced by nothing, trimmed. *)
Definition parse_macro_block (piece : jsstring) : option JsValue :=
  JSON_parse (trim (strip_fences piece)).

(** The parse step of [handleAnalyze] (lines 562-576). *)
Definition parse_reply_image (fullText : jsstring) : Parsed :=
  let jsonSplit := split SENTINEL fullText in
  match jsonSplit with
  | piece0 :: piece1 :: _ =>
      match parse_macro_block piece1 with
      | Some v => mkParsed (trim piece0) v false
      | None =>
          let m :=
            match match_calories fullText with
            | Some d => set_prop K_CALORIES (parseInt d) zero_macros
            | None => zero_macros
            end in
          mkParsed (trim piece0) m true
      end
  | _ => mkParsed fullText zero_macros false
  end.

(** The parse step of [handleTextAnalyze] (lines 690-701). *)
Definition parse_reply_text (fullText : jsstring) : Parsed :=
  let jsonSplit := split SENTINEL fullText in
  match jsonSplit with
  | piece0 :: piece1 :: _ =>
      match parse_macro_block piece1 with
      | Some v => mkParsed (trim piece0) v false
      | None => mkParsed (trim piece0) zero_macros true
      end
  | _ => mkParsed fullText zero_macros false
  end.

End Parse.
Import Parse.

(* ================================================================== *)
(** ** Data of the component and of its collaborators *)

Module Data.

(** A grounding citation. *)
Record Source : Type := mkSource { uri : jsstring; title : jsstring }.

(** [interface AnalysisResult]; an optional field absent is [None].  The
    macro object is kept as the run-time value it is: the [Macros]
    annotation is not checked when [JSON.parse] supplies it. *)
Record AnalysisResult : Type := mkAnalysisResult {
  id : option JsValue;
  name : jsstring;
  summary : jsstring;
  macros : JsValue;
  imageUrl : option jsstring;
  timestamp : option Z;
  sources : option (list Source)
}.

(** A [File]: its name, its MIME type and its bytes. *)
Record File : Type := mkFile {
  file_name : jsstring;
  file_type : jsstring;
  file_bytes : list N
}.

(** The parts of a request to the completion service. *)
Inductive RequestPart : Type :=
| InlineData (mimeType : jsstring) (data : option jsstring)
| TextPart (text : jsstring).

Inductive Contents : Type :=
| PartsContents (parts : list RequestPart)
| TextContents (prompt : jsstring).

Record GenerateContentRequest : Type := mkRequest {
  model : string;
  contents : Contents;
  googleSearch : bool
}.

(** The reply of the completion service, as far as the handlers read it. *)
Record ResponsePart : Type := mkResponsePart { text : option jsstring }.

Record GroundingChunk : Type := mkChunk { web : option Source }.

Record Candidate : Type := mkCandidate {
  content_parts : option (list ResponsePart);       (* content?.parts *)
  groundingChunks : option (list GroundingChunk)    (* groundingMetadata?.groundingChunks *)
}.

Record GenerateContentResponse : Type := mkResponse {
  candidates : option (list Candidate)
}.

(** The object handed to [insert] on the [history] table. *)
Record InsertRow : Type := mkInsertRow {
  ins_name : jsstring;
  ins_summary : jsstring;
  ins_image_url : jsstring;
  ins_calories : JsValue;
  ins_protein : JsValue;
  ins_fat : JsValue;
  ins_carbs : JsValue
}.

(** A row of the [history] table as [select("*")] returns it. *)
Record Row : Type := mkRow {
  row_id : JsValue;
  row_name : jsstring;
  row_summary : jsstring;
  row_image_url : option jsstring;
  row_calories : JsValue;
  row_protein : JsValue;
  row_fat : JsValue;
  row_carbs : JsValue;
  row_created_at : Z
}.

(** [from(t).select(c).order(col, { ascending }).limit(n)]. *)
Record Query : Type := mkQuery {
  q_table : string;
  q_columns : string;
  q_order : string;
  q_ascending : bool;
  q_limit : nat
}.

(** A thrown value or the reason of a rejected promise. *)
Inductive Exn : Type :=
| ServiceError (msg : string)
| TypeError (msg : string).

(** The [error] member of a reply of the store. *)
Record StoreError : Type := mkStoreError { store_message : string }.

(** The [{ data, error }] reply of a select. *)
Inductive SelectReply : Type :=
| SelectError (e : StoreError)
| SelectData (rows : list Row).

(** State of the [FoodAnalyzer] component ([useState] cells). *)
Record State : Type := mkState {
  file : option File;
  imagePreview : option jsstring;
  searchText : jsstring;
  loading : bool;
  loadingStep : jsstring;
  result : option AnalysisResult;
  history : list AnalysisResult;
  cameraActive : bool
}.

Definition setLoading (b : bool) (st : State) : State :=
  mkState (file st) (imagePreview st) (searchText st) b (loadingStep st)
          (result st) (history st) (cameraActive st).

Definition setLoadingStep (s : jsstring) (st : State) : State :=
  mkState (file st) (imagePreview st) (searchText st) (loading st) s
          (result st) (history st) (cameraActive st).

Definition setResult (r : option AnalysisResult) (st : State) : State :=
  mkState (file st) (imagePreview st) (searchText st) (loading st)
          (loadingStep st) r (history st) (cameraActive st).

Definition setHistory (h : list AnalysisResult) (st : State) : State :=
  mkState (file st) (imagePreview st) (searchText st) (loading st)
          (loadingStep st) (result st) h (cameraActive st).

End Data.
Import Data.

(* ================================================================== *)
(** ** External calls, programs and their runs *)

Module Effects.

(** What [console.error] is given next to its label. *)
Inductive ErrorDetail : Type :=
| DetailSyntaxError
| DetailExn (e : Exn)
| DetailStore (e : StoreError).

(** The calls a handler makes to its environment, with the type of the
    answer.  A promise that may reject answers with a sum. *)
Inductive Ext : Type -> Type :=
| ReadAsDataURL (f : File) : Ext (Exn + jsstring)
| GenerateContent (req : GenerateContentRequest)
    : Ext (Exn + GenerateContentResponse)
| SupabaseInsert (table : string) (row : InsertRow)
    : Ext (option StoreError)
| SupabaseSelect (q : Query) : Ext SelectReply
| ConsoleError (label : option string) (detail : ErrorDetail) : Ext unit
| Alert (msg : string) : Ext unit.

(** A program: a finite tree of external calls. *)
Inductive Prog (A : Type) : Type :=
| Ret (a : A)
| Vis (X : Type) (e : Ext X) (k : X -> Prog A).
Arguments Ret {A} a.
Arguments Vis {A X} e k.

(** How a block ends. *)
Inductive Outcome (A : Type) : Type :=
| Normal (a : A)
| Thrown (e : Exn).
Arguments Normal {A} a.
Arguments Thrown {A} e.

(** A handler body: component state in and out, external calls, and
    exceptions. *)
Definition M (A : Type) : Type := State -> Prog (Outcome A * State).

Fixpoint bindP {A B} (p : Prog A) (f : A -> Prog B) : Prog B :=
  match p with
  | Ret a => f a
  | Vis e k => Vis e (fun x => bindP (k x) f)
  end.

Definition ret {A} (a : A) : M A := fun st => Ret (Normal a, st).

Definition throw {A} (e : Exn) : M A := fun st => Ret (Thrown e, st).

Definition bind {A B} (m : M A) (f : A -> M B) : M B :=
  fun st =>
    bindP (m st) (fun r =>
      match r with
      | (Normal a, st') => f a st'
      | (Thrown e, st') => Ret (Thrown e, st')
      end).

Definition call {X} (e : Ext X) : M X :=
  fun st => Vis e (fun x => Ret (Normal x, st)).

(** [await] of a promise that may reject. *)
Definition await {X} (e : Ext (Exn + X)) : M X :=
  bind (call e) (fun r =>
    match r with
    | inl ex => throw ex
    | inr x => ret x
    end).

Definition update (f : State -> State) : M unit :=
  fun st => Ret (Normal tt, f st).

Definition get : M State := fun st => Ret (Normal st, st).

(** [try { body } catch (e) { handler e }]. *)
Definition try_catch {A} (body : M A) (handler : Exn -> M A) : M A :=
  fun st =>
    bindP (body st) (fun r =>
      match r with
      | (Normal a, st') => Ret (Normal a, st')
      | (Thrown e, st') => handler e st'
      end).

(** [try { body } finally { fin }]. *)
Definition finally {A} (body : M A) (fin : M unit) : M A :=
  fun st =>
    bindP (body st) (fun r =>
      let '(o, st') := r in
      bindP (fin st') (fun r' =>
        match r' with
        | (Normal _, st'') => Ret (o, st'')
        | (Thrown e, st'') => Ret (Thrown e, st'')
        end)).

(** One call of a run, with the answer the environment gave. *)
Inductive Event : Type :=
| Ev (X : Type) (e : Ext X) (answer : X).
Arguments Ev {X} e answer.

(** An environment: a world of its own and an answer to every call. *)
Record Env (W : Type) : Type := mkEnv {
  answer : forall X, Ext X -> W -> X * W
}.

(** Running a program in an environment: the result, the world after, and
    the calls made, in order. *)
Fixpoint run {W A} (env : Env W) (p : Prog A) (w : W)
  : A * W * list Event :=
  match p with
  | Ret a => (a, w, [])
  | Vis e k =>
      let (x, w') := answer env e w in
      let '(a, w'', tr) := run env (k x) w' in
      (a, w'', Ev e x :: tr)
  end.

(** Classification of events. *)
Definition is_insert (ev : Event) : bool :=
  match ev with
  | Ev (SupabaseInsert _ _) _ => true
  | Ev _ _ => false
  end.

Definition is_select (ev : Event) : bool :=
  match ev with
  | Ev (SupabaseSelect _) _ => true
  | Ev _ _ => false
  end.

Definition is_alert (ev : Event) : bool :=
  match ev with
  | Ev (Alert _) _ => true
  | Ev _ _ => false
  end.


End Effects.
Import Effects.

Declare Scope handler_scope.
Delimit Scope handler_scope with handler.
Notation "x <- c ;; k" := (bind c (fun x => k))
  (at level 61, c at next level, right associativity) : handler_scope.
Notation "c ;;; k" := (bind c (fun _ => k))
  (at level 61, right associativity) : handler_scope.

(* ================================================================== *)
(** ** The component: [loadHistory], [handleAnalyze], [handleTextAnalyze] *)

Module App.

Local Open Scope handler_scope.

Definition MODEL_NAME : string := "gemini-2.5-flash-preview-09-2025".

(** [s || d] on an optional string: [d] when [s] is undefined or empty. *)
Definition or_else (s : option jsstring) (d : jsstring) : jsstring :=
  match s with
  | Some (c :: r) => c :: r
  | _ => d
  end.

(** Truthiness of an optional string. *)
Definition truthy (s : option jsstring) : bool :=
  match s with
  | Some (_ :: _) => true
  | _ => false
  end.

(** [response.candidates?.[0]?.content?.parts?.[0]?.text]. *)
Definition first_text (r : GenerateContentResponse) : option jsstring :=
  match candidates r with
  | Some (c :: _) =>
      match content_parts c with
      | Some (p :: _) => text p
      | _ => None
      end
  | _ => None
  end.

(** [response.candidates?.[0]?.groundingMetadata?.groundingChunks || []]. *)
Definition first_chunks (r : GenerateContentResponse) : list GroundingChunk :=
  match candidates r with
  | Some (c :: _) =>
      match groundingChunks c with
      | Some l => l
      | None => []
      end
  | _ => []
  end.

(** [chunks.map((c) => c.web).filter(Boolean)]. *)
Fixpoint web_sources (chunks : list GroundingChunk) : list Source :=
  match chunks with
  | [] => []
  | c :: rest =>
      match web c with
      | Some s => s :: web_sources rest
      | None => web_sources rest
      end
  end.

(** The query of [loadHistory] (lines 455-459). *)
Definition history_query : Query :=
  mkQuery "history" "*" "created_at" false 20.

(** The callback of [data.map] in [loadHistory] (lines 467-479). *)
Definition row_to_result (item : Row) : AnalysisResult :=
  mkAnalysisResult
    (Some (row_id item))
    (row_name item)
    (row_summary item)
    (macros_object (row_calories item) (row_protein item)
                   (row_fat item) (row_carbs item))
    (row_image_url item)
    (Some (row_created_at item))
    None.

(** [loadHistory] (lines 454-481). *)
Definition loadHistory : M unit :=
  reply <- call (SupabaseSelect history_query) ;;
  match reply with
  | SelectError e =>
      call (ConsoleError (Some "Supabase Load Error:"%string) (DetailStore e))
  | SelectData data =>
      update (setHistory (map row_to_result data))
  end.

(** [fileToGenerativePart] (lines 92-103): the part of the data URL after
    its first comma. *)
Definition fileToGenerativePart (f : File) : M (option jsstring) :=
  base64String <- await (ReadAsDataURL f) ;;
  ret (nth_error (split [44%N] base64String) 1).

Definition identify_instruction : jsstring :=
  lit "Identify the main food item in this image. Return ONLY the common name of the food.".

Definition UNKNOWN_FOOD : jsstring := lit "Unknown food".

Definition line (indent : nat) (s : jsstring) : jsstring :=
  repeat 32%N indent ++ s ++ newline.

(** The template of [handleAnalyze] (lines 529-545), indentation kept. *)
Definition analysis_prompt (foodName : jsstring) : jsstring :=
  newline
  ++ line 8 (lit "Research the nutritional value of " ++ dquote ++ foodName
             ++ dquote ++ lit " per standard serving.")
  ++ line 8 []
  ++ line 8 (lit "1. Write a 50-75 word engaging nutritional summary about it.")
  ++ line 8 (lit "2. Provide specific numerical values for Calories (kcal), Protein (g), Fat (g), and Carbs (g).")
  ++ line 8 []
  ++ line 8 (lit "Format the output as follows:")
  ++ line 8 (lit "[Summary Text]")
  ++ line 8 []
  ++ line 8 (lit "---JSON---")
  ++ line 8 (lit "{")
  ++ line 10 (dquote ++ lit "calories" ++ dquote ++ lit ": number,")
  ++ line 10 (dquote ++ lit "protein" ++ dquote ++ lit ": number,")
  ++ line 10 (dquote ++ lit "fat" ++ dquote ++ lit ": number,")
  ++ line 10 (dquote ++ lit "carbs" ++ dquote ++ lit ": number")
  ++ line 8 (lit "}")
  ++ repeat 32%N 6.

(** The template of [handleTextAnalyze] (line 681). *)
Definition text_prompt (foodName : jsstring) : jsstring :=
  line 0 (lit "Research the nutritional value of " ++ dquote ++ foodName
          ++ dquote ++ lit " per standard serving.")
  ++ line 0 []
  ++ line 0 (lit "1. Write a 50-75 word engaging nutritional summary about it.")
  ++ line 0 (lit "2. Provide specific numerical values for Calories (kcal), Protein (g), Fat (g), and Carbs (g).")
  ++ line 0 []
  ++ line 0 (lit "Format the output as follows:")
  ++ line 0 (lit "[Summary Text]")
  ++ line 0 []
  ++ line 0 (lit "---JSON---")
  ++ line 0 (lit "{")
  ++ line 2 (dquote ++ lit "calories" ++ dquote ++ lit ": number,")
  ++ line 2 (dquote ++ lit "protein" ++ dquote ++ lit ": number,")
  ++ line 2 (dquote ++ lit "fat" ++ dquote ++ lit ": number,")
  ++ line 2 (dquote ++ lit "carbs" ++ dquote ++ lit ": number")
  ++ line 0 (lit "}").

Definition identify_request (f : File) (base64Data : option jsstring)
  : GenerateContentRequest :=
  mkRequest MODEL_NAME
    (PartsContents [InlineData (file_type f) base64Data;
                    TextPart identify_instruction])
    false.

Definition analysis_request (prompt : jsstring) : GenerateContentRequest :=
  mkRequest MODEL_NAME (TextContents prompt) true.

(** The object literal given to [insert] (lines 595-603); [None] when
    reading a macro off the macro object throws. *)
Definition insert_row_of (foodName summary imagePreview : jsstring)
  (macros : JsValue) : option InsertRow :=
  match get_prop K_CALORIES macros, get_prop K_PROTEIN macros,
        get_prop K_FAT macros, get_prop K_CARBS macros with
  | Some c, Some p, Some f, Some b =>
      Some (mkInsertRow foodName summary imagePreview c p f b)
  | _, _, _, _ => None
  end.

Definition insert_row (foodName summary imagePreview : jsstring)
  (macros : JsValue) : M InsertRow :=
  match insert_row_of foodName summary imagePreview macros with
  | Some row => ret row
  | None => throw (TypeError "Cannot read properties of null")
  end.

(** The body of the [try] block of [handleAnalyze] (lines 508-609). *)
Definition analyze_body (f : File) (imagePreview : jsstring) : M unit :=
  base64Data <- fileToGenerativePart f ;;
  (* Step 1: identify *)
  identifyResponse <- await (GenerateContent (identify_request f base64Data)) ;;
  let foodName :=
    or_else (option_map trim (first_text identifyResponse)) UNKNOWN_FOOD in
  update (setLoadingStep (lit "Analyzing " ++ foodName ++ lit "...")) ;;;
  (* Step 2: grounded analysis *)
  let prompt := analysis_prompt foodName in
  analysisResponse <- await (GenerateContent (analysis_request prompt)) ;;
  let fullText := or_else (first_text analysisResponse) [] in
  let groundingChunks := first_chunks analysisResponse in
  (* parse output *)
  let parsed := parse_reply_image fullText in
  (if parse_error_logged parsed
   then call (ConsoleError (Some "JSON Parse Error"%string) DetailSyntaxError)
   else ret tt) ;;;
  let newAnalysis :=
    mkAnalysisResult None foodName (parsed_summary parsed)
      (parsed_macros parsed) (Some imagePreview) None
      (Some (web_sources groundingChunks)) in
  update (setResult (Some newAnalysis)) ;;;
  (* Step 3: persistence *)
  row <- insert_row foodName (parsed_summary parsed) imagePreview
           (parsed_macros parsed) ;;
  saveError <- call (SupabaseInsert "history" row) ;;
  match saveError with
  | Some e =>
      call (ConsoleError (Some "Supabase Save Error:"%string) (DetailStore e))
  | None => loadHistory
  end.

(** [handleAnalyze] (lines 502-620). *)
Definition handleAnalyze : M unit :=
  st <- get ;;
  match file st, imagePreview st with
  | Some f, Some (c :: p) =>
      update (setLoading true) ;;;
      update (setLoadingStep (lit "Identifying food...")) ;;;
      finally
        (try_catch
           (analyze_body f (c :: p))
           (fun error =>
              call (ConsoleError (Some "Analysis Failed"%string)
                      (DetailExn error)) ;;;
              call (Alert "Something went wrong. Please check your API key or try again.")))
        (update (setLoading false) ;;; update (setLoadingStep []))
  | _, _ => ret tt
  end.

(** The body of the [try] block of [handleTextAnalyze] (lines 680-711). *)
Definition text_analyze_body (searchText : jsstring) : M unit :=
  let foodName := trim searchText in
  let prompt := text_prompt foodName in
  analysisResponse <- await (GenerateContent (analysis_request prompt)) ;;
  let fullText := or_else (first_text analysisResponse) [] in
  let parsed := parse_reply_text fullText in
  (if parse_error_logged parsed
   then call (ConsoleError (Some "JSON Parse Error"%string) DetailSyntaxError)
   else ret tt) ;;;
  let newAnalysis :=
    mkAnalysisResult None foodName (parsed_summary parsed)
      (parsed_macros parsed) None None (Some []) in
  update (setResult (Some newAnalysis)).

(** [handleTextAnalyze] (lines 674-719). *)
Definition handleTextAnalyze : M unit :=
  st <- get ;;
  match trim (searchText st) with
  | [] => ret tt
  | _ :: _ =>
      update (setLoading true) ;;;
      update (setLoadingStep (lit "Analyzing text prompt...")) ;;;
      finally
        (try_catch
           (text_analyze_body (searchText st))
           (fun e =>
              call (ConsoleError None (DetailExn e)) ;;;
              call (Alert "Text analysis failed. Check console for details.")))
        (update (setLoading false) ;;; update (setLoadingStep []))
  end.

(** Which handler a control of the upload view starts. *)
Inductive Control : Type :=
| StartAnalysisButton      (* line 803: onClick runs handleAnalyze *)
| SearchButton             (* line 760: onClick runs handleTextAnalyze *)
| SearchEnterKey.          (* line 758: Enter runs handleTextAnalyze *)

(** Whether the control is in the rendered tree (lines 724-813): the
    upload view shows when there is no result; inside it the search bar is
    unconditional, and the start button sits under
    [loading ? spinner : imagePreview ? preview : ...]. *)
Definition rendered (c : Control) (st : State) : bool :=
  match result st with
  | Some _ => false
  | None =>
      match c with
      | StartAnalysisButton => negb (loading st) && truthy (imagePreview st)
      | SearchButton | SearchEnterKey => true
      end
  end.

Definition on_trigger (c : Control) : M unit :=
  match c with
  | StartAnalysisButton => handleAnalyze
  | SearchButton | SearchEnterKey => handleTextAnalyze
  end.

End App.
Import App.

(* ================================================================== *)
(** ** The remote store, as the component relies on it *)

Module Store.

(** Modelled from the spec: the remote record store is an external
    service, a table of rows {id, name, summary, image_url, calories,
    protein, fat, carbs, created_at} with insert-one and select-recent
    (order by creation, limit N).  The store is taken to keep the column
    values it is given and to assign [id] and [created_at] itself. *)
Definition Table := list Row.

(** A property left [undefined] is not sent; its column reads back [null]. *)
Definition column (v : JsValue) : JsValue :=
  match v with
  | JUndefined => JNull
  | other => other
  end.

Definition stored (row : InsertRow) (new_id : JsValue) (now : Z) : Row :=
  mkRow new_id (ins_name row) (ins_summary row) (Some (ins_image_url row))
        (column (ins_calories row)) (column (ins_protein row))
        (column (ins_fat row)) (column (ins_carbs row)) now.

Definition insert (row : InsertRow) (new_id : JsValue) (now : Z)
  (tbl : Table) : Table :=
  tbl ++ [stored row new_id now].

(** [before asc a b]: row [a] may precede row [b] in the requested order. *)
Definition before (ascending : bool) (a b : Row) : bool :=
  if ascending
  then (row_created_at a <=? row_created_at b)%Z
  else (row_created_at b <=? row_created_at a)%Z.

Fixpoint place (ascending : bool) (r : Row) (l : list Row) : list Row :=
  match l with
  | [] => [r]
  | x :: l' =>
      if before ascending r x then r :: l
      else x :: place ascending r l'
  end.

Definition order_by_created_at (ascending : bool) (tbl : Table) : list Row :=
  fold_right (place ascending) [] tbl.

(** The rows a query on the table returns. *)
Definition select (q : Query) (tbl : Table) : list Row :=
  firstn (q_limit q) (order_by_created_at (q_ascending q) tbl).

(** The world of a run against such a store: the table, the server clock
    and identifier counter, the file reader, the completion service, and
    the store's verdict on an insert. *)
Record World : Type := mkWorld {
  table : Table;
  clock : Z;
  next_id : Z;
  reader : File -> Exn + jsstring;
  service : GenerateContentRequest -> Exn + GenerateContentResponse;
  verdict : InsertRow -> option StoreError
}.

Definition respond (X : Type) (e : Ext X) (w : World) : X * World :=
  match e in Ext T return T * World with
  | ReadAsDataURL f => (reader w f, w)
  | GenerateContent req => (service w req, w)
  | SupabaseInsert _ row =>
      match verdict w row with
      | Some err => (Some err, w)
      | None =>
          (None,
           mkWorld (insert row (num (next_id w)) (clock w) (table w))
                   (clock w + 1)%Z (next_id w + 1)%Z
                   (reader w) (service w) (verdict w))
      end
  | SupabaseSelect q => (SelectData (select q (table w)), w)
  | ConsoleError _ _ => (tt, w)
  | Alert _ => (tt, w)
  end.

Definition env : Env World := mkEnv respond.

End Store.

(* ================================================================== *)
(** ** Observations on a run *)

Definition trace_of {W A} (r : A * W * list Event) : list Event := snd r.
Definition world_of {W A} (r : A * W * list Event) : W := snd (fst r).
Definition state_of {W A} (r : (Outcome A * State) * W * list Event) : State :=
  snd (fst (fst r)).
Definition outcome_of {W A} (r : (Outcome A * State) * W * list Event)
  : Outcome A := fst (fst (fst r)).

(** Row [a] is at least as recent as row [b]. *)
Definition newer_eq (a b : Row) : Prop :=
  (row_created_at b <= row_created_at a)%Z.

(** Row [a] is more recent than row [b]. *)
Definition newer (a b : Row) : Prop :=
  (row_created_at b < row_created_at a)%Z.

(** The creation time a record of the history carries. *)
Definition created (r : AnalysisResult) : Z :=
  match timestamp r with
  | Some t => t
  | None => 0%Z
  end.

(** A non-negative number. *)
Definition is_nonneg_number (v : JsValue) : bool :=
  match v with
  | JNum m _ => (0 <=? m)%Z
  | _ => false
  end.

Definition field_is (P : JsValue -> bool) (k : jsstring) (v : JsValue) : bool :=
  match get_prop k v with
  | Some w => P w
  | None => false
  end.

(** Each of [calories], [protein], [fat], [carbs] is a non-negative number. *)
Definition nonneg_macros (v : JsValue) : bool :=
  field_is is_nonneg_number K_CALORIES v
  && field_is is_nonneg_number K_PROTEIN v
  && field_is is_nonneg_number K_FAT v
  && field_is is_nonneg_number K_CARBS v.

(** The four macro fields of two macro objects agree. *)
Definition same_macros (a b : JsValue) : Prop :=
  get_prop K_CALORIES a = get_prop K_CALORIES b
  /\ get_prop K_PROTEIN a = get_prop K_PROTEIN b
  /\ get_prop K_FAT a = get_prop K_FAT b
  /\ get_prop K_CARBS a = get_prop K_CARBS b.

(** A promise of the run that was rejected. *)
Definition is_rejection (ev : Event) : bool :=
  match ev with
  | Ev (ReadAsDataURL _) (inl _) => true
  | Ev (GenerateContent _) (inl _) => true
  | Ev _ _ => false
  end.

Definition is_number (v : JsValue) : bool :=
  match v with
  | JNum _ _ => true
  | _ => false
  end.

(** The macro object has the shape [interface Macros] declares: the four
    fields are numbers. *)
Definition typed_macros (v : JsValue) : bool :=
  field_is is_number K_CALORIES v
  && field_is is_number K_PROTEIN v
  && field_is is_number K_FAT v
  && field_is is_number K_CARBS v.

(** Where a number literal stops being a finite double: from
    [2^1024 - 2^970] on, the midpoint between the largest double and
    [2^1024], [JSON.parse] gives [Infinity], which no JSON text carries. *)
Definition DOUBLE_OVERFLOW : Z := (2 ^ 1024 - 2 ^ 970)%Z.

(** A number that is finite as a double. *)
Definition finite_number (v : JsValue) : bool :=
  match v with
  | JNum m e =>
      if (0 <=? e)%Z
      then (Z.abs m * 10 ^ e <? DOUBLE_OVERFLOW)%Z
      else (Z.abs m <? DOUBLE_OVERFLOW * 10 ^ (- e))%Z
  | _ => false
  end.

(** The four fields of the macro object are finite numbers. *)
Definition finite_macros (v : JsValue) : bool :=
  field_is finite_number K_CALORIES v
  && field_is finite_number K_PROTEIN v
  && field_is finite_number K_FAT v
  && field_is finite_number K_CARBS v.

(** The insert a call is, with the reply it got. *)
Definition insert_attempt (ev : Event) : option (InsertRow * option StoreError) :=
  match ev with
  | Ev e x =>
      match e in Ext X return X -> option (InsertRow * option StoreError) with
      | SupabaseInsert _ row => fun reply => Some (row, reply)
      | _ => fun _ => None
      end x
  end.

(** The inserts of a run, in order. *)
Fixpoint insert_attempts (tr : list Event)
  : list (InsertRow * option StoreError) :=
  match tr with
  | [] => []
  | ev :: rest =>
      match insert_attempt ev with
      | Some a => a :: insert_attempts rest
      | None => insert_attempts rest
      end
  end.

(** The queries of a run, in order. *)
Fixpoint queries (tr : list Event) : list Query :=
  match tr with
  | [] => []
  | Ev (SupabaseSelect q) _ :: rest => q :: queries rest
  | _ :: rest => queries rest
  end.

(** The requests a run sends to the completion service, in order. *)
Fixpoint requests (tr : list Event) : list GenerateContentRequest :=
  match tr with
  | [] => []
  | Ev (GenerateContent req) _ :: rest => req :: requests rest
  | _ :: rest => requests rest
  end.

(** The record on display carries what the row sent to the store carries. *)
Definition shows (rec : AnalysisResult) (row : InsertRow) : Prop :=
  name rec = ins_name row
  /\ summary rec = ins_summary row
  /\ imageUrl rec = Some (ins_image_url row)
  /\ get_prop K_CALORIES (macros rec) = Some (ins_calories row)
  /\ get_prop K_PROTEIN (macros rec) = Some (ins_protein row)
  /\ get_prop K_FAT (macros rec) = Some (ins_fat row)
  /\ get_prop K_CARBS (macros rec) = Some (ins_carbs row).

(** The outcome of the structured parse on a reply: [None] when the marker
    is missing or the block after it does not parse. *)
Definition structured_macros (fullText : jsstring) : option JsValue :=
  match split SENTINEL fullText with
  | _ :: piece1 :: _ => parse_macro_block piece1
  | _ => None
  end.

(* ================================================================== *)
(** ** Sample replies *)

Module Samples.

Definition quoted (s : string) : jsstring := dquote ++ lit s ++ dquote.

(** The macro block with the given number literals. *)
Definition macro_json (c p f b : string) : jsstring :=
  lit "{" ++ quoted "calories" ++ lit ":" ++ lit c ++ lit ","
  ++ quoted "protein" ++ lit ":" ++ lit p ++ lit ","
  ++ quoted "fat" ++ lit ":" ++ lit f ++ lit ","
  ++ quoted "carbs" ++ lit ":" ++ lit b ++ lit "}".

(** The banana reply of the spec: summary, blank line, marker, block. *)
Definition banana_pre : jsstring :=
  lit "A sweet tropical fruit..." ++ newline ++ newline.
Definition banana_post : jsstring :=
  newline ++ macro_json "105" "1" "0" "27".
Definition banana_reply : jsstring := banana_pre ++ SENTINEL ++ banana_post.
Definition banana_macros : JsValue :=
  macros_object (num 105) (num 1) (num 0) (num 27).

Definition plain_reply : jsstring := lit "Some text without marker".

(** A well-formed block with a negative calorie count. *)
Definition negative_reply : jsstring :=
  lit "x" ++ SENTINEL ++ macro_json "-5" "0" "0" "0".

(** A labelled calorie count, and a block that is not JSON. *)
Definition label_reply : jsstring :=
  lit "Calories: 105 " ++ SENTINEL ++ lit " oops".

(** The block inside a code fence, as the service often sends it. *)
Definition fenced_reply : jsstring :=
  lit "Plain oats." ++ newline ++ SENTINEL ++ newline
  ++ lit "```json" ++ newline ++ macro_json "150" "5" "3" "27" ++ newline
  ++ lit "```" ++ newline.

(** A block that is the JSON value [null]. *)
Definition null_reply : jsstring := lit "Water." ++ SENTINEL ++ lit "null".

(** The marker twice. *)
Definition twice_pre : jsstring := lit "Oats. ".
Definition twice_mid : jsstring := macro_json "150" "5" "3" "27".
Definition twice_rest : jsstring := lit " trailing " ++ macro_json "1" "1" "1" "1".
Definition twice_reply : jsstring :=
  twice_pre ++ SENTINEL ++ twice_mid ++ SENTINEL ++ twice_rest.
Definition twice_macros : JsValue :=
  macros_object (num 150) (num 5) (num 3) (num 27).

(** The marker twice, the block between the two inside a code fence. *)
Definition twice_fenced_mid : jsstring :=
  newline ++ FENCE_JSON ++ newline ++ twice_mid ++ newline ++ FENCE
  ++ newline.
Definition twice_fenced_reply : jsstring :=
  twice_pre ++ SENTINEL ++ twice_fenced_mid ++ SENTINEL ++ twice_rest.

(** A block that is an object with one of the four fields only. *)
Definition partial_reply : jsstring :=
  lit "Toast." ++ SENTINEL ++ lit "{" ++ quoted "calories" ++ lit ":100}".

End Samples.

(* ================================================================== *)
(** ** Sample runs *)

Module Scenario.

Definition meal : File := mkFile (lit "meal.png") (lit "image/png") [].

Definition data_url : jsstring := lit "data:image/png;base64,AAAA".

(** A reply whose first candidate has the single text part [t]. *)
Definition reply (t : jsstring) : GenerateContentResponse :=
  mkResponse (Some [mkCandidate (Some [mkResponsePart (Some t)]) None]).

(** A service that names every image a banana and answers every prompt
    with [analysis]. *)
Definition service_with (analysis : jsstring) (req : GenerateContentRequest)
  : Exn + GenerateContentResponse :=
  match contents req with
  | PartsContents _ => inr (reply (lit "banana"))
  | TextContents _ => inr (reply analysis)
  end.

Definition accepting (_ : InsertRow) : option StoreError := None.


(** An empty table, and a service that gives the banana reply. *)
Definition world (verdict : InsertRow -> option StoreError) : Store.World :=
  Store.mkWorld [] 1000 1 (fun _ => inr data_url)
    (service_with Samples.banana_reply) verdict.

(** A service whose identification reply has no candidates. *)
Definition service_without_name (req : GenerateContentRequest)
  : Exn + GenerateContentResponse :=
  match contents req with
  | PartsContents _ => inr (mkResponse None)
  | TextContents _ => inr (reply Samples.plain_reply)
  end.

(** A service whose analysis reply carries the block [null]. *)
Definition null_world : Store.World :=
  Store.mkWorld [] 1000 1 (fun _ => inr data_url)
    (service_with Samples.null_reply) accepting.

(** A service whose analysis reply labels the calories and carries a block
    that is not JSON. *)
Definition label_world : Store.World :=
  Store.mkWorld [] 1000 1 (fun _ => inr data_url)
    (service_with Samples.label_reply) accepting.

Definition nameless_world : Store.World :=
  Store.mkWorld [] 1000 1 (fun _ => inr data_url)
    service_without_name accepting.

(** A photo has been chosen; nothing runs. *)
Definition photo_ready : State :=
  mkState (Some meal) (Some data_url) [] false [] None [] false.

(** A food name has been typed; nothing runs. *)
Definition text_ready : State :=
  mkState None None (lit "banana") false [] None [] false.

(** An analysis is in flight ([loading] is true) and a food name is in
    the search box. *)
Definition busy_with_text : State :=
  mkState None None (lit "banana") true (lit "Identifying food...")
          None [] false.

(** An analysis is in flight and a photo is still selected. *)
Definition busy_with_photo : State :=
  mkState (Some meal) (Some data_url) [] true (lit "Identifying food...")
          None [] false.

Definition banana_record (image : option jsstring)
  (cites : list Source) : AnalysisResult :=
  mkAnalysisResult None (lit "banana") (lit "A sweet tropical fruit...")
    Samples.banana_macros image None (Some cites).

(** Three rows, not in the order of their creation. *)
Definition row_at (n t : Z) : Row :=
  mkRow (num n) (lit "oats") (lit "Oats.") None
        (num 150) (num 5) (num 3) (num 27) t.

Definition three_rows : Store.Table := [row_at 1 10; row_at 2 30; row_at 3 20].

(** Three rows in the table, and a service whose analysis reply carries an
    object with the calories only. *)
Definition partial_world : Store.World :=
  Store.mkWorld three_rows 1000 4 (fun _ => inr data_url)
    (service_with Samples.partial_reply) accepting.

End Scenario.

(* ================================================================== *)
(** ** The other controls of the analyzer: file choice, reset, history *)

Module Inputs.

Local Open Scope handler_scope.

Definition setFile (f : option File) (st : State) : State :=
  mkState f (imagePreview st) (searchText st) (loading st) (loadingStep st)
          (result st) (history st) (cameraActive st).

Definition setImagePreview (p : option jsstring) (st : State) : State :=
  mkState (file st) p (searchText st) (loading st) (loadingStep st)
          (result st) (history st) (cameraActive st).

Definition setCameraActive (b : bool) (st : State) : State :=
  mkState (file st) (imagePreview st) (searchText st) (loading st)
          (loadingStep st) (result st) (history st) b.

(** The part of [handleFileSelect] that runs in the change event (lines
    490-493, 498): the file is selected at once and its read is started; the
    read ends later, in a task of its own. *)
Definition beginFileSelect (selected : option File) : M unit :=
  match selected with
  | Some f => update (setFile (Some f))
  | None => ret tt
  end.

(** The callback [reader.onloadend] of the read of [f] (lines 494-497), run
    when that read has ended, well or not; after a failed read
    [reader.result] is [null]. *)
Definition onloadend (f : File) : M unit :=
  read <- call (ReadAsDataURL f) ;;
  update (setImagePreview match read with
                          | inr url => Some url
                          | inl _ => None
                          end) ;;;
  update (setResult None).

(** [handleFileSelect] (lines 489-500) together with its callback, as they
    run when nothing else runs between the change event and the end of the
    read; [selected] is [e.target.files?.[0]].  What can run in between is
    the matter of [Session]. *)
Definition handleFileSelect (selected : option File) : M unit :=
  match selected with
  | Some f =>
      update (setFile (Some f)) ;;;
      read <- call (ReadAsDataURL f) ;;
      update (setImagePreview match read with
                              | inr url => Some url
                              | inl _ => None
                              end) ;;;
      update (setResult None)
  | None => ret tt
  end.

(** The [onClick] of the Scan Next button (lines 945-949). *)
Definition scanNext : M unit :=
  update (setResult None) ;;;
  update (setFile None) ;;;
  update (setImagePreview None).

(** The [onClick] of an entry of Recent Scans (line 981). *)
Definition showHistoryItem (item : AnalysisResult) : M unit :=
  update (setResult (Some item)).

(** The [src] of the image of the result view (line 861):
    [result.imageUrl || imagePreview || empty]. *)
Definition image_src (rec : AnalysisResult) (st : State) : jsstring :=
  or_else (imageUrl rec) (or_else (imagePreview st) []).

(** The citations the result view lists (line 875):
    [result.sources?.slice(0, 3)]. *)
Definition shown_sources (rec : AnalysisResult) : option (list Source) :=
  option_map (firstn 3) (sources rec).

(** The macro reads of the result view (lines 917-939) and of an entry of
    Recent Scans (lines 986-1000): the four properties off [macros], or
    [None] when a read throws. *)
Definition view_macros (rec : AnalysisResult)
  : option (JsValue * JsValue * JsValue * JsValue) :=
  match get_prop K_CALORIES (macros rec), get_prop K_PROTEIN (macros rec),
        get_prop K_FAT (macros rec), get_prop K_CARBS (macros rec) with
  | Some c, Some p, Some f, Some b => Some (c, p, f, b)
  | _, _, _, _ => None
  end.

End Inputs.
Import Inputs.

(* ================================================================== *)
(** ** The camera: [startCamera], [stopCamera], [captureFromCamera] *)

Module Camera.

(** A track of a media stream, and a stream as the list [getTracks()]
    returns. *)
Definition Track := N.
Definition MediaStream := list Track.

(** The component state the camera handlers read and write: the cells of
    [State] and the [stream] cell.  The two refs are not cells of the state:
    React fills and empties them as the video and the canvas mount and
    unmount (lines 816-819), so reading one is a call to the platform. *)
Record CamState : Type := mkCamState {
  ui : State;
  stream : option MediaStream
}.

Definition with_ui (f : State -> State) (c : CamState) : CamState :=
  mkCamState (f (ui c)) (stream c).

Definition setStream (s : option MediaStream) (c : CamState) : CamState :=
  mkCamState (ui c) s.

(** The calls of the camera handlers to the platform. *)
Inductive CamExt : Type -> Type :=
| SupportsGetUserMedia : CamExt bool   (* navigator.mediaDevices?.getUserMedia *)
| GetUserMedia (facingMode : string) : CamExt (Exn + MediaStream)
| VideoRefCurrent : CamExt bool        (* whether videoRef.current holds an element *)
| CanvasRefCurrent : CamExt bool       (* whether canvasRef.current holds an element *)
| VideoSetSrcObject (s : option MediaStream) : CamExt unit
| VideoPlay : CamExt (Exn + unit)
| VideoPause : CamExt unit
| VideoSize : CamExt (N * N)           (* videoWidth, videoHeight *)
| TrackStop (t : Track) : CamExt unit
| CreateCanvas : CamExt unit           (* document.createElement *)
| CanvasResize (width height : N) : CamExt unit
| GetContext2d : CamExt bool           (* whether the context is not null *)
| DrawImage (width height : N) : CamExt unit
| ToDataURL (mime : string) : CamExt jsstring
| FetchBlob (url : jsstring) : CamExt (Exn + list N)
| DateNow : CamExt Z
| CamConsoleError (label : string) (e : Exn) : CamExt unit
| CamAlert (msg : string) : CamExt unit.

(** Programs over these calls, as [Prog] is over [Ext]. *)
Inductive CamProg (A : Type) : Type :=
| CRet (a : A)
| CVis (X : Type) (e : CamExt X) (k : X -> CamProg A).
Arguments CRet {A} a.
Arguments CVis {A X} e k.

Definition CM (A : Type) : Type := CamState -> CamProg (Outcome A * CamState).

Fixpoint cbindP {A B} (p : CamProg A) (f : A -> CamProg B) : CamProg B :=
  match p with
  | CRet a => f a
  | CVis e k => CVis e (fun x => cbindP (k x) f)
  end.

Definition cret {A} (a : A) : CM A := fun c => CRet (Normal a, c).

Definition cthrow {A} (e : Exn) : CM A := fun c => CRet (Thrown e, c).

Definition cbind {A B} (m : CM A) (f : A -> CM B) : CM B :=
  fun c =>
    cbindP (m c) (fun r =>
      match r with
      | (Normal a, c') => f a c'
      | (Thrown e, c') => CRet (Thrown e, c')
      end).

Definition ccall {X} (e : CamExt X) : CM X :=
  fun c => CVis e (fun x => CRet (Normal x, c)).

Definition cawait {X} (e : CamExt (Exn + X)) : CM X :=
  cbind (ccall e) (fun r =>
    match r with
    | inl ex => cthrow ex
    | inr x => cret x
    end).

Definition cupdate (f : CamState -> CamState) : CM unit :=
  fun c => CRet (Normal tt, f c).

Definition cget : CM CamState := fun c => CRet (Normal c, c).

Definition ctry_catch {A} (body : CM A) (handler : Exn -> CM A) : CM A :=
  fun c =>
    cbindP (body c) (fun r =>
      match r with
      | (Normal a, c') => CRet (Normal a, c')
      | (Thrown e, c') => handler e c'
      end).

Inductive CamEvent : Type :=
| CEv (X : Type) (e : CamExt X) (answer : X).
Arguments CEv {X} e answer.

Record CamEnv (W : Type) : Type := mkCamEnv {
  cam_answer : forall X, CamExt X -> W -> X * W
}.

Fixpoint crun {W A} (env : CamEnv W) (p : CamProg A) (w : W)
  : A * W * list CamEvent :=
  match p with
  | CRet a => (a, w, [])
  | CVis e k =>
      let (x, w') := cam_answer env e w in
      let '(a, w'', tr) := crun env (k x) w' in
      (a, w'', CEv e x :: tr)
  end.

End Camera.
Import Camera.

Declare Scope camera_scope.
Delimit Scope camera_scope with camera.
Notation "x <- c ;; k" := (cbind c (fun x => k))
  (at level 61, c at next level, right associativity) : camera_scope.
Notation "c ;;; k" := (cbind c (fun _ => k))
  (at level 61, right associativity) : camera_scope.

Module CameraHandlers.

Local Open Scope camera_scope.

(** [tracks.forEach((t) => t.stop())]. *)
Fixpoint stop_tracks (tracks : list Track) : CM unit :=
  match tracks with
  | [] => cret tt
  | t :: rest => ccall (TrackStop t) ;;; stop_tracks rest
  end.

(** [stopCamera] (lines 642-652).  The three reads of [videoRef.current]
    (lines 648-650) stand in one synchronous block, where the ref cannot
    change: they are one call. *)
Definition stopCamera : CM unit :=
  c <- cget ;;
  match stream c with
  | Some s => stop_tracks s
  | None => cret tt
  end ;;;
  cupdate (setStream None) ;;;
  cupdate (with_ui (setCameraActive false)) ;;;
  mounted <- ccall VideoRefCurrent ;;
  if mounted
  then ccall VideoPause ;;; ccall (VideoSetSrcObject None)
  else cret tt.

(** [startCamera] (lines 622-640).  The reads of [videoRef.current] of
    lines 632-634 come before the handler yields: they are one call. *)
Definition startCamera : CM unit :=
  supported <- ccall SupportsGetUserMedia ;;
  if supported then
    ctry_catch
      (s <- cawait (GetUserMedia "environment") ;;
       cupdate (setStream (Some s)) ;;;
       cupdate (with_ui (setCameraActive true)) ;;;
       mounted <- ccall VideoRefCurrent ;;
       if mounted
       then ccall (VideoSetSrcObject (Some s)) ;;; cawait VideoPlay
       else cret tt)
      (fun e =>
         ccall (CamConsoleError "Camera start failed" e) ;;;
         ccall (CamAlert "Unable to access camera."))
  else ccall (CamAlert "Camera not supported in this browser.").

(** [n || d] on a number. *)
Definition or_default (n d : N) : N := if (n =? 0)%N then d else n.

(** [String(n)] for an integer. *)
Definition decimal (z : Z) : jsstring :=
  lit (DecimalString.NilZero.string_of_int (Z.to_int z)).

(** The name of a captured file: [capture-<Date.now()>.jpg]. *)
Definition capture_name (now : Z) : jsstring :=
  lit "capture-" ++ decimal now ++ lit ".jpg".

(** [captureFromCamera] (lines 654-672).  No [try] surrounds the body: a
    rejected fetch ends the handler there.  The two reads of
    [videoRef.current] (lines 655-656) are one call; the video and the
    canvas found then are used to the end, mounted or not. *)
Definition captureFromCamera : CM unit :=
  mounted <- ccall VideoRefCurrent ;;
  if mounted then
    has_canvas <- ccall CanvasRefCurrent ;;
    (if has_canvas then cret tt else ccall CreateCanvas) ;;;
    size <- ccall VideoSize ;;
    let width := or_default (fst size) 640 in
    let height := or_default (snd size) 480 in
    ccall (CanvasResize width height) ;;;
    ctx <- ccall GetContext2d ;;
    if ctx then
      ccall (DrawImage width height) ;;;
      dataUrl <- ccall (ToDataURL "image/jpeg") ;;
      cupdate (with_ui (setImagePreview (Some dataUrl))) ;;;
      blob <- cawait (FetchBlob dataUrl) ;;
      now <- ccall DateNow ;;
      let f := mkFile (capture_name now) (lit "image/jpeg") blob in
      cupdate (with_ui (setFile (Some f))) ;;;
      cupdate (with_ui (setResult None)) ;;;
      stopCamera
    else cret tt
  else cret tt.

(** The tracks a run stopped, in order. *)
Fixpoint stopped (tr : list CamEvent) : list Track :=
  match tr with
  | [] => []
  | CEv (TrackStop t) _ :: rest => t :: stopped rest
  | _ :: rest => stopped rest
  end.

(** The alerts of a run, in order. *)
Fixpoint cam_alerts (tr : list CamEvent) : list string :=
  match tr with
  | [] => []
  | CEv (CamAlert msg) _ :: rest => msg :: cam_alerts rest
  | _ :: rest => cam_alerts rest
  end.

(** The sizes given to [drawImage], in order. *)
Fixpoint drawn (tr : list CamEvent) : list (N * N) :=
  match tr with
  | [] => []
  | CEv (DrawImage w h) _ :: rest => (w, h) :: drawn rest
  | _ :: rest => drawn rest
  end.

(** What a run does to the video element. *)
Inductive VideoCall : Type :=
| Attach (s : MediaStream)    (* srcObject = s *)
| Detach                      (* srcObject = null *)
| Play
| Pause.

(** The calls of a run on the video element, in order. *)
Fixpoint video_calls (tr : list CamEvent) : list VideoCall :=
  match tr with
  | [] => []
  | CEv (VideoSetSrcObject (Some s)) _ :: rest => Attach s :: video_calls rest
  | CEv (VideoSetSrcObject None) _ :: rest => Detach :: video_calls rest
  | CEv VideoPlay _ :: rest => Play :: video_calls rest
  | CEv VideoPause _ :: rest => Pause :: video_calls rest
  | _ :: rest => video_calls rest
  end.

(** What a run logged with [console.error], in order. *)
Fixpoint cam_logged (tr : list CamEvent) : list (string * Exn) :=
  match tr with
  | [] => []
  | CEv (CamConsoleError label e) _ :: rest => (label, e) :: cam_logged rest
  | _ :: rest => cam_logged rest
  end.

Definition cam_state_of {W A}
  (r : (Outcome A * CamState) * W * list CamEvent) : CamState :=
  snd (fst (fst r)).

Definition cam_outcome_of {W A}
  (r : (Outcome A * CamState) * W * list CamEvent) : Outcome A :=
  fst (fst (fst r)).

Definition cam_trace_of {W A} (r : A * W * list CamEvent) : list CamEvent :=
  snd r.

End CameraHandlers.
Import CameraHandlers.

(* ================================================================== *)
(** ** Further observations *)

(** No white space at either end of a string. *)
Definition clean_edges (s : jsstring) : bool :=
  match hd_error s, hd_error (rev s) with
  | Some a, Some b => negb (is_space a) && negb (is_space b)
  | _, _ => true
  end.

(** Every code unit is white space. *)
Definition all_space (s : jsstring) : bool := forallb is_space s.

(** No backtick among the code units. *)
Definition no_backtick (s : jsstring) : bool :=
  forallb (fun c => negb (c =? 96)%N) s.

(** No comma among the code units. *)
Definition no_comma (s : jsstring) : bool :=
  forallb (fun c => negb (c =? 44)%N) s.

(** The tables a run inserts into, in order. *)
Fixpoint insert_tables (tr : list Event) : list string :=
  match tr with
  | [] => []
  | Ev (SupabaseInsert table _) _ :: rest => table :: insert_tables rest
  | _ :: rest => insert_tables rest
  end.

(** The alerts of a run, in order. *)
Fixpoint alerts (tr : list Event) : list string :=
  match tr with
  | [] => []
  | Ev (Alert msg) _ :: rest => msg :: alerts rest
  | _ :: rest => alerts rest
  end.

(** The files a run reads, in order. *)
Fixpoint reads (tr : list Event) : list File :=
  match tr with
  | [] => []
  | Ev (ReadAsDataURL f) _ :: rest => f :: reads rest
  | _ :: rest => reads rest
  end.

(** The reply of the completion service has no usable name: no text, or
    only white space. *)
Definition nameless (g : GenerateContentResponse) : bool :=
  match first_text g with
  | Some t => match trim t with [] => true | _ :: _ => false end
  | None => true
  end.

(** The requests a run sends to the completion service, each with the
    answer it got, in order. *)
Fixpoint exchanges (tr : list Event)
  : list (GenerateContentRequest * (Exn + GenerateContentResponse)) :=
  match tr with
  | [] => []
  | ev :: rest =>
      match ev with
      | Ev e x =>
          match e in Ext X
                return X -> list (GenerateContentRequest
                                  * (Exn + GenerateContentResponse)) with
          | GenerateContent req => fun a => (req, a) :: exchanges rest
          | _ => fun _ => exchanges rest
          end x
      end
  end.

(** The replies of the store to the queries of a run, in order. *)
Fixpoint select_replies (tr : list Event) : list SelectReply :=
  match tr with
  | [] => []
  | ev :: rest =>
      match ev with
      | Ev e x =>
          match e in Ext X return X -> list SelectReply with
          | SupabaseSelect _ => fun a => a :: select_replies rest
          | _ => fun _ => select_replies rest
          end x
      end
  end.

(** The labels [console.error] was given in a run, in order. *)
Fixpoint logged (tr : list Event) : list (option string) :=
  match tr with
  | [] => []
  | Ev (ConsoleError label _) _ :: rest => label :: logged rest
  | _ :: rest => logged rest
  end.

Definition ALERT_ANALYSIS : string :=
  "Something went wrong. Please check your API key or try again.".

Definition ALERT_TEXT : string :=
  "Text analysis failed. Check console for details.".

(** A service that is out of reach, and a world around it. *)
Definition offline (_ : GenerateContentRequest)
  : Exn + GenerateContentResponse :=
  inl (ServiceError "fetch failed").

Definition offline_world : Store.World :=
  Store.mkWorld Scenario.three_rows 1000 4 (fun _ => inr Scenario.data_url)
    offline Scenario.accepting.

(** Three rows in the table, the banana service, and a clock ahead of every
    row. *)
Definition stocked_world : Store.World :=
  Store.mkWorld Scenario.three_rows 1000 4 (fun _ => inr Scenario.data_url)
    (Scenario.service_with Samples.banana_reply) Scenario.accepting.

(** A state with a record on display and a photo selected. *)
Definition showing_oats : State :=
  mkState (Some Scenario.meal) (Some Scenario.data_url) (lit "banana") false []
    (Some (row_to_result (Scenario.row_at 1 10))) [] false.

(** The calls that stop the tracks [s], one after the other. *)
Definition stop_events (s : list Track) : list CamEvent :=
  map (fun t => CEv (TrackStop t) tt) s.

(** The fetches of a run, each with its outcome, in order. *)
Fixpoint fetched (tr : list CamEvent) : list (jsstring * (Exn + list N)) :=
  match tr with
  | [] => []
  | ev :: rest =>
      match ev with
      | CEv e x =>
          match e in CamExt X return X -> list (jsstring * (Exn + list N)) with
          | FetchBlob url => fun a => (url, a) :: fetched rest
          | _ => fun _ => fetched rest
          end x
      end
  end.

(** The answers of the platform to the requests for a stream, in order. *)
Fixpoint acquired (tr : list CamEvent) : list (Exn + MediaStream) :=
  match tr with
  | [] => []
  | ev :: rest =>
      match ev with
      | CEv e x =>
          match e in CamExt X return X -> list (Exn + MediaStream) with
          | GetUserMedia _ => fun a => a :: acquired rest
          | _ => fun _ => acquired rest
          end x
      end
  end.

(** The sizes the canvas was given, in order. *)
Fixpoint resized (tr : list CamEvent) : list (N * N) :=
  match tr with
  | [] => []
  | CEv (CanvasResize w h) _ :: rest => (w, h) :: resized rest
  | _ :: rest => resized rest
  end.

(** The data URLs the canvas gave, in order. *)
Fixpoint encoded (tr : list CamEvent) : list jsstring :=
  match tr with
  | [] => []
  | ev :: rest =>
      match ev with
      | CEv e x =>
          match e in CamExt X return X -> list jsstring with
          | ToDataURL _ => fun a => a :: encoded rest
          | _ => fun _ => encoded rest
          end x
      end
  end.

(** The sizes the video reported, in order. *)
Fixpoint measured (tr : list CamEvent) : list (N * N) :=
  match tr with
  | [] => []
  | ev :: rest =>
      match ev with
      | CEv e x =>
          match e in CamExt X return X -> list (N * N) with
          | VideoSize => fun a => a :: measured rest
          | _ => fun _ => measured rest
          end x
      end
  end.

(** What the reads of [videoRef.current] found, in order. *)
Fixpoint video_refs (tr : list CamEvent) : list bool :=
  match tr with
  | [] => []
  | ev :: rest =>
      match ev with
      | CEv e x =>
          match e in CamExt X return X -> list bool with
          | VideoRefCurrent => fun a => a :: video_refs rest
          | _ => fun _ => video_refs rest
          end x
      end
  end.

(** How the calls of [play()] ended, in order. *)
Fixpoint plays (tr : list CamEvent) : list (Exn + unit) :=
  match tr with
  | [] => []
  | ev :: rest =>
      match ev with
      | CEv e x =>
          match e in CamExt X return X -> list (Exn + unit) with
          | VideoPlay => fun a => a :: plays rest
          | _ => fun _ => plays rest
          end x
      end
  end.

(** What [Date.now()] gave, in order. *)
Fixpoint clock_reads (tr : list CamEvent) : list Z :=
  match tr with
  | [] => []
  | ev :: rest =>
      match ev with
      | CEv e x =>
          match e in CamExt X return X -> list Z with
          | DateNow => fun a => a :: clock_reads rest
          | _ => fun _ => clock_reads rest
          end x
      end
  end.

(** A platform with fixed answers, for sample runs of the camera. *)
Record Platform : Type := mkPlatform {
  supported : bool;
  media : Exn + MediaStream;
  video_mounted : bool;
  canvas_mounted : bool;
  played : Exn + unit;
  video_size : N * N;
  context : bool;
  canvas_url : jsstring;
  blob : Exn + list N;
  clock_ms : Z
}.

Definition platform_respond (X : Type) (e : CamExt X) (p : Platform)
  : X * Platform :=
  match e in CamExt T return T * Platform with
  | SupportsGetUserMedia => (supported p, p)
  | GetUserMedia _ => (media p, p)
  | VideoRefCurrent => (video_mounted p, p)
  | CanvasRefCurrent => (canvas_mounted p, p)
  | VideoSetSrcObject _ => (tt, p)
  | VideoPlay => (played p, p)
  | VideoPause => (tt, p)
  | VideoSize => (video_size p, p)
  | TrackStop _ => (tt, p)
  | CreateCanvas => (tt, p)
  | CanvasResize _ _ => (tt, p)
  | GetContext2d => (context p, p)
  | DrawImage _ _ => (tt, p)
  | ToDataURL _ => (canvas_url p, p)
  | FetchBlob _ => (blob p, p)
  | DateNow => (clock_ms p, p)
  | CamConsoleError _ _ => (tt, p)
  | CamAlert _ => (tt, p)
  end.

Definition platform_env : CamEnv Platform := mkCamEnv platform_respond.

(** A working camera, its video mounted but without a size yet. *)
Definition studio : Platform :=
  mkPlatform true (inr [7%N; 8%N]) true true (inr tt) (0%N, 0%N) true
    (lit "data:image/jpeg;base64,QUJD") (inr [65%N; 66%N; 67%N])
    1700000000000.

(** The same, with a fetch that fails. *)
Definition broken_fetch : Platform :=
  mkPlatform true (inr [7%N; 8%N]) true true (inr tt) (1280%N, 720%N) true
    (lit "data:image/jpeg;base64,QUJD") (inl (TypeError "Failed to fetch"))
    1700000000000.

(** A working camera whose mounted video refuses to play. *)
Definition stage_fright : Platform :=
  mkPlatform true (inr [7%N; 8%N]) true true
    (inl (ServiceError "NotAllowedError")) (1280%N, 720%N) true
    (lit "data:image/jpeg;base64,QUJD") (inr [65%N; 66%N; 67%N])
    1700000000000.

(** The camera is on, with a stream of two tracks. *)
Definition filming : CamState :=
  mkCamState
    (mkState None None [] false []
       (Some (row_to_result (Scenario.row_at 1 10))) [] true)
    (Some [7%N; 8%N]).

(** The camera is on over the empty upload view: nothing selected, nothing
    on display. *)
Definition aiming : CamState :=
  mkCamState (mkState None None [] false [] None [] true)
    (Some [7%N; 8%N]).

(* ================================================================== *)
(** ** A session: the handlers of the page, one after another *)

Module Session.

(** The setter of the search box (line 755). *)
Definition setSearchText (s : jsstring) (st : State) : State :=
  mkState (file st) (imagePreview st) s (loading st) (loadingStep st)
          (result st) (history st) (cameraActive st).

(** The cells of the component when it mounts (lines 439-450). *)
Definition initial : State := mkState None None [] false [] None [] false.

(** What sets a handler, or the callback of a read, off; the camera apart.
    A file choice and the end of its read are two actions: the change event
    selects the file at once, and [onloadend] runs when the read has ended,
    after whatever was set off in between. *)
Inductive Action : Type :=
| Mount                                (* line 483: the effect runs loadHistory *)
| ChooseFile (selected : option File)  (* line 742: onChange of the file input *)
| FileLoaded (f : File)                (* lines 494-497: onloadend of the read of f *)
| TypeText (s : jsstring)              (* line 755: onChange of the search box *)
| PressStart                           (* line 803: handleAnalyze *)
| PressSearch                          (* lines 758, 760: handleTextAnalyze *)
| PressScanNext                        (* lines 945-949 *)
| OpenEntry (idx : nat).               (* line 981: the entry at [idx] of Recent Scans *)

Definition perform (a : Action) : M unit :=
  fun st =>
    match a with
    | Mount => loadHistory st
    | ChooseFile selected => beginFileSelect selected st
    | FileLoaded f => onloadend f st
    | TypeText s => update (setSearchText s) st
    | PressStart => handleAnalyze st
    | PressSearch => handleTextAnalyze st
    | PressScanNext => scanNext st
    | OpenEntry idx =>
        match nth_error (history st) idx with
        | Some item => showHistoryItem item st
        | None => ret tt st
        end
    end.

(** The actions run in turn, whether or not their controls are on screen.
    A handler with awaits of its own ([loadHistory], [handleAnalyze],
    [handleTextAnalyze]) runs to its end before the next action starts. *)
Fixpoint session {W} (env : Env W) (actions : list Action) (st : State)
  (w : W) : State * W :=
  match actions with
  | [] => (st, w)
  | a :: rest =>
      session env rest (state_of (run env (perform a st) w))
              (world_of (run env (perform a st) w))
  end.

Definition file_eqb (a b : File) : bool :=
  str_eqb (file_name a) (file_name b)
  && str_eqb (file_type a) (file_type b)
  && str_eqb (file_bytes a) (file_bytes b).

(** The reads in flight once the oldest read of [f] has ended; [None] when
    no read of [f] is in flight. *)
Fixpoint end_read (f : File) (pending : list File) : option (list File) :=
  match pending with
  | [] => None
  | g :: rest =>
      if file_eqb f g then Some rest
      else option_map (cons g) (end_read f rest)
  end.

(** Whether an action can happen in a state: its control is in the rendered
    tree (the file input and the search box sit in the upload view, lines
    724-762, the input disabled while loading; Scan Next in the result
    view, line 945; Recent Scans is always shown, lines 963-981), or, for
    the end of a read, that read is in flight. *)
Definition available (pending : list File) (a : Action) (st : State) : bool :=
  match a with
  | Mount => true
  | ChooseFile _ =>
      match result st with
      | None => negb (loading st)
      | Some _ => false
      end
  | FileLoaded f =>
      match end_read f pending with
      | Some _ => true
      | None => false
      end
  | TypeText _ =>
      match result st with
      | None => true
      | Some _ => false
      end
  | PressStart => rendered StartAnalysisButton st
  | PressSearch => rendered SearchButton st
  | PressScanNext =>
      match result st with
      | Some _ => true
      | None => false
      end
  | OpenEntry idx =>
      match nth_error (history st) idx with
      | Some _ => true
      | None => false
      end
  end.

(** The reads in flight after an action. *)
Definition reads_after (pending : list File) (a : Action) : list File :=
  match a with
  | ChooseFile (Some f) => pending ++ [f]
  | FileLoaded f =>
      match end_read f pending with
      | Some rest => rest
      | None => pending
      end
  | _ => pending
  end.

(** Every action of the list can happen when its turn comes. *)
Fixpoint playable {W} (env : Env W) (pending : list File)
  (actions : list Action) (st : State) (w : W) : bool :=
  match actions with
  | [] => true
  | a :: rest =>
      available pending a st
      && playable env (reads_after pending a) rest
           (state_of (run env (perform a st) w))
           (world_of (run env (perform a st) w))
  end.

(** What every action of a session keeps: the history holds images of rows
    only. *)
Definition session_invariant (st : State) : Prop :=
  Forall (fun item => exists r, item = row_to_result r) (history st).

(** A run of [handleAnalyze] from [st] reads the file [f] and no other, and
    the row it sends and the record it displays carry the image [img]. *)
Definition analyses {W} (env : Env W) (st : State) (w : W) (f : File)
  (img : jsstring) : Prop :=
  reads (trace_of (run env (handleAnalyze st) w)) = [f]
  /\ (forall row reply,
        In (row, reply)
           (insert_attempts (trace_of (run env (handleAnalyze st) w))) ->
        ins_image_url row = img)
  /\ (result (state_of (run env (handleAnalyze st) w)) = result st
      \/ exists rec,
           result (state_of (run env (handleAnalyze st) w)) = Some rec
           /\ imageUrl rec = Some img).

(** A grounding chunk with a web entry: what [filter(Boolean)] keeps of
    [chunks.map((c) => c.web)]. *)
Definition has_web (c : GroundingChunk) : bool :=
  match web c with
  | Some _ => true
  | None => false
  end.

(** A photo is selected and a food name is typed. *)
Definition photo_and_text : State :=
  mkState (Some Scenario.meal) (Some Scenario.data_url) (lit "banana") false []
          None [] false.

End Session.
Import Session.

(** A working camera while no video element is mounted. *)
Definition backstage : Platform :=
  mkPlatform true (inr [7%N; 8%N]) false false (inr tt) (0%N, 0%N) true
    (lit "data:image/jpeg;base64,QUJD") (inr [65%N; 66%N; 67%N])
    1700000000000.

(** The page as it mounts: the camera is off and no stream is held. *)
Definition camera_idle : CamState := mkCamState initial None.

(** A second photo, and a reader that gives each file a data URL of its
    own. *)
Definition dessert : File := mkFile (lit "dessert.png") (lit "image/png") [].

Definition album_reader (f : File) : Exn + jsstring :=
  inr (lit "data:image/png;base64," ++ file_name f).

Definition album_world : Store.World :=
  Store.mkWorld Scenario.three_rows 1000 4 album_reader
    (Scenario.service_with Samples.banana_reply) Scenario.accepting.

(** A reply with five grounding chunks, the second without a web entry. *)
Definition cite (n : string) : Source :=
  mkSource (lit "https://example.org/" ++ lit n) (lit n).

Definition grounded_reply : GenerateContentResponse :=
  mkResponse
    (Some [mkCandidate
             (Some [mkResponsePart (Some Samples.banana_reply)])
             (Some [mkChunk (Some (cite "a")); mkChunk None;
                    mkChunk (Some (cite "b")); mkChunk (Some (cite "c"));
                    mkChunk (Some (cite "d"))])]).

Definition grounded_service (req : GenerateContentRequest)
  : Exn + GenerateContentResponse :=
  match contents req with
  | PartsContents _ => inr (Scenario.reply (lit "banana"))
  | TextContents _ => inr grounded_reply
  end.

Definition grounded_world : Store.World :=
  Store.mkWorld Scenario.three_rows 1000 4 (fun _ => inr Scenario.data_url)
    grounded_service Scenario.accepting.

(* ================================================================== *)
(** ** Proof tactics *)

Ltac head_is H c :=
  let Hc := fresh "Hc" in
  apply andb_true_iff in H as [Hc H];
  apply N.eqb_eq in Hc; subst c.

(** Evaluates a prefix test as far as the known code units go. *)
Ltac eval_prefix H :=
  cbn -[N.eqb] in H;
  repeat match type of H with
         | context [N.eqb (N.pos ?a) (N.pos ?b)] =>
             let v := eval vm_compute in (N.eqb (N.pos a) (N.pos b)) in
             change (N.eqb (N.pos a) (N.pos b)) with v in H
         end;
  cbn -[N.eqb] in H.

Ltac eval_prefix_goal :=
  cbn -[N.eqb cut];
  repeat match goal with
         | |- context [N.eqb (N.pos ?a) (N.pos ?b)] =>
             let v := eval vm_compute in (N.eqb (N.pos a) (N.pos b)) in
             change (N.eqb (N.pos a) (N.pos b)) with v
         end;
  cbn -[N.eqb cut].

(** One external call of the run under study: its answer is named and, when
    it is a sum, taken apart. *)
Ltac answer_call :=
  match goal with
  | |- context [answer ?env ?e ?w] =>
      let x := fresh "x" in
      let w' := fresh "w" in
      let E := fresh "E" in
      destruct (answer env e w) as [x w'] eqn:E;
      try (destruct x)
  end.

Ltac run_cbn :=
  cbn -[analysis_prompt text_prompt parse_reply_image parse_reply_text
        trim lit split identify_request analysis_request or_else first_text
        first_chunks web_sources insert_row_of history_query row_to_result
        String.eqb].

(** Follows a handler through every answer the environment can give. *)
Ltac drive :=
  repeat (first [ progress (destruct (parse_error_logged _))
                | match goal with
                  | |- context [insert_row_of ?a ?b ?c ?d] =>
                      let R := fresh "R" in
                      destruct (insert_row_of a b c d) eqn:R
                  end
                | answer_call ];
          run_cbn).

Ltac close_insert_case :=
  match goal with
  | H : False |- _ => contradiction H
  | H : _ \/ _ |- _ => destruct H as [H|H]; close_insert_case
  | H : (_, _) = (_, _) |- _ => try discriminate H; inversion H; subst; clear H
  | _ => idtac
  end.

(** One call of a camera run: its answer is named and taken apart. *)
Ltac cam_answer_call :=
  match goal with
  | |- context [cam_answer ?env ?e ?w] =>
      let x := fresh "x" in
      let w' := fresh "w" in
      let E := fresh "E" in
      destruct (cam_answer env e w) as [x w'] eqn:E;
      try match type of x with
          | (_ + _)%type => destruct x
          | (_ * _)%type => destruct x
          | bool => destruct x
          | unit => destruct x
          end
  end.

Ltac cam_cbn :=
  cbn -[stop_tracks stopCamera stop_events capture_name lit or_default].

Ltac cam_drive := repeat (cam_answer_call; cam_cbn).

(* ================================================================== *)
(** ** Facts about the string operations *)

Section StringFacts.

Variable sep : jsstring.

Lemma starts_with_app (r : jsstring) : starts_with sep (sep ++ r) = true.
Proof.
  induction sep as [|x p IH]; simpl; [reflexivity|].
  now rewrite N.eqb_refl, IH.
Qed.

Lemma starts_with_inv (s : jsstring) :
  starts_with sep s = true -> s = sep ++ skipn (length sep) s.
Proof.
  revert s; induction sep as [|x p IH]; intros s H; simpl in *.
  - reflexivity.
  - destruct s as [|y s']; [discriminate|].
    apply andb_true_iff in H as [Hxy Hp].
    apply N.eqb_eq in Hxy; subst y.
    simpl. f_equal. now apply IH.
Qed.

Lemma cut_unfold (s : jsstring) :
  cut sep s =
  if starts_with sep s then Some ([], skipn (length sep) s)
  else match s with
       | [] => None
       | c :: s' =>
           match cut sep s' with
           | Some (b, a) => Some (c :: b, a)
           | None => None
           end
       end.
Proof. destruct s; reflexivity. Qed.

Lemma cut_None_iff (s : jsstring) :
  cut sep s = None <-> forall j, starts_with sep (skipn j s) = false.
Proof.
  induction s as [|c s' IH]; rewrite cut_unfold.
  - destruct (starts_with sep []) eqn:E; split; intro H.
    + discriminate.
    + specialize (H 0); simpl in H; congruence.
    + intro j; now rewrite skipn_nil.
    + reflexivity.
  - destruct (starts_with sep (c :: s')) eqn:E.
    + split; [discriminate|]. intro H; specialize (H 0); simpl in H; congruence.
    + destruct (cut sep s') as [[b a]|] eqn:C.
      * split; [discriminate|]. intro H.
        destruct IH as [_ IH2].
        specialize (IH2 (fun j => H (S j))). discriminate IH2.
      * split; [|reflexivity]. intros _ [|j]; [exact E|].
        simpl. now apply IH.
Qed.

Lemma cut_Some_inv (s b a : jsstring) :
  cut sep s = Some (b, a) ->
  s = b ++ sep ++ a
  /\ forall j, j < length b -> starts_with sep (skipn j s) = false.
Proof.
  revert b a; induction s as [|c s' IH]; intros b a; rewrite cut_unfold.
  - destruct (starts_with sep []) eqn:E; [|discriminate].
    intro H; inversion H; subst. split; [|simpl; lia].
    simpl. now apply starts_with_inv.
  - destruct (starts_with sep (c :: s')) eqn:E.
    + intro H; inversion H; subst. split; [|simpl; lia].
      simpl. now apply starts_with_inv.
    + destruct (cut sep s') as [[b' a']|] eqn:C; [|discriminate].
      intro H; inversion H; subst.
      destruct (IH _ _ eq_refl) as [Hs Hj]. split.
      * simpl. now f_equal.
      * intros [|j] Hlt; [exact E|]. simpl in *. apply Hj. lia.
Qed.

Lemma skipn_app_exact (b r : jsstring) : skipn (length b) (b ++ r) = r.
Proof. induction b; simpl; auto. Qed.

Lemma cut_first (b a : jsstring) :
  (forall j, j < length b -> starts_with sep (skipn j (b ++ sep ++ a)) = false) ->
  cut sep (b ++ sep ++ a) = Some (b, a).
Proof.
  induction b as [|c b' IH]; intro H.
  - simpl app. rewrite cut_unfold, starts_with_app.
    now rewrite skipn_app_exact.
  - simpl app. rewrite cut_unfold.
    assert (E : starts_with sep (c :: b' ++ sep ++ a) = false).
    { apply (H 0). simpl; lia. }
    rewrite E, IH; [reflexivity|].
    intros j Hj. apply (H (S j)). simpl; lia.
Qed.

Hypothesis sep_nonempty : sep <> [].

Lemma starts_with_nil : starts_with sep [] = false.
Proof. destruct sep; [contradiction|reflexivity]. Qed.

Lemma cut_shorter (s b a : jsstring) :
  cut sep s = Some (b, a) -> length a < length s.
Proof.
  intro H. apply cut_Some_inv in H as [-> _].
  rewrite !length_app. destruct sep; [contradiction|simpl; lia].
Qed.

Lemma split_fuel_indep (n m : nat) (s : jsstring) :
  length s <= n -> length s <= m ->
  split_fuel n sep s = split_fuel m sep s.
Proof.
  assert (N0 : cut sep [] = None)
    by (rewrite cut_unfold, starts_with_nil; reflexivity).
  revert m s; induction n as [|n IH]; intros m s Hn Hm.
  - destruct s; [|simpl in Hn; lia].
    destruct m; cbn [split_fuel]; rewrite N0; reflexivity.
  - destruct m as [|m].
    + destruct s; [|simpl in Hm; lia].
      cbn [split_fuel]; rewrite N0; reflexivity.
    + cbn [split_fuel]. destruct (cut sep s) as [[b a]|] eqn:C; [|reflexivity].
      pose proof (cut_shorter _ C). f_equal. apply IH; lia.
Qed.

(** [split] one step at a time: the piece before the first occurrence,
    then the split of what follows it. *)
Lemma split_unfold (s : jsstring) :
  split sep s =
  match cut sep s with
  | None => [s]
  | Some (b, a) => b :: split sep a
  end.
Proof.
  unfold split.
  rewrite (split_fuel_indep (n := length s) (m := S (length s))) by lia.
  cbn [split_fuel]. destruct (cut sep s) as [[b a]|] eqn:C; [|reflexivity].
  pose proof (cut_shorter _ C). f_equal. apply split_fuel_indep; lia.
Qed.

Lemma occurrences_nil_iff (k : nat) (s : jsstring) :
  occurrences_from k sep s = [] <->
  forall j, starts_with sep (skipn j s) = false.
Proof.
  revert k; induction s as [|c s' IH]; intro k; simpl.
  - rewrite starts_with_nil. simpl. split; [|reflexivity].
    intros _ j. rewrite skipn_nil. apply starts_with_nil.
  - destruct (starts_with sep (c :: s')) eqn:E; simpl.
    + split; [discriminate|]. intro H. specialize (H 0). simpl in H. congruence.
    + rewrite IH. split.
      * intros H [|j]; [exact E|apply H].
      * intros H j. apply (H (S j)).
Qed.

(** The head of the list of occurrences is the first occurrence, and the
    tail lists the occurrences after it. *)
Lemma occurrences_cons_inv (k : nat) (s : jsstring) (i : nat) (more : list nat) :
  occurrences_from k sep s = i :: more ->
  exists j,
    i = k + j
    /\ starts_with sep (skipn j s) = true
    /\ (forall j', j' < j -> starts_with sep (skipn j' s) = false)
    /\ more = occurrences_from (S i) sep (skipn (S j) s).
Proof.
  revert k; induction s as [|c s' IH]; intro k; simpl.
  - rewrite starts_with_nil. discriminate.
  - destruct (starts_with sep (c :: s')) eqn:E; simpl.
    + intro H; inversion H; subst. exists 0. repeat split.
      * lia.
      * exact E.
      * intros; lia.
    + intro H. destruct (IH _ H) as (j & -> & Hj & Hlt & Hmore).
      exists (S j). repeat split.
      * lia.
      * exact Hj.
      * intros [|j'] Hj'; [exact E|apply Hlt; lia].
      * exact Hmore.
Qed.

Lemma occurrence_in_range (j : nat) (s : jsstring) :
  starts_with sep (skipn j s) = true -> j < length s.
Proof.
  intro H. destruct (Nat.lt_ge_cases j (length s)) as [L|L]; [exact L|].
  rewrite skipn_all2 in H by exact L. rewrite starts_with_nil in H.
  discriminate.
Qed.

(** Containing the separator, as a decomposition of the text. *)
Lemma occurrences_nil_spec (s : jsstring) :
  occurrences sep s = [] <-> forall pre post, s <> pre ++ sep ++ post.
Proof.
  unfold occurrences. rewrite occurrences_nil_iff. split.
  - intros H pre post ->. specialize (H (length pre)).
    now rewrite skipn_app_exact, starts_with_app in H.
  - intros H j. destruct (starts_with sep (skipn j s)) eqn:E; [|reflexivity].
    exfalso. apply (H (firstn j s) (skipn (length sep) (skipn j s))).
    rewrite <- (starts_with_inv _ E). symmetry. apply firstn_skipn.
Qed.

Lemma cut_at_first_occurrence (s : jsstring) (i : nat) (more : list nat) :
  occurrences sep s = i :: more ->
  cut sep s = Some (firstn i s, skipn (i + length sep) s).
Proof.
  intro O. apply occurrences_cons_inv in O as (j & Hi & Hocc & Hnone & _).
  simpl in Hi; subst j.
  pose proof (occurrence_in_range _ _ Hocc) as Hlt.
  pose proof (starts_with_inv _ Hocc) as Hs.
  rewrite skipn_skipn in Hs.
  rewrite (Nat.add_comm i).
  rewrite <- (firstn_skipn i s) at 1. rewrite Hs.
  apply cut_first. intros j Hj.
  rewrite length_firstn in Hj.
  rewrite <- Hs, firstn_skipn. apply Hnone. lia.
Qed.


(** With two occurrences that do not overlap, the second piece of [split]
    is the text between them. *)
Lemma split_two_disjoint (s : jsstring) (i1 i2 : nat) (more : list nat) :
  occurrences sep s = i1 :: i2 :: more ->
  i1 + length sep <= i2 ->
  exists tail,
    split sep s =
    firstn i1 s
    :: firstn (i2 - (i1 + length sep)) (skipn (i1 + length sep) s)
    :: tail.
Proof.
  intros O Hle.
  assert (Hsep : 1 <= length sep) by (destruct sep; [contradiction|simpl; lia]).
  rewrite split_unfold, (cut_at_first_occurrence _ O).
  apply occurrences_cons_inv in O as (j & Hi & _ & _ & Hmore).
  simpl in Hi; subst j. symmetry in Hmore.
  apply occurrences_cons_inv in Hmore as (j2 & Hi2 & Hocc2 & Hnone2 & _).
  rewrite skipn_skipn in Hocc2.
  set (rest := skipn (i1 + length sep) s).
  set (d := i2 - (i1 + length sep)).
  assert (Hd : starts_with sep (skipn d rest) = true).
  { unfold rest, d. rewrite skipn_skipn.
    replace (i2 - (i1 + length sep) + (i1 + length sep)) with (j2 + S i1) by lia.
    exact Hocc2. }
  assert (Hbefore : forall j, j < d -> starts_with sep (skipn j rest) = false).
  { intros j Hj. unfold rest. rewrite skipn_skipn.
    specialize (Hnone2 (j + length sep - 1)).
    rewrite skipn_skipn in Hnone2.
    replace (j + length sep - 1 + S i1) with (j + (i1 + length sep)) in Hnone2
      by lia.
    apply Hnone2. unfold d in Hj. lia. }
  pose proof (occurrence_in_range _ _ Hd) as Hlt.
  pose proof (starts_with_inv _ Hd) as Hs.
  rewrite split_unfold.
  remember (skipn (length sep) (skipn d rest)) as after eqn:Ha.
  assert (C : cut sep rest = Some (firstn d rest, after)).
  { rewrite <- (firstn_skipn d rest) at 1. rewrite Hs.
    apply cut_first. intros j Hj. rewrite length_firstn in Hj.
    rewrite <- Hs, firstn_skipn. apply Hbefore. lia. }
  rewrite C. eexists. reflexivity.
Qed.

End StringFacts.

(* ================================================================== *)
(** ** The parse step *)

Lemma SENTINEL_nonempty : SENTINEL <> [].
Proof. discriminate. Qed.

Lemma parse_reply_image_unfold (fullText : jsstring) :
  parse_reply_image fullText =
  match split SENTINEL fullText with
  | piece0 :: piece1 :: _ =>
      match parse_macro_block piece1 with
      | Some v => mkParsed (trim piece0) v false
      | None =>
          mkParsed (trim piece0)
            match match_calories fullText with
            | Some d => set_prop K_CALORIES (parseInt d) zero_macros
            | None => zero_macros
            end true
      end
  | _ => mkParsed fullText zero_macros false
  end.
Proof. reflexivity. Qed.

Lemma parse_reply_text_unfold (fullText : jsstring) :
  parse_reply_text fullText =
  match split SENTINEL fullText with
  | piece0 :: piece1 :: _ =>
      match parse_macro_block piece1 with
      | Some v => mkParsed (trim piece0) v false
      | None => mkParsed (trim piece0) zero_macros true
      end
  | _ => mkParsed fullText zero_macros false
  end.
Proof. reflexivity. Qed.

Lemma split_without_sentinel (fullText : jsstring) :
  occurrences SENTINEL fullText = [] -> split SENTINEL fullText = [fullText].
Proof.
  intro O. unfold occurrences in O.
  rewrite (occurrences_nil_iff SENTINEL_nonempty) in O.
  rewrite (split_unfold SENTINEL_nonempty).
  apply cut_None_iff in O. now rewrite O.
Qed.

(** C3.  A reply that does not contain the marker is kept whole, untrimmed,
    as the summary, and the four macros are 0; this holds for the parse step
    of [handleAnalyze] and for that of [handleTextAnalyze]. *)
Theorem missing_sentinel_keeps_raw_text (fullText : jsstring) :
  occurrences SENTINEL fullText = [] ->
  parse_reply_image fullText = mkParsed fullText zero_macros false
  /\ parse_reply_text fullText = mkParsed fullText zero_macros false.
Proof.
  intro O. apply split_without_sentinel in O.
  rewrite parse_reply_image_unfold, parse_reply_text_unfold, O.
  split; reflexivity.
Qed.

Lemma missing_sentinel_witness :
  occurrences SENTINEL Samples.plain_reply = []
  /\ parse_reply_image Samples.plain_reply
     = mkParsed Samples.plain_reply zero_macros false
  /\ parse_reply_text Samples.plain_reply
     = mkParsed Samples.plain_reply zero_macros false.
Proof.
  split; [reflexivity|].
  apply (missing_sentinel_keeps_raw_text Samples.plain_reply). reflexivity.
Defined.

(** A fenced block: both fence marks are dropped before the block is read. *)
Example fenced_block :
  parse_reply_image Samples.fenced_reply
  = mkParsed (lit "Plain oats.") Samples.twice_macros false.
Proof. vm_compute. reflexivity. Qed.

(** The calorie pattern: the label in any case, an optional colon, optional
    white space, then digits; the leftmost match wins, and a label followed
    by anything else is passed over. *)
Example calorie_pattern :
  match_calories (lit "about 90 kcal; CALORIES:  007 or Calories: 12")
  = Some (lit "007")
  /\ match_calories (lit "Calories (kcal): 105") = None
  /\ match_calories (lit "calories are listed below. Calories 52") 
     = Some (lit "52")
  /\ parseInt (lit "007") = num 7.
Proof. vm_compute. repeat split. Qed.

(** *** Blocks that cannot parse *)

Lemma trim_start_app_keep (l r : jsstring) :
  trim_start l <> [] -> trim_start (l ++ r) = trim_start l ++ r.
Proof.
  induction l as [|a l IH]; simpl; intro H; [contradiction|].
  destruct (is_space a); [now apply IH|reflexivity].
Qed.

Lemma trim_end_cons (c : N) (y : jsstring) :
  trim_end y <> [] -> trim_end (c :: y) = c :: trim_end y.
Proof.
  unfold trim_end. intro H. simpl rev.
  rewrite trim_start_app_keep.
  - now rewrite rev_app_distr.
  - intro E. apply H. now rewrite E.
Qed.

Lemma trim_end_single (c : N) (y : jsstring) :
  is_space c = false -> exists z, trim_end (c :: y) = c :: z.
Proof.
  intro Hc. unfold trim_end. simpl rev.
  assert (X : exists w, trim_start (rev y ++ [c]) = w ++ [c]).
  { induction (rev y) as [|a l IH]; simpl.
    - rewrite Hc. now exists [].
    - destruct (is_space a); [exact IH|]. now exists (a :: l). }
  destruct X as [w ->]. rewrite rev_app_distr. now exists (rev w).
Qed.

Lemma trim_keeps_head (c : N) (y : jsstring) :
  is_space c = false -> exists z, trim (c :: y) = c :: z.
Proof.
  intro Hc. unfold trim. simpl trim_start. rewrite Hc.
  now apply (@trim_end_single c).
Qed.

Lemma trim_keeps_two (c d : N) (y : jsstring) :
  is_space c = false -> is_space d = false ->
  exists z, trim (c :: d :: y) = c :: d :: z.
Proof.
  intros Hc Hd. unfold trim. simpl trim_start. rewrite Hc.
  destruct (@trim_end_single d y Hd) as [z Hz].
  exists z. rewrite trim_end_cons; rewrite Hz; [reflexivity|discriminate].
Qed.

Lemma JSON_parse_of_outcome (s : jsstring) :
  (forall fuel, parse_value fuel s = PSyntaxError
                \/ parse_value fuel s = POutOfFuel) ->
  JSON_parse s = None.
Proof.
  intro H. unfold JSON_parse. now destruct (H (fuel_for s)) as [-> | ->].
Qed.

(** A block that begins with a letter [J] is not JSON. *)
Lemma block_J (x : jsstring) : parse_macro_block (74%N :: x) = None.
Proof.
  unfold parse_macro_block, strip_fences.
  change (strip_fences_from 0 (74%N :: x))
    with (74%N :: strip_fences_from 0 x).
  destruct (@trim_keeps_head 74%N (strip_fences_from 0 x) eq_refl) as [z ->].
  apply JSON_parse_of_outcome. intros [|fuel]; [now right|now left].
Qed.

(** A block that begins with a dash and a letter [J] is not JSON. *)
Lemma block_dash_J (x : jsstring) :
  parse_macro_block (45%N :: 74%N :: x) = None.
Proof.
  unfold parse_macro_block, strip_fences.
  change (strip_fences_from 0 (45%N :: 74%N :: x))
    with (45%N :: 74%N :: strip_fences_from 0 x).
  destruct (@trim_keeps_two 45%N 74%N (strip_fences_from 0 x) eq_refl eq_refl)
    as [z ->].
  apply JSON_parse_of_outcome. intros [|fuel]; [now right|now left].
Qed.

(** A block that begins with two dashes is not JSON. *)
Lemma block_dash_dash (y : jsstring) :
  parse_macro_block (45%N :: 45%N :: y) = None.
Proof.
  unfold parse_macro_block, strip_fences.
  assert (E : exists y', strip_fences_from 0 (45%N :: 45%N :: y)
                         = 45%N :: 45%N :: y').
  { eexists. cbn [strip_fences_from]. reflexivity. }
  destruct E as [y' ->].
  destruct (@trim_keeps_two 45%N 45%N y' eq_refl eq_refl) as [z ->].
  apply JSON_parse_of_outcome. intros [|fuel]; [now right|now left].
Qed.

(** *** The marker more than once *)

(** When the second occurrence overlaps the first, the second piece starts
    with what is left of the marker, and is not JSON. *)
Lemma overlapping_second_piece (s : jsstring) (i1 i2 : nat) (more : list nat) :
  occurrences SENTINEL s = i1 :: i2 :: more ->
  i2 < i1 + length SENTINEL ->
  exists piece1 tail,
    split SENTINEL s = firstn i1 s :: piece1 :: tail
    /\ parse_macro_block piece1 = None.
Proof.
  intros O Hlt.
  rewrite (split_unfold SENTINEL_nonempty),
    (cut_at_first_occurrence SENTINEL_nonempty _ O).
  apply (occurrences_cons_inv SENTINEL_nonempty) in O
    as (j & Hi & Hocc1 & _ & Hmore).
  simpl in Hi; subst j. symmetry in Hmore.
  apply (occurrences_cons_inv SENTINEL_nonempty) in Hmore
    as (j2 & Hi2 & Hocc2 & _ & _).
  apply starts_with_inv in Hocc1. rewrite skipn_skipn in Hocc1.
  rewrite (Nat.add_comm (length SENTINEL)) in Hocc1.
  remember (skipn (i1 + length SENTINEL) s) as r1 eqn:Hr1.
  replace (skipn j2 (skipn (S i1) s)) with (skipn (S j2) (SENTINEL ++ r1))
    in Hocc2
    by (rewrite <- Hocc1, !skipn_skipn; f_equal; lia).
  change (length SENTINEL) with 10 in Hlt.
  rewrite (split_unfold SENTINEL_nonempty).
  destruct j2 as [|[|[|[|[|[|[|[|[|j2]]]]]]]]]; try lia;
    try (eval_prefix Hocc2; discriminate Hocc2).
  - (* the second occurrence starts 7 code units after the first *)
    destruct r1 as [|c r1]; eval_prefix Hocc2; [discriminate Hocc2|].
    head_is Hocc2 c.
    rewrite cut_unfold. eval_prefix_goal.
    destruct (cut SENTINEL r1) as [[b a]|];
      do 2 eexists; (split; [reflexivity|apply block_J]).
  - (* 8 code units after *)
    destruct r1 as [|c [|c2 r1]]; eval_prefix Hocc2; try discriminate Hocc2.
    + apply andb_true_iff in Hocc2 as [_ Hocc2]. discriminate Hocc2.
    + head_is Hocc2 c. head_is Hocc2 c2.
      rewrite cut_unfold. eval_prefix_goal.
      rewrite cut_unfold. eval_prefix_goal.
      destruct (cut SENTINEL r1) as [[b a]|];
        do 2 eexists; (split; [reflexivity|apply block_dash_J]).
  - (* 9 code units after *)
    destruct r1 as [|c [|c2 r1]]; eval_prefix Hocc2; try discriminate Hocc2.
    + apply andb_true_iff in Hocc2 as [_ Hocc2]. discriminate Hocc2.
    + head_is Hocc2 c. head_is Hocc2 c2.
      rewrite cut_unfold. eval_prefix_goal.
      destruct r1 as [|c3 r1]; [discriminate Hocc2|].
      head_is Hocc2 c3.
      rewrite cut_unfold. eval_prefix_goal.
      destruct (cut SENTINEL (74%N :: r1)) as [[b a]|];
        do 2 eexists; (split; [reflexivity|apply block_dash_dash]).
Qed.

(** The second piece of [split], in both cases: it parses as the text
    between the first two occurrences does (that text is empty when they
    overlap). *)
Lemma second_piece (s : jsstring) (i1 i2 : nat) (more : list nat) :
  occurrences SENTINEL s = i1 :: i2 :: more ->
  exists piece1 tail,
    split SENTINEL s = firstn i1 s :: piece1 :: tail
    /\ parse_macro_block piece1
       = parse_macro_block (skipn (i1 + length SENTINEL) (firstn i2 s)).
Proof.
  intro O. destruct (le_lt_dec (i1 + length SENTINEL) i2) as [Hle|Hlt].
  - destruct (split_two_disjoint SENTINEL_nonempty _ O Hle) as [tail ->].
    do 2 eexists. split; [reflexivity|].
    now rewrite skipn_firstn_comm.
  - destruct (overlapping_second_piece _ O Hlt) as (piece1 & tail & -> & Hp).
    do 2 eexists. split; [reflexivity|].
    rewrite Hp, skipn_all2; [reflexivity|].
    pose proof (firstn_le_length i2 s). lia.
Qed.

(** *** When the block does not parse *)

Lemma recovered_calories (d : jsstring) :
  set_prop K_CALORIES (parseInt d) zero_macros
  = macros_object (parseInt d) (num 0) (num 0) (num 0).
Proof. reflexivity. Qed.

Lemma recovered_macros_nonneg (d : jsstring) :
  nonneg_macros (set_prop K_CALORIES (parseInt d) zero_macros) = true.
Proof.
  rewrite recovered_calories. unfold nonneg_macros, field_is.
  cbn. rewrite !andb_true_r. apply Z.leb_le. apply N2Z.is_nonneg.
Qed.

(** The fallback of [handleAnalyze]: the marker is there, the block does not
    parse; the error is logged, the calorie count is what the calorie
    pattern captures in the whole reply, the other macros stay 0. *)
Lemma image_fallback (fullText piece0 piece1 : jsstring) (tail : list jsstring) :
  split SENTINEL fullText = piece0 :: piece1 :: tail ->
  parse_macro_block piece1 = None ->
  parse_reply_image fullText
  = mkParsed (trim piece0)
      match match_calories fullText with
      | Some d => macros_object (parseInt d) (num 0) (num 0) (num 0)
      | None => zero_macros
      end true.
Proof.
  intros Hs Hp. rewrite parse_reply_image_unfold, Hs. cbv beta iota.
  rewrite Hp. now destruct (match_calories fullText).
Qed.

(** The same situation in [handleTextAnalyze]: the error is logged and the
    macros stay 0, whatever the reply says about calories. *)
Lemma text_fallback (fullText piece0 piece1 : jsstring) (tail : list jsstring) :
  split SENTINEL fullText = piece0 :: piece1 :: tail ->
  parse_macro_block piece1 = None ->
  parse_reply_text fullText = mkParsed (trim piece0) zero_macros true.
Proof.
  intros Hs Hp. rewrite parse_reply_text_unfold, Hs. cbv beta iota.
  now rewrite Hp.
Qed.

(** C2.  On the reply [Calories: 105 ---JSON--- oops] the block after the
    marker does not parse and the calorie pattern captures 105.  The parse
    step of [handleAnalyze] recovers calories 105; the parse step of
    [handleTextAnalyze] has no such scan and leaves calories at 0.  Both
    handlers go on to display their record, without an alert. *)
Theorem text_path_skips_calorie_scan :
  structured_macros Samples.label_reply = None
  /\ match_calories Samples.label_reply = Some (lit "105")
  /\ parse_reply_image Samples.label_reply
     = mkParsed (lit "Calories: 105")
         (macros_object (num 105) (num 0) (num 0) (num 0)) true
  /\ parse_reply_text Samples.label_reply
     = mkParsed (lit "Calories: 105") zero_macros true
  /\ option_map macros
       (result (state_of (run Store.env (handleAnalyze Scenario.photo_ready)
                            Scenario.label_world)))
     = Some (macros_object (num 105) (num 0) (num 0) (num 0))
  /\ option_map macros
       (result (state_of (run Store.env (handleTextAnalyze Scenario.text_ready)
                            Scenario.label_world)))
     = Some zero_macros
  /\ existsb is_alert
       (trace_of (run Store.env (handleAnalyze Scenario.photo_ready)
                    Scenario.label_world)) = false
  /\ existsb is_alert
       (trace_of (run Store.env (handleTextAnalyze Scenario.text_ready)
                    Scenario.label_world)) = false.
Proof. vm_compute. repeat split. Qed.

(** C4, as stated, fails: a well-formed block with a negative calorie count
    is taken as it is, by both handlers. *)
Lemma negative_calories_accepted :
  get_prop K_CALORIES (parsed_macros (parse_reply_image Samples.negative_reply))
  = Some (num (-5))
  /\ nonneg_macros (parsed_macros (parse_reply_image Samples.negative_reply))
     = false
  /\ nonneg_macros (parsed_macros (parse_reply_text Samples.negative_reply))
     = false.
Proof. vm_compute. repeat split. Qed.

(** C4, amended.  When the macros do not come from a successful structured
    parse (marker missing, or block not parsable), each of the four macro
    fields is a non-negative number; when the structured parse succeeds, the
    macro object is the parsed value itself, unchecked. *)
Theorem macros_nonneg_unless_structured (fullText : jsstring) :
  match structured_macros fullText with
  | None =>
      nonneg_macros (parsed_macros (parse_reply_image fullText)) = true
      /\ nonneg_macros (parsed_macros (parse_reply_text fullText)) = true
  | Some v =>
      parsed_macros (parse_reply_image fullText) = v
      /\ parsed_macros (parse_reply_text fullText) = v
  end.
Proof.
  unfold structured_macros.
  rewrite parse_reply_image_unfold, parse_reply_text_unfold.
  destruct (split SENTINEL fullText) as [|piece0 [|piece1 tail]];
    try (split; reflexivity).
  destruct (parse_macro_block piece1) as [v|]; [split; reflexivity|].
  split; [|reflexivity]. cbn [parsed_macros].
  destruct (match_calories fullText) as [d|]; [|reflexivity].
  apply recovered_macros_nonneg.
Qed.

(* ================================================================== *)
(** ** Runs of the handlers *)

(** C5.  A text analysis never reaches the persist stage: whatever the
    environment answers, a run of [handleTextAnalyze] contains no insert into
    the store and no reload of the history. *)
Theorem text_analysis_never_persists (W : Type) (env : Env W) (w : W)
  (st : State) :
  existsb is_insert (trace_of (run env (handleTextAnalyze st) w)) = false
  /\ existsb is_select (trace_of (run env (handleTextAnalyze st) w)) = false.
Proof.
  unfold handleTextAnalyze, text_analyze_body, trace_of.
  run_cbn. destruct (trim (searchText st)) as [|c r]; run_cbn; [now split|].
  answer_call; run_cbn.
  - repeat (answer_call; run_cbn). now split.
  - destruct (parse_error_logged _); run_cbn;
      repeat (answer_call; run_cbn); now split.
Qed.

Lemma insert_row_of_shows (foodName summary0 preview : jsstring) (m : JsValue)
  (row : InsertRow) :
  insert_row_of foodName summary0 preview m = Some row ->
  forall i t cites,
    shows (mkAnalysisResult i foodName summary0 m (Some preview) t cites) row.
Proof.
  unfold insert_row_of, shows. intros H i t cites.
  destruct (get_prop K_CALORIES m) eqn:E1; [|discriminate H].
  destruct (get_prop K_PROTEIN m) eqn:E2; [|discriminate H].
  destruct (get_prop K_FAT m) eqn:E3; [|discriminate H].
  destruct (get_prop K_CARBS m) eqn:E4; [|discriminate H].
  inversion H; subst. cbn. repeat split; assumption.
Qed.




(** *** The loading flag *)

(** C9, as stated, fails: with [loading] true, the search control is still
    rendered and its handler sends a request to the completion service; and
    [handleAnalyze], invoked with [loading] true, sends its two requests. *)
Lemma busy_trigger_still_calls_service :
  loading Scenario.busy_with_text = true
  /\ rendered SearchButton Scenario.busy_with_text = true
  /\ requests (trace_of (run Store.env
                           (on_trigger SearchButton Scenario.busy_with_text)
                           (Scenario.world Scenario.accepting)))
     = [analysis_request (text_prompt (lit "banana"))]
  /\ loading Scenario.busy_with_photo = true
  /\ length (requests (trace_of (run Store.env
                                   (handleAnalyze Scenario.busy_with_photo)
                                   (Scenario.world Scenario.accepting))))
     = 2.
Proof. vm_compute. repeat split. Qed.

(** C9, amended.  The guard against a second analysis is in the view:
    while [loading] is true the Start Analysis control is not rendered.  The
    handlers do not read the flag: a run goes the same way whatever [loading]
    is; [handleAnalyze] returns without any external call when no file or no
    preview is selected, [handleTextAnalyze] when the search text is blank;
    with a non-blank search text [handleTextAnalyze] sends its request, and
    with a file and a preview [handleAnalyze] starts reading the file. *)
Theorem loading_gate_is_in_the_view (W : Type) (env : Env W) (w : W)
  (st : State) :
  (loading st = true -> rendered StartAnalysisButton st = false)
  /\ (forall b,
        trace_of (run env (handleAnalyze (setLoading b st)) w)
        = trace_of (run env (handleAnalyze st) w)
        /\ trace_of (run env (handleTextAnalyze (setLoading b st)) w)
           = trace_of (run env (handleTextAnalyze st) w))
  /\ (file st = None \/ truthy (imagePreview st) = false ->
      run env (handleAnalyze st) w = (Normal tt, st, w, []))
  /\ (trim (searchText st) = [] ->
      run env (handleTextAnalyze st) w = (Normal tt, st, w, []))
  /\ (trim (searchText st) <> [] ->
      requests (trace_of (run env (handleTextAnalyze st) w))
      = [analysis_request (text_prompt (trim (searchText st)))])
  /\ (forall f, file st = Some f -> truthy (imagePreview st) = true ->
      exists reply rest,
        trace_of (run env (handleAnalyze st) w)
        = Ev (ReadAsDataURL f) reply :: rest).
Proof.
  split; [|split; [|split; [|split; [|split]]]].
  - unfold rendered. intros ->. now destruct (result st).
  - intro b. split.
    + unfold handleAnalyze. run_cbn.
      destruct (file st); [|reflexivity].
      destruct (imagePreview st) as [[|c p]|]; reflexivity.
    + unfold handleTextAnalyze. run_cbn.
      destruct (trim (searchText st)); reflexivity.
  - unfold handleAnalyze, truthy. run_cbn. intros [-> | H]; [reflexivity|].
    destruct (file st); [|reflexivity].
    destruct (imagePreview st) as [[|c p]|]; try reflexivity. discriminate H.
  - unfold handleTextAnalyze. run_cbn. now intros ->.
  - unfold handleTextAnalyze, text_analyze_body, trace_of. run_cbn.
    destruct (trim (searchText st)) as [|c r] eqn:T; [now intros []|].
    intros _. run_cbn. drive; reflexivity.
  - unfold handleAnalyze, analyze_body, fileToGenerativePart, loadHistory,
      insert_row, trace_of, truthy.
    run_cbn. intros f -> H.
    destruct (imagePreview st) as [[|c p]|]; try discriminate H.
    run_cbn. drive; do 2 eexists; reflexivity.
Qed.

Lemma loading_gate_witness :
  rendered StartAnalysisButton Scenario.busy_with_photo = false
  /\ run Store.env (handleAnalyze Scenario.busy_with_text)
       (Scenario.world Scenario.accepting)
     = (Normal tt, Scenario.busy_with_text,
        Scenario.world Scenario.accepting, [])
  /\ requests (trace_of (run Store.env (handleTextAnalyze Scenario.busy_with_text)
                           (Scenario.world Scenario.accepting)))
     = [analysis_request (text_prompt (trim (lit "banana")))].
Proof.
  pose proof (loading_gate_is_in_the_view Store.env
                (Scenario.world Scenario.accepting) Scenario.busy_with_photo)
    as [Gate _].
  pose proof (loading_gate_is_in_the_view Store.env
                (Scenario.world Scenario.accepting) Scenario.busy_with_text)
    as (_ & _ & NoFile & _ & Sends & _).
  split; [apply Gate; reflexivity|].
  split; [apply NoFile; left; reflexivity|].
  apply Sends. vm_compute. discriminate.
Defined.

(* ================================================================== *)
(** ** The history *)

Lemma place_In (r x : Row) (l : list Row) :
  In x (Store.place false r l) <-> x = r \/ In x l.
Proof.
  induction l as [|y l IH]; cbn [Store.place In].
  - intuition.
  - destruct (Store.before false r y); cbn [In]; [intuition|].
    rewrite IH. intuition.
Qed.

Lemma place_sorted (r : Row) (l : list Row) :
  StronglySorted newer_eq l -> StronglySorted newer_eq (Store.place false r l).
Proof.
  induction 1 as [|y l Hs IH Hall]; cbn [Store.place].
  - repeat constructor.
  - destruct (Store.before false r y) eqn:B; unfold Store.before in B.
    + apply Z.leb_le in B. constructor; [now constructor|].
      constructor; [exact B|].
      rewrite Forall_forall in *. intros z Hz.
      specialize (Hall z Hz). unfold newer_eq in *. lia.
    + apply Z.leb_gt in B. constructor; [exact IH|].
      rewrite Forall_forall in *. intros z Hz.
      apply place_In in Hz as [->|Hz]; [|now apply Hall].
      unfold newer_eq. lia.
Qed.

Lemma order_sorted (tbl : Store.Table) :
  StronglySorted newer_eq (Store.order_by_created_at false tbl).
Proof.
  induction tbl as [|r tbl IH]; simpl; [constructor|].
  now apply place_sorted.
Qed.

Lemma place_perm (r : Row) (l : list Row) :
  Permutation (Store.place false r l) (r :: l).
Proof.
  induction l as [|y l IH]; cbn [Store.place]; [reflexivity|].
  destruct (Store.before false r y); [reflexivity|].
  rewrite IH. apply perm_swap.
Qed.

Lemma order_perm (tbl : Store.Table) :
  Permutation (Store.order_by_created_at false tbl) tbl.
Proof.
  induction tbl as [|r tbl IH]; simpl; [reflexivity|].
  rewrite place_perm. now constructor.
Qed.

Lemma sorted_firstn (R : Row -> Row -> Prop) (n : nat) (l : list Row) :
  StronglySorted R l -> StronglySorted R (firstn n l).
Proof.
  intro H. revert n. induction H as [|y l Hs IH Hall]; intros [|n]; simpl;
    try constructor.
  - apply IH.
  - rewrite Forall_forall in *. intros z Hz. apply Hall.
    rewrite <- (firstn_skipn n l). apply in_or_app. now left.
Qed.

(** Without two rows of the same instant, the order is strict. *)
Lemma sorted_strict (l : list Row) :
  StronglySorted newer_eq l -> NoDup (map row_created_at l) ->
  StronglySorted newer l.
Proof.
  induction 1 as [|y l Hs IH Hall]; intro N; [constructor|].
  simpl in N. inversion N as [|? ? Hnotin N']; subst.
  constructor; [now apply IH|].
  rewrite Forall_forall in *. intros z Hz. specialize (Hall z Hz).
  unfold newer, newer_eq in *.
  assert (row_created_at z <> row_created_at y).
  { intro E. apply Hnotin. rewrite <- E. now apply in_map. }
  lia.
Qed.

Lemma sorted_map_result (R : Z -> Z -> Prop) (l : list Row) :
  StronglySorted (fun a b => R (row_created_at a) (row_created_at b)) l ->
  StronglySorted (fun a b => R (created a) (created b)) (map row_to_result l).
Proof.
  induction 1 as [|y l Hs IH Hall]; simpl; constructor; [exact IH|].
  rewrite Forall_forall in *. intros z Hz.
  apply in_map_iff in Hz as (x & <- & Hx). now apply Hall.
Qed.

(** A row newer than all the others comes first. *)
Lemma newest_first (x : Row) (tbl : Store.Table) :
  (forall r, In r tbl -> (row_created_at r < row_created_at x)%Z) ->
  Store.order_by_created_at false (tbl ++ [x])
  = x :: Store.order_by_created_at false tbl.
Proof.
  unfold Store.order_by_created_at. rewrite fold_right_app. simpl.
  induction tbl as [|a tbl IH]; intro H; simpl; [reflexivity|].
  rewrite IH by (intros r Hr; apply H; now right).
  cbn [Store.place]. unfold Store.before.
  assert (L : (row_created_at a < row_created_at x)%Z)
    by (apply H; now left).
  apply Z.leb_gt in L. now rewrite L.
Qed.

Lemma loadHistory_run (w : Store.World) (st : State) :
  run Store.env (loadHistory st) w
  = (Normal tt,
     setHistory (map row_to_result
                   (Store.select history_query (Store.table w))) st,
     w,
     [Ev (SupabaseSelect history_query)
         (SelectData (Store.select history_query (Store.table w)))]).
Proof. reflexivity. Qed.

(** C7.  [loadHistory] sends one query: the [history] table ordered by
    [created_at], descending, limit 20, whatever the environment.  Against a
    store that answers the query as asked, the history it sets has at most 20
    records, newest first (creation times never increase along the list), and
    strictly decreasing creation times when no two rows of the table were
    created at the same instant. *)
Theorem history_is_bounded_and_recent_first (w : Store.World) (st : State) :
  (forall (W : Type) (env : Env W) (w' : W),
      queries (trace_of (run env (loadHistory st) w')) = [history_query])
  /\ q_limit history_query = 20
  /\ q_order history_query = "created_at"%string
  /\ q_ascending history_query = false
  /\ length (history (state_of (run Store.env (loadHistory st) w))) <= 20
  /\ StronglySorted (fun a b => (created b <= created a)%Z)
       (history (state_of (run Store.env (loadHistory st) w)))
  /\ (NoDup (map row_created_at (Store.table w)) ->
      StronglySorted (fun a b => (created b < created a)%Z)
        (history (state_of (run Store.env (loadHistory st) w)))).
Proof.
  split; [|split; [|split; [|split; [|split; [|split]]]]]; try reflexivity.
  - intros W env w'. unfold loadHistory, trace_of. run_cbn. drive; reflexivity.
  - rewrite loadHistory_run. unfold state_of. cbn [fst snd history setHistory].
    rewrite length_map. unfold Store.select.
    apply firstn_le_length.
  - rewrite loadHistory_run. unfold state_of. cbn [fst snd history setHistory].
    apply (sorted_map_result (fun a b => (b <= a)%Z)).
    unfold Store.select. apply sorted_firstn. apply order_sorted.
  - intro N. rewrite loadHistory_run. unfold state_of.
    cbn [fst snd history setHistory].
    apply (sorted_map_result (fun a b => (b < a)%Z)).
    unfold Store.select. apply sorted_firstn.
    apply sorted_strict; [apply order_sorted|].
    eapply Permutation_NoDup; [|exact N].
    apply Permutation_map. symmetry. apply order_perm.
Qed.

Lemma history_witness :
  map created
    (history (state_of (run Store.env (loadHistory Scenario.text_ready)
                          (Store.mkWorld Scenario.three_rows 1000 4
                             (fun _ => inr Scenario.data_url)
                             (Scenario.service_with Samples.banana_reply)
                             Scenario.accepting))))
  = [30; 20; 10]%Z
  /\ StronglySorted (fun a b => (created b < created a)%Z)
       (history (state_of (run Store.env (loadHistory Scenario.text_ready)
                             (Store.mkWorld Scenario.three_rows 1000 4
                                (fun _ => inr Scenario.data_url)
                                (Scenario.service_with Samples.banana_reply)
                                Scenario.accepting)))).
Proof.
  split; [reflexivity|].
  apply (history_is_bounded_and_recent_first
           (Store.mkWorld Scenario.three_rows 1000 4
              (fun _ => inr Scenario.data_url)
              (Scenario.service_with Samples.banana_reply)
              Scenario.accepting) Scenario.text_ready).
  cbn. repeat constructor; cbn; intuition discriminate.
Defined.

(** *** Round trip through the store *)

Lemma column_defined (v : JsValue) : v <> JUndefined -> Store.column v = v.
Proof. destruct v; intro H; [contradiction|reflexivity..]. Qed.

(** The mapping of [loadHistory] undoes the row literal of [handleAnalyze]. *)
Lemma row_to_result_stored (foodName summary0 preview : jsstring)
  (macros0 : JsValue) (row : InsertRow) (new_id : JsValue) (now : Z) :
  insert_row_of foodName summary0 preview macros0 = Some row ->
  ins_calories row <> JUndefined -> ins_protein row <> JUndefined ->
  ins_fat row <> JUndefined -> ins_carbs row <> JUndefined ->
  name (row_to_result (Store.stored row new_id now)) = foodName
  /\ summary (row_to_result (Store.stored row new_id now)) = summary0
  /\ imageUrl (row_to_result (Store.stored row new_id now)) = Some preview
  /\ same_macros (macros (row_to_result (Store.stored row new_id now))) macros0.
Proof.
  unfold insert_row_of. intros H Dc Dp Df Db.
  destruct (get_prop K_CALORIES macros0) eqn:E1; [|discriminate H].
  destruct (get_prop K_PROTEIN macros0) eqn:E2; [|discriminate H].
  destruct (get_prop K_FAT macros0) eqn:E3; [|discriminate H].
  destruct (get_prop K_CARBS macros0) eqn:E4; [|discriminate H].
  inversion H; subst; clear H. cbn in Dc, Dp, Df, Db.
  unfold row_to_result, Store.stored, same_macros.
  cbn [name summary imageUrl macros row_name row_summary row_image_url
       row_calories row_protein row_fat row_carbs ins_name ins_summary
       ins_image_url ins_calories ins_protein ins_fat ins_carbs].
  rewrite !column_defined by assumption.
  rewrite E1, E2, E3, E4.
  repeat split.
Qed.

Lemma typed_macros_row (foodName summary0 preview : jsstring)
  (macros0 : JsValue) :
  typed_macros macros0 = true ->
  exists row,
    insert_row_of foodName summary0 preview macros0 = Some row
    /\ ins_calories row <> JUndefined /\ ins_protein row <> JUndefined
    /\ ins_fat row <> JUndefined /\ ins_carbs row <> JUndefined.
Proof.
  unfold typed_macros, field_is, insert_row_of. intro T.
  apply andb_true_iff in T as [T Tb]. apply andb_true_iff in T as [T Tf].
  apply andb_true_iff in T as [Tc Tp].
  destruct (get_prop K_CALORIES macros0) as [[]|]; try discriminate Tc.
  destruct (get_prop K_PROTEIN macros0) as [[]|]; try discriminate Tp.
  destruct (get_prop K_FAT macros0) as [[]|]; try discriminate Tf.
  destruct (get_prop K_CARBS macros0) as [[]|]; try discriminate Tb.
  eexists. split; [reflexivity|]. cbn. repeat split; discriminate.
Qed.

Lemma finite_is_number (v : JsValue) :
  finite_number v = true -> is_number v = true.
Proof. destruct v; simpl; intro H; try discriminate H; reflexivity. Qed.

Lemma finite_macros_typed (v : JsValue) :
  finite_macros v = true -> typed_macros v = true.
Proof.
  unfold finite_macros, typed_macros, field_is. intro H.
  apply andb_true_iff in H as [H Hb]. apply andb_true_iff in H as [H Hf].
  apply andb_true_iff in H as [Hc Hp].
  destruct (get_prop K_CALORIES v); [|discriminate Hc].
  destruct (get_prop K_PROTEIN v); [|discriminate Hp].
  destruct (get_prop K_FAT v); [|discriminate Hf].
  destruct (get_prop K_CARBS v); [|discriminate Hb].
  now rewrite !finite_is_number.
Qed.

(** C8, as stated, fails: the macro object of a record is whatever the block
    parsed to.  With a block that holds the calories only, the insert is
    accepted, and the record that comes back at the head of the history has
    [null] where the record on display has no protein at all. *)
Lemma partial_macros_come_back_changed :
  insert_attempts
    (trace_of (run Store.env (handleAnalyze Scenario.photo_ready)
                 Scenario.partial_world))
  = [(mkInsertRow (lit "banana") (lit "Toast.") Scenario.data_url
        (num 100) JUndefined JUndefined JUndefined, None)]
  /\ exists shown rec older,
       result (state_of (run Store.env (handleAnalyze Scenario.photo_ready)
                           Scenario.partial_world)) = Some shown
       /\ history (state_of (run Store.env
                               (handleAnalyze Scenario.photo_ready)
                               Scenario.partial_world)) = rec :: older
       /\ name rec = name shown
       /\ summary rec = summary shown
       /\ get_prop K_CALORIES (macros rec)
          = get_prop K_CALORIES (macros shown)
       /\ get_prop K_PROTEIN (macros shown) = Some JUndefined
       /\ get_prop K_PROTEIN (macros rec) = Some JNull
       /\ ~ same_macros (macros rec) (macros shown).
Proof.
  split; [vm_compute; reflexivity|].
  do 3 eexists. split; [vm_compute; reflexivity|].
  split; [vm_compute; reflexivity|].
  repeat split; try (vm_compute; reflexivity).
  intros (_ & H & _). vm_compute in H. discriminate H.
Qed.

(** C8, amended.  Take a record as [handleAnalyze] builds it: a name, a
    summary, a preview and a macro object whose four fields are finite
    numbers.  Inserted as the row literal of lines 595-603 into a store
    whose clock is ahead of every row, it comes back at the head of the rows
    [loadHistory] asks for, and the row-to-record mapping gives the same
    name, summary, image reference and macro fields; the identifier and the
    creation time are the store's. *)
Theorem insert_then_load_round_trip (foodName summary0 preview : jsstring)
  (macros0 : JsValue) (tbl : Store.Table) (new_id : JsValue) (now : Z) :
  finite_macros macros0 = true ->
  (forall r, In r tbl -> (row_created_at r < now)%Z) ->
  exists row rec older,
    insert_row_of foodName summary0 preview macros0 = Some row
    /\ map row_to_result
         (Store.select history_query (Store.insert row new_id now tbl))
       = rec :: older
    /\ name rec = foodName
    /\ summary rec = summary0
    /\ imageUrl rec = Some preview
    /\ same_macros (macros rec) macros0
    /\ id rec = Some new_id
    /\ timestamp rec = Some now.
Proof.
  intros T Hnew. apply finite_macros_typed in T.
  destruct (typed_macros_row foodName summary0 preview _ T)
    as (row & H & Dc & Dp & Df & Db).
  exists row. unfold Store.select, Store.insert.
  cbn [q_limit q_ascending history_query].
  rewrite newest_first by exact Hnew.
  cbn [firstn map]. do 2 eexists. split; [exact H|]. split; [reflexivity|].
  destruct (row_to_result_stored _ _ _ _ new_id now H Dc Dp Df Db)
    as (Hn & Hs & Hi & Hm).
  exact (conj Hn (conj Hs (conj Hi (conj Hm (conj eq_refl eq_refl))))).
Qed.

Lemma round_trip_witness :
  exists row rec older,
    insert_row_of (lit "banana") (lit "A sweet tropical fruit...")
      Scenario.data_url Samples.banana_macros = Some row
    /\ map row_to_result
         (Store.select history_query
            (Store.insert row (num 4) 1000 Scenario.three_rows))
       = rec :: older
    /\ name rec = lit "banana"
    /\ summary rec = lit "A sweet tropical fruit..."
    /\ imageUrl rec = Some Scenario.data_url
    /\ same_macros (macros rec) Samples.banana_macros
    /\ id rec = Some (num 4)
    /\ timestamp rec = Some 1000%Z.
Proof.
  apply (@insert_then_load_round_trip (lit "banana")
           (lit "A sweet tropical fruit...") Scenario.data_url
           Samples.banana_macros Scenario.three_rows (num 4) 1000%Z).
  - vm_compute. reflexivity.
  - cbn. intros r [<-|[<-|[<-|[]]]]; cbn; lia.
Defined.

(* ================================================================== *)
(** ** The JSON reader never runs out of fuel *)

Lemma skip_ws_le (s : jsstring) : length (skip_ws s) <= length s.
Proof.
  induction s as [|c s IH]; simpl; [lia|].
  destruct (is_json_ws c); simpl; lia.
Qed.

Lemma skip_ws_cons_lt (s r : jsstring) (c : N) :
  skip_ws s = c :: r -> length r < length s.
Proof. intro H. pose proof (skip_ws_le s) as L. rewrite H in L. simpl in L. lia. Qed.

Lemma span_digits_le (s : jsstring) :
  length (snd (span_digits s)) <= length s.
Proof.
  induction s as [|c s IH]; simpl; [lia|].
  destruct (is_digit c); simpl; [|lia].
  destruct (span_digits s); simpl in *; lia.
Qed.

Lemma span_digits_rest (s d r : jsstring) :
  span_digits s = (d, r) -> length r <= length s.
Proof. intro H. pose proof (span_digits_le s) as L. now rewrite H in L. Qed.

Lemma parse_string_body_lt (n : nat) :
  forall s b r, length s <= n ->
    parse_string_body s = Some (b, r) -> length r < length s.
Proof.
  induction n as [|n IH]; intros s b r Hn H.
  - destruct s; [discriminate H|simpl in Hn; lia].
  - destruct s as [|c s]; [discriminate H|]. cbn [parse_string_body] in H.
    destruct (c =? 34)%N.
    { inversion H; subst. simpl; lia. }
    destruct (c =? 92)%N.
    { destruct s as [|e r1]; [discriminate H|].
      destruct (e =? 117)%N.
      - destruct r1 as [|h1 [|h2 [|h3 [|h4 r2]]]]; try discriminate H.
        destruct (hex4 h1 h2 h3 h4); [|discriminate H].
        destruct (parse_string_body r2) as [[body rest]|] eqn:P;
          [|discriminate H].
        inversion H; subst. apply IH in P; simpl in *; lia.
      - destruct (simple_escape e); [|discriminate H].
        destruct (parse_string_body r1) as [[body rest]|] eqn:P;
          [|discriminate H].
        inversion H; subst. apply IH in P; simpl in *; lia. }
    destruct (c <? 32)%N; [discriminate H|].
    destruct (parse_string_body s) as [[body rest]|] eqn:P; [|discriminate H].
    inversion H; subst. apply IH in P; simpl in *; lia.
Qed.

Lemma parse_number_lt (s : jsstring) (v : JsValue) (r : jsstring) :
  parse_number s = POk v r -> length r < length s.
Proof.
  unfold parse_number.
  assert (Hint : forall s1 i s2, parse_int_digits s1 = Some (i, s2) ->
                                 length s2 < length s1).
  { intros s1 i s2. unfold parse_int_digits.
    destruct s1 as [|c t]; [discriminate|].
    destruct (c =? 48)%N; [intro H; inversion H; subst; simpl; lia|].
    destruct (is_digit c) eqn:D; [|discriminate].
    cbn [span_digits]. rewrite D.
    destruct (span_digits t) as [d r'] eqn:S. intro H; inversion H; subst.
    apply span_digits_rest in S. simpl; lia. }
  assert (Hfrac : forall s2 f s3, parse_frac s2 = Some (f, s3) ->
                                  length s3 <= length s2).
  { intros s2 f s3. unfold parse_frac.
    destruct s2 as [|c t]; [intro H; inversion H; subst; simpl; lia|].
    destruct (c =? 46)%N; [|intro H; inversion H; subst; simpl; lia].
    destruct (span_digits t) as [[|d0 d] r'] eqn:S; [discriminate|].
    intro H; inversion H; subst. apply span_digits_rest in S. simpl; lia. }
  assert (Hexp : forall s3 x s4, parse_exp s3 = Some (x, s4) ->
                                 length s4 <= length s3).
  { intros s3 x s4. unfold parse_exp.
    destruct s3 as [|c t]; [intro H; inversion H; subst; simpl; lia|].
    destruct ((c =? 101) || (c =? 69))%N;
      [|intro H; inversion H; subst; simpl; lia].
    assert (L : forall r1 d r2, span_digits r1 = (d, r2) ->
                                length r1 <= length t -> length r2 <= length t)
      by (intros r1 d r2 S L; apply span_digits_rest in S; lia).
    destruct t as [|g t'].
    - destruct (span_digits []) as [[|d0 d] r2] eqn:S; [discriminate|].
      intro H; inversion H; subst. apply L in S; simpl in *; lia.
    - destruct (g =? 45)%N; [|destruct (g =? 43)%N].
      + destruct (span_digits t') as [[|d0 d] r2] eqn:S; [discriminate|].
        intro H; inversion H; subst.
        apply span_digits_rest in S. simpl; lia.
      + destruct (span_digits t') as [[|d0 d] r2] eqn:S; [discriminate|].
        intro H; inversion H; subst.
        apply span_digits_rest in S. simpl; lia.
      + destruct (span_digits (g :: t')) as [[|d0 d] r2] eqn:S; [discriminate|].
        intro H; inversion H; subst.
        apply span_digits_rest in S. simpl in *; lia. }
  destruct s as [|c t].
  - destruct (parse_int_digits []) as [[i s2]|] eqn:I; [|discriminate].
    discriminate I.
  - destruct (c =? 45)%N.
    + destruct (parse_int_digits t) as [[i s2]|] eqn:I; [|discriminate].
      destruct (parse_frac s2) as [[f s3]|] eqn:F; [|discriminate].
      destruct (parse_exp s3) as [[x s4]|] eqn:X; [|discriminate].
      intro H; inversion H; subst.
      apply Hint in I. apply Hfrac in F. apply Hexp in X. simpl; lia.
    + destruct (parse_int_digits (c :: t)) as [[i s2]|] eqn:I; [|discriminate].
      destruct (parse_frac s2) as [[f s3]|] eqn:F; [|discriminate].
      destruct (parse_exp s3) as [[x s4]|] eqn:X; [|discriminate].
      intro H; inversion H; subst.
      apply Hint in I. apply Hfrac in F. apply Hexp in X. simpl in *; lia.
Qed.

Lemma parse_literal_lt (word : jsstring) (v w : JsValue) (s r : jsstring) :
  word <> [] -> parse_literal word v s = POk w r -> length r < length s.
Proof.
  unfold parse_literal. intros Hw.
  destruct (starts_with word s) eqn:E; [|discriminate].
  intro H; inversion H; subst.
  apply starts_with_inv in E. rewrite E at 2. rewrite length_app.
  destruct word; [contradiction|simpl; lia].
Qed.


(** What a successful parser returns is shorter than what it was given. *)
Lemma parse_consumes (fuel : nat) :
  (forall s v r, parse_value fuel s = POk v r -> length r < length s)
  /\ (forall acc s v r,
         parse_elements fuel acc s = POk v r -> length r < length s)
  /\ (forall acc s v r,
         parse_members fuel acc s = POk v r -> length r < length s).
Proof.
  induction fuel as [|f (IHv & IHe & IHm)];
    [repeat split; intros; discriminate|].
  split; [|split].
  - intros s v r H. cbn [parse_value] in H.
    destruct (skip_ws s) as [|c t] eqn:W; [discriminate H|].
    apply skip_ws_cons_lt in W.
    destruct (c =? 123)%N.
    { destruct (skip_ws t) as [|c' t'] eqn:W'.
      - apply IHm in H. lia.
      - apply skip_ws_cons_lt in W'. destruct (c' =? 125)%N.
        + inversion H; subst. lia.
        + apply IHm in H. lia. }
    destruct (c =? 91)%N.
    { destruct (skip_ws t) as [|c' t'] eqn:W'.
      - apply IHe in H. lia.
      - apply skip_ws_cons_lt in W'. destruct (c' =? 93)%N.
        + inversion H; subst. lia.
        + apply IHe in H. lia. }
    destruct (c =? 34)%N.
    { destruct (parse_string_body t) as [[str r']|] eqn:P; [|discriminate H].
      inversion H; subst.
      apply (parse_string_body_lt (n := length t)) in P; lia. }
    destruct (c =? 116)%N;
      [apply parse_literal_lt in H; [simpl in H; lia|discriminate]|].
    destruct (c =? 102)%N;
      [apply parse_literal_lt in H; [simpl in H; lia|discriminate]|].
    destruct (c =? 110)%N;
      [apply parse_literal_lt in H; [simpl in H; lia|discriminate]|].
    apply parse_number_lt in H. simpl in H; lia.
  - intros acc s v r H. cbn [parse_elements] in H.
    destruct (parse_value f s) as [v0 r0| |] eqn:V; try discriminate H.
    apply IHv in V.
    destruct (skip_ws r0) as [|c r'] eqn:W; [discriminate H|].
    apply skip_ws_cons_lt in W.
    destruct (c =? 44)%N; [apply IHe in H; lia|].
    destruct (c =? 93)%N; [|discriminate H].
    inversion H; subst. lia.
  - intros acc s v r H. cbn [parse_members] in H.
    destruct (skip_ws s) as [|q t] eqn:W; [discriminate H|].
    apply skip_ws_cons_lt in W.
    destruct (q =? 34)%N; [|discriminate H].
    destruct (parse_string_body t) as [[key r1]|] eqn:P; [|discriminate H].
    apply (parse_string_body_lt (n := length t)) in P; [|lia].
    destruct (skip_ws r1) as [|colon r2] eqn:W1; [discriminate H|].
    apply skip_ws_cons_lt in W1.
    destruct (colon =? 58)%N; [|discriminate H].
    destruct (parse_value f r2) as [v0 r3| |] eqn:V; try discriminate H.
    apply IHv in V.
    destruct (skip_ws r3) as [|c r4] eqn:W3; [discriminate H|].
    apply skip_ws_cons_lt in W3.
    destruct (c =? 44)%N; [apply IHm in H; lia|].
    destruct (c =? 125)%N; [|discriminate H].
    inversion H; subst. lia.
Qed.

(** With fuel above twice the length of the input, no parser stops for lack
    of fuel. *)
Lemma parse_fuel_enough (fuel : nat) :
  (forall s, 2 * length s < fuel -> parse_value fuel s <> POutOfFuel)
  /\ (forall acc s, 2 * length s + 1 < fuel ->
                    parse_elements fuel acc s <> POutOfFuel)
  /\ (forall acc s, 2 * length s + 1 < fuel ->
                    parse_members fuel acc s <> POutOfFuel).
Proof.
  induction fuel as [|f (IHv & IHe & IHm)]; [repeat split; intros; lia|].
  destruct (parse_consumes f) as (Cv & _ & _).
  split; [|split].
  - intros s L. cbn [parse_value].
    destruct (skip_ws s) as [|c t] eqn:W; [discriminate|].
    apply skip_ws_cons_lt in W.
    destruct (c =? 123)%N.
    { destruct (skip_ws t) as [|c' t'];
        [|destruct (c' =? 125)%N; [discriminate|]]; apply IHm; lia. }
    destruct (c =? 91)%N.
    { destruct (skip_ws t) as [|c' t'];
        [|destruct (c' =? 93)%N; [discriminate|]]; apply IHe; lia. }
    destruct (c =? 34)%N;
      [destruct (parse_string_body t) as [[str r']|]; discriminate|].
    unfold parse_literal, parse_number.
    repeat match goal with
           | |- context [if ?b then _ else _] => destruct b
           | |- context [match ?x with Some _ => _ | None => _ end] =>
               destruct x
           | |- context [let '(_, _) := ?x in _] => destruct x
           end; discriminate.
  - intros acc s L. cbn [parse_elements].
    destruct (parse_value f s) as [v0 r0| |] eqn:V; [|discriminate|].
    + apply Cv in V. destruct (skip_ws r0) as [|c r'] eqn:W; [discriminate|].
      apply skip_ws_cons_lt in W.
      destruct (c =? 44)%N; [apply IHe; lia|].
      destruct (c =? 93)%N; discriminate.
    + exfalso. revert V. apply IHv. lia.
  - intros acc s L. cbn [parse_members].
    destruct (skip_ws s) as [|q t] eqn:W; [discriminate|].
    apply skip_ws_cons_lt in W.
    destruct (q =? 34)%N; [|discriminate].
    destruct (parse_string_body t) as [[key r1]|] eqn:P; [|discriminate].
    apply (parse_string_body_lt (n := length t)) in P; [|lia].
    destruct (skip_ws r1) as [|colon r2] eqn:W1; [discriminate|].
    apply skip_ws_cons_lt in W1.
    destruct (colon =? 58)%N; [|discriminate].
    destruct (parse_value f r2) as [v0 r3| |] eqn:V; [|discriminate|].
    + apply Cv in V. destruct (skip_ws r3) as [|c r4] eqn:W3; [discriminate|].
      apply skip_ws_cons_lt in W3.
      destruct (c =? 44)%N; [apply IHm; lia|].
      destruct (c =? 125)%N; discriminate.
    + exfalso. revert V. apply IHv. lia.
Qed.

(** [JSON_parse] gives its reader enough fuel: a [None] is a syntax error
    or text after the value, never a lack of fuel. *)
Lemma JSON_parse_fuel_enough (s : jsstring) :
  parse_value (fuel_for s) s <> POutOfFuel.
Proof.
  apply (proj1 (parse_fuel_enough (fuel_for s))). unfold fuel_for. lia.
Qed.

(* ================================================================== *)
(** ** From the reply to the record on display *)

(** The record a text analysis displays is built from the parse step
    applied to the text of the reply; otherwise the display is untouched. *)
Lemma text_analysis_result (W : Type) (env : Env W) (w : W) (st : State) :
  result (state_of (run env (handleTextAnalyze st) w)) = result st
  \/ exists g,
       result (state_of (run env (handleTextAnalyze st) w))
       = Some (mkAnalysisResult None (trim (searchText st))
                 (parsed_summary (parse_reply_text (or_else (first_text g) [])))
                 (parsed_macros (parse_reply_text (or_else (first_text g) [])))
                 None None (Some [])).
Proof.
  unfold handleTextAnalyze, text_analyze_body, state_of. run_cbn.
  destruct (trim (searchText st)) as [|c r]; run_cbn; [now left|].
  drive; try (now left); right; eexists; reflexivity.
Qed.

(** The same for a photo analysis, with the parse step of [handleAnalyze]. *)
Lemma photo_analysis_result (W : Type) (env : Env W) (w : W) (st : State) :
  result (state_of (run env (handleAnalyze st) w)) = result st
  \/ exists g0 g preview,
       imagePreview st = Some preview
       /\ result (state_of (run env (handleAnalyze st) w))
          = Some (mkAnalysisResult None
                    (or_else (option_map trim (first_text g0)) UNKNOWN_FOOD)
                    (parsed_summary
                       (parse_reply_image (or_else (first_text g) [])))
                    (parsed_macros
                       (parse_reply_image (or_else (first_text g) [])))
                    (Some preview) None
                    (Some (web_sources (first_chunks g)))).
Proof.
  unfold handleAnalyze, analyze_body, fileToGenerativePart, loadHistory,
    insert_row, state_of.
  run_cbn.
  destruct (file st) as [f|]; run_cbn; [|now left].
  destruct (imagePreview st) as [[|c p]|]; run_cbn; try (now left).
  drive; try (now left); right; do 3 eexists; split; reflexivity.
Qed.

(** X24.  An alert of a text analysis follows a rejected call: a block that
    does not parse raises none. *)
Lemma text_alert_needs_rejection (W : Type) (env : Env W) (w : W) (st : State) :
  existsb is_alert (trace_of (run env (handleTextAnalyze st) w)) = true ->
  existsb is_rejection (trace_of (run env (handleTextAnalyze st) w)) = true.
Proof.
  unfold handleTextAnalyze, text_analyze_body, trace_of. run_cbn.
  destruct (trim (searchText st)) as [|c r]; run_cbn; [discriminate|].
  drive; intro H; try discriminate H; reflexivity.
Qed.

(** X25.  An alert of a photo analysis follows a rejected call, or a macro
    object off which no field can be read ([null]): a block that does not
    parse raises none. *)
Lemma photo_alert_causes (W : Type) (env : Env W) (w : W) (st : State) :
  existsb is_alert (trace_of (run env (handleAnalyze st) w)) = true ->
  existsb is_rejection (trace_of (run env (handleAnalyze st) w)) = true
  \/ exists rec,
       result (state_of (run env (handleAnalyze st) w)) = Some rec
       /\ get_prop K_CALORIES (macros rec) = None.
Proof.
  unfold handleAnalyze, analyze_body, fileToGenerativePart, loadHistory,
    insert_row, trace_of, state_of.
  run_cbn.
  destruct (file st) as [f|]; run_cbn; [|discriminate].
  destruct (imagePreview st) as [[|c p]|]; run_cbn; try discriminate.
  drive; intro H; try discriminate H; try (left; reflexivity).
  all: right; eexists; split; [reflexivity|]; cbn [macros].
  all: match goal with
       | R : insert_row_of _ _ _ ?m = None |- _ =>
           unfold insert_row_of in R;
           destruct m; cbn in R |- *; try discriminate R; reflexivity
       end.
Qed.

(** The banana example of the spec, typed in the search box. *)
Example banana_by_text :
  outcome_of (run Store.env (handleTextAnalyze Scenario.text_ready)
                (Scenario.world Scenario.accepting)) = Normal tt
  /\ result (state_of (run Store.env (handleTextAnalyze Scenario.text_ready)
                      (Scenario.world Scenario.accepting)))
  = Some (Scenario.banana_record None [])
  /\ existsb is_alert
       (trace_of (run Store.env (handleTextAnalyze Scenario.text_ready)
                    (Scenario.world Scenario.accepting))) = false
  /\ Store.table
       (world_of (run Store.env (handleTextAnalyze Scenario.text_ready)
                    (Scenario.world Scenario.accepting))) = [].
Proof. vm_compute. repeat split. Qed.

(** The banana example from a photo: the record is displayed, stored, and
    read back into the history. *)
Example banana_by_photo :
  result (state_of (run Store.env (handleAnalyze Scenario.photo_ready)
                      (Scenario.world Scenario.accepting)))
  = Some (Scenario.banana_record (Some Scenario.data_url) [])
  /\ history (state_of (run Store.env (handleAnalyze Scenario.photo_ready)
                          (Scenario.world Scenario.accepting)))
     = [mkAnalysisResult (Some (num 1)) (lit "banana")
          (lit "A sweet tropical fruit...") Samples.banana_macros
          (Some Scenario.data_url) (Some 1000%Z) None]
  /\ loading (state_of (run Store.env (handleAnalyze Scenario.photo_ready)
                          (Scenario.world Scenario.accepting))) = false.
Proof. vm_compute. repeat split. Qed.

(** No candidate in the identification reply: the name is [Unknown food]
    and the analysis call is made with it. *)
Example unknown_food :
  requests (trace_of (run Store.env (handleAnalyze Scenario.photo_ready)
                        Scenario.nameless_world))
  = [identify_request Scenario.meal (Some (lit "AAAA"));
     analysis_request (analysis_prompt UNKNOWN_FOOD)]
  /\ option_map name
       (result (state_of (run Store.env (handleAnalyze Scenario.photo_ready)
                            Scenario.nameless_world)))
     = Some (lit "Unknown food")
  /\ option_map summary
       (result (state_of (run Store.env (handleAnalyze Scenario.photo_ready)
                            Scenario.nameless_world)))
     = Some Samples.plain_reply.
Proof. vm_compute. repeat split. Qed.


(** A block that parses to [null] is displayed as it is; reading the first
    macro off it for the row throws, so the run ends in the alert and
    nothing is inserted. *)
Example null_block :
  option_map macros
    (result (state_of (run Store.env (handleAnalyze Scenario.photo_ready)
                         Scenario.null_world)))
  = Some JNull
  /\ existsb is_alert
       (trace_of (run Store.env (handleAnalyze Scenario.photo_ready)
                    Scenario.null_world)) = true
  /\ insert_attempts
       (trace_of (run Store.env (handleAnalyze Scenario.photo_ready)
                    Scenario.null_world)) = [].
Proof. vm_compute. repeat split. Qed.


(* ================================================================== *)
(** ** More on the parse step *)

Lemma trim_start_head (s : jsstring) (c : N) (r : jsstring) :
  trim_start s = c :: r -> is_space c = false.
Proof.
  induction s as [|a s IH]; simpl; [discriminate|].
  destruct (is_space a) eqn:E; [exact IH|].
  intro H; inversion H; subst. exact E.
Qed.

Lemma trim_start_fixed (s : jsstring) : trim_start (trim_start s) = trim_start s.
Proof.
  destruct (trim_start s) as [|c r] eqn:E; [reflexivity|].
  simpl. now rewrite (trim_start_head _ E).
Qed.

Lemma trim_head (s : jsstring) (c : N) (r : jsstring) :
  trim s = c :: r -> is_space c = false.
Proof.
  unfold trim. destruct (trim_start s) as [|a t] eqn:E; [discriminate|].
  pose proof (trim_start_head _ E) as Ha.
  destruct (@trim_end_single a t Ha) as [z ->].
  intro H; inversion H; subst. exact Ha.
Qed.

Lemma trim_last (s : jsstring) (c : N) (r : jsstring) :
  rev (trim s) = c :: r -> is_space c = false.
Proof.
  unfold trim, trim_end. rewrite rev_involutive. apply trim_start_head.
Qed.

Lemma trim_clean_edges (s : jsstring) : clean_edges (trim s) = true.
Proof.
  unfold clean_edges.
  destruct (trim s) as [|a t] eqn:E; [reflexivity|].
  cbn [hd_error]. destruct (rev (a :: t)) as [|b u] eqn:R; [reflexivity|].
  cbn [hd_error]. rewrite <- E in R.
  now rewrite (trim_head _ E), (trim_last _ R).
Qed.

Lemma trim_start_all_space (ws t : jsstring) :
  all_space ws = true -> trim_start (ws ++ t) = trim_start t.
Proof.
  induction ws as [|a ws IH]; simpl; [reflexivity|].
  intro H. apply andb_true_iff in H as [-> H]. now apply IH.
Qed.

Lemma all_space_rev (ws : jsstring) : all_space (rev ws) = all_space ws.
Proof.
  unfold all_space. induction ws as [|a ws IH]; [reflexivity|].
  simpl. rewrite forallb_app, IH. simpl. rewrite andb_true_r. apply andb_comm.
Qed.

Lemma trim_end_all_space (t ws : jsstring) :
  all_space ws = true -> trim_end (t ++ ws) = trim_end t.
Proof.
  intro H. unfold trim_end. rewrite rev_app_distr.
  rewrite trim_start_all_space; [reflexivity|]. now rewrite all_space_rev.
Qed.

Lemma trim_start_nil_all_space (s : jsstring) :
  trim_start s = [] -> all_space s = true.
Proof.
  induction s as [|a s IH]; simpl; [reflexivity|].
  destruct (is_space a); [intro H; now rewrite IH|discriminate].
Qed.

(** White space around a text does not change what [trim] returns. *)
Lemma trim_padded (ws1 t ws2 : jsstring) :
  all_space ws1 = true -> all_space ws2 = true ->
  trim (ws1 ++ t ++ ws2) = trim t.
Proof.
  intros H1 H2. unfold trim. rewrite trim_start_all_space by exact H1.
  destruct (trim_start t) as [|c r] eqn:E.
  - apply trim_start_nil_all_space in E.
    assert (A : all_space (t ++ ws2) = true)
      by (unfold all_space in *; now rewrite forallb_app, E, H2).
    assert (N : forall x, all_space x = true -> trim_start x = [])
      by (induction x as [|a x IH]; simpl; [reflexivity|];
          intro H; apply andb_true_iff in H as [-> H]; now apply IH).
    now rewrite (N _ A).
  - rewrite trim_start_app_keep by (rewrite E; discriminate).
    rewrite E. now apply trim_end_all_space.
Qed.

Lemma strip_plain_then (y rest : jsstring) :
  no_backtick y = true ->
  strip_fences_from 0 (y ++ rest) = y ++ strip_fences_from 0 rest.
Proof.
  induction y as [|c y IH]; [reflexivity|].
  intro H. simpl in H. apply andb_true_iff in H as [Hc H].
  apply negb_true_iff in Hc.
  cbn [app strip_fences_from].
  assert (F1 : starts_with FENCE_JSON (c :: y ++ rest) = false).
  { unfold FENCE_JSON. cbn [starts_with]. rewrite N.eqb_sym, Hc. reflexivity. }
  assert (F2 : starts_with FENCE (c :: y ++ rest) = false).
  { unfold FENCE. cbn [starts_with]. rewrite N.eqb_sym, Hc. reflexivity. }
  rewrite F1, F2. f_equal. now apply IH.
Qed.

Lemma strip_plain (y : jsstring) :
  no_backtick y = true -> strip_fences y = y.
Proof.
  intro H. unfold strip_fences.
  rewrite <- (app_nil_r y) at 1. rewrite strip_plain_then by exact H.
  simpl. apply app_nil_r.
Qed.

Lemma strip_leading_fence (x : jsstring) :
  strip_fences (FENCE_JSON ++ x) = strip_fences x.
Proof.
  unfold strip_fences, FENCE_JSON. cbn [app strip_fences_from starts_with].
  unfold FENCE_JSON. cbn. destruct x; reflexivity.
Qed.

Lemma all_space_no_backtick (ws : jsstring) :
  all_space ws = true -> no_backtick ws = true.
Proof.
  unfold all_space, no_backtick. induction ws as [|a ws IH]; [reflexivity|].
  simpl. intro H. apply andb_true_iff in H as [Ha H]. rewrite IH by exact H.
  rewrite andb_true_r. apply negb_true_iff. apply N.eqb_neq. intros ->.
  discriminate Ha.
Qed.

Lemma strip_closing_fence (ws : jsstring) :
  all_space ws = true -> strip_fences_from 0 (FENCE ++ ws) = ws.
Proof.
  intro H. pose proof (strip_plain _ (all_space_no_backtick _ H)) as P.
  unfold strip_fences in P.
  destruct ws as [|a w]; [reflexivity|].
  assert (Ha : (106 =? a)%N = false).
  { apply N.eqb_neq. intros <-. simpl in H. discriminate H. }
  unfold FENCE. cbn [app strip_fences_from].
  unfold FENCE_JSON, FENCE. cbn [starts_with]. rewrite Ha.
  cbn. exact P.
Qed.

(** The text of a fenced block, once the fences are dropped and the ends
    trimmed, is the trimmed block. *)
Lemma strip_fenced_block (ws1 ws2 block ws3 ws4 : jsstring) :
  no_backtick block = true ->
  all_space ws1 = true -> all_space ws2 = true ->
  all_space ws3 = true -> all_space ws4 = true ->
  trim (strip_fences
          (ws1 ++ FENCE_JSON ++ ws2 ++ block ++ ws3 ++ FENCE ++ ws4))
  = trim block.
Proof.
  intros Hb H1 H2 H3 H4.
  unfold strip_fences at 1.
  rewrite strip_plain_then by now apply all_space_no_backtick.
  change (strip_fences_from 0
            (FENCE_JSON ++ ws2 ++ block ++ ws3 ++ FENCE ++ ws4))
    with (strip_fences (FENCE_JSON ++ ws2 ++ block ++ ws3 ++ FENCE ++ ws4)).
  rewrite strip_leading_fence. unfold strip_fences.
  rewrite strip_plain_then by now apply all_space_no_backtick.
  rewrite strip_plain_then by exact Hb.
  rewrite strip_plain_then by now apply all_space_no_backtick.
  rewrite strip_closing_fence by exact H4.
  rewrite (app_assoc ws1 ws2).
  assert (A12 : all_space (ws1 ++ ws2) = true)
    by (unfold all_space in *; now rewrite forallb_app, H1, H2).
  assert (A34 : all_space (ws3 ++ ws4) = true)
    by (unfold all_space in *; now rewrite forallb_app, H3, H4).
  now apply trim_padded.
Qed.

(** X1.  A fence around the block does not change the structured parse: a
    block without backticks, put between an opening [```json] and a closing
    [```] with any white space before, between and after, parses as the bare
    block does. *)
Theorem fenced_block_parses_alike (ws1 ws2 block ws3 ws4 : jsstring) :
  no_backtick block = true ->
  all_space ws1 = true -> all_space ws2 = true ->
  all_space ws3 = true -> all_space ws4 = true ->
  parse_macro_block
    (ws1 ++ FENCE_JSON ++ ws2 ++ block ++ ws3 ++ FENCE ++ ws4)
  = parse_macro_block block.
Proof.
  intros Hb H1 H2 H3 H4. unfold parse_macro_block. f_equal.
  rewrite (strip_plain _ Hb). now apply strip_fenced_block.
Qed.

Lemma fenced_block_witness :
  parse_macro_block
    (newline ++ FENCE_JSON ++ newline
     ++ Samples.macro_json "150" "5" "3" "27" ++ newline ++ FENCE ++ newline)
  = Some Samples.twice_macros.
Proof.
  rewrite (@fenced_block_parses_alike newline newline
             (Samples.macro_json "150" "5" "3" "27") newline newline);
    reflexivity.
Defined.

(** *** What the replacement of the fence marks leaves *)

Lemma strip_skip (k : nat) (s : jsstring) :
  strip_fences_from k s = strip_fences_from 0 (skipn k s).
Proof.
  revert s. induction k as [|k IH]; intro s; [reflexivity|].
  destruct s as [|c s']; [reflexivity|]. cbn [strip_fences_from skipn].
  apply IH.
Qed.

(** One step of the replacement at the head of a text. *)
Lemma strip_step (c : N) (s' : jsstring) :
  strip_fences_from 0 (c :: s')
  = if starts_with FENCE_JSON (c :: s')
    then strip_fences_from 0 (skipn (length FENCE_JSON - 1) s')
    else if starts_with FENCE (c :: s')
    then strip_fences_from 0 (skipn (length FENCE - 1) s')
    else c :: strip_fences_from 0 s'.
Proof.
  cbn [strip_fences_from].
  destruct (starts_with FENCE_JSON (c :: s')); [apply strip_skip|].
  destruct (starts_with FENCE (c :: s')); [apply strip_skip|reflexivity].
Qed.

Lemma fence_json_starts_with_fence (s : jsstring) :
  starts_with FENCE s = false -> starts_with FENCE_JSON s = false.
Proof.
  intro H. destruct (starts_with FENCE_JSON s) eqn:J; [|reflexivity].
  apply starts_with_inv in J. rewrite J in H.
  change FENCE_JSON with (FENCE ++ skipn (length FENCE) FENCE_JSON) in H.
  rewrite <- app_assoc, starts_with_app in H. discriminate H.
Qed.



Lemma FENCE_nonempty : FENCE <> [].
Proof. discriminate. Qed.



(** A text without a fence mark is left as it is. *)
Lemma strip_without_fence (s : jsstring) :
  occurrences FENCE s = [] -> strip_fences s = s.
Proof.
  unfold strip_fences, occurrences. intro O.
  pose proof (proj1 (@occurrences_nil_iff FENCE FENCE_nonempty 0 s) O) as H.
  clear O. induction s as [|c s' IH]; [reflexivity|].
  pose proof (H 0) as F. cbn [skipn] in F.
  rewrite strip_step, (fence_json_starts_with_fence _ F), F.
  f_equal. apply IH. intro j. exact (H (S j)).
Qed.



(** C10.  When the marker occurs two or more times, at [i1] and next at [i2],
    the summary is the trimmed text before the first occurrence and the
    structured parse reads the text strictly between the first two
    occurrences, fence marks dropped: as it is when it holds none, as the
    bare block when the block sits between an opening and a closing fence.
    Nothing at or after [i2] enters the structured parse; only when that
    parse fails does [handleAnalyze] scan the whole reply for the calorie
    label. *)
Theorem repeated_sentinel_parse (fullText : jsstring) (i1 i2 : nat)
  (more : list nat) :
  occurrences SENTINEL fullText = i1 :: i2 :: more ->
  parsed_summary (parse_reply_image fullText) = trim (firstn i1 fullText)
  /\ structured_macros fullText
     = parse_macro_block (skipn (i1 + length SENTINEL) (firstn i2 fullText))
  /\ parse_reply_text fullText
     = match parse_macro_block
               (skipn (i1 + length SENTINEL) (firstn i2 fullText)) with
       | Some v => mkParsed (trim (firstn i1 fullText)) v false
       | None => mkParsed (trim (firstn i1 fullText)) zero_macros true
       end
  /\ (forall v,
       parse_macro_block (skipn (i1 + length SENTINEL) (firstn i2 fullText))
       = Some v ->
       parse_reply_image fullText
       = mkParsed (trim (firstn i1 fullText)) v false)
  /\ (occurrences FENCE (skipn (i1 + length SENTINEL) (firstn i2 fullText))
      = [] ->
      structured_macros fullText
      = JSON_parse (trim (skipn (i1 + length SENTINEL) (firstn i2 fullText))))
  /\ (forall ws1 ws2 block ws3 ws4,
        skipn (i1 + length SENTINEL) (firstn i2 fullText)
        = ws1 ++ FENCE_JSON ++ ws2 ++ block ++ ws3 ++ FENCE ++ ws4 ->
        all_space ws1 = true -> all_space ws2 = true ->
        all_space ws3 = true -> all_space ws4 = true ->
        no_backtick block = true ->
        structured_macros fullText = JSON_parse (trim block))
  /\ (structured_macros fullText = None ->
      parse_reply_text fullText
      = mkParsed (trim (firstn i1 fullText)) zero_macros true
      /\ parse_reply_image fullText
         = mkParsed (trim (firstn i1 fullText))
             match match_calories fullText with
             | Some d => set_prop K_CALORIES (parseInt d) zero_macros
             | None => zero_macros
             end true).
Proof.
  intro O. destruct (second_piece _ O) as (piece1 & tail & Hsplit & Hparse).
  unfold structured_macros.
  rewrite parse_reply_image_unfold, parse_reply_text_unfold, Hsplit.
  cbv beta iota. rewrite Hparse. clear Hparse.
  set (between := skipn (i1 + length SENTINEL) (firstn i2 fullText)).
  split; [|split; [|split; [|split; [|split; [|split]]]]].
  - destruct (parse_macro_block _); reflexivity.
  - reflexivity.
  - destruct (parse_macro_block _); reflexivity.
  - intros v ->. reflexivity.
  - intro F. unfold parse_macro_block. now rewrite (strip_without_fence _ F).
  - intros ws1 ws2 block ws3 ws4 E H1 H2 H3 H4 Hb.
    unfold parse_macro_block. rewrite E. now rewrite strip_fenced_block.
  - intros ->. split; reflexivity.
Qed.

Lemma repeated_sentinel_witness :
  (parsed_summary (parse_reply_image Samples.twice_fenced_reply) = lit "Oats."
   /\ structured_macros Samples.twice_fenced_reply
      = Some Samples.twice_macros
   /\ parse_reply_image Samples.twice_fenced_reply
      = mkParsed (lit "Oats.") Samples.twice_macros false)
  /\ structured_macros Samples.twice_reply = Some Samples.twice_macros.
Proof.
  pose proof (@repeated_sentinel_parse Samples.twice_fenced_reply 6 77 [])
    as (Hs & _ & _ & Hi & _ & Hf & _); [vm_compute; reflexivity|].
  assert (Hv : structured_macros Samples.twice_fenced_reply
               = Some Samples.twice_macros).
  { rewrite (Hf newline newline Samples.twice_mid newline newline);
      vm_compute; reflexivity. }
  pose proof (@repeated_sentinel_parse Samples.twice_reply 6 63 [])
    as (_ & _ & _ & _ & Hb & _); [vm_compute; reflexivity|].
  split; [|rewrite Hb; vm_compute; reflexivity].
  split; [rewrite Hs; vm_compute; reflexivity|].
  split; [exact Hv|].
  apply Hi. vm_compute. reflexivity.
Defined.

Lemma split_has_two (s : jsstring) :
  occurrences SENTINEL s <> [] ->
  exists piece0 piece1 tail, split SENTINEL s = piece0 :: piece1 :: tail.
Proof.
  intro H. destruct (occurrences SENTINEL s) as [|i more] eqn:O;
    [contradiction|].
  rewrite (split_unfold SENTINEL_nonempty),
    (cut_at_first_occurrence SENTINEL_nonempty _ O).
  rewrite (split_unfold SENTINEL_nonempty).
  destruct (cut SENTINEL _) as [[b a]|]; do 3 eexists; reflexivity.
Qed.

(** X2.  Whenever the reply contains the marker, the summary has no white
    space at either end, in both handlers; the block after the marker, parsed
    or not, does not matter. *)
Theorem summary_has_clean_edges (fullText : jsstring) :
  occurrences SENTINEL fullText <> [] ->
  clean_edges (parsed_summary (parse_reply_image fullText)) = true
  /\ clean_edges (parsed_summary (parse_reply_text fullText)) = true.
Proof.
  intro H. destruct (split_has_two _ H) as (p0 & p1 & tail & Hs).
  rewrite parse_reply_image_unfold, parse_reply_text_unfold, Hs.
  cbv beta iota.
  destruct (parse_macro_block p1); cbn [parsed_summary];
    split; apply trim_clean_edges.
Qed.

Lemma summary_clean_witness :
  clean_edges (parsed_summary (parse_reply_image Samples.banana_reply)) = true
  /\ clean_edges (parsed_summary (parse_reply_text Samples.banana_reply)) = true.
Proof.
  apply (summary_has_clean_edges Samples.banana_reply).
  vm_compute. discriminate.
Defined.


(* ================================================================== *)
(** ** More on the runs of the two handlers *)

(** X3.  Whatever the environment answers, no exception escapes either
    handler and neither touches the selected file, the preview, the search
    text or the camera flag.  A run that passes its guard (a file and a
    non-empty preview for [handleAnalyze], a search text that is not blank
    for [handleTextAnalyze]) ends with [loading] false and an empty
    [loadingStep], whatever they were before; a run that does not makes no
    call and leaves the state as it was. *)
Theorem analysis_ends_idle (W : Type) (env : Env W) (w : W) (st : State) :
  (outcome_of (run env (handleAnalyze st) w) = Normal tt
   /\ file (state_of (run env (handleAnalyze st) w)) = file st
   /\ imagePreview (state_of (run env (handleAnalyze st) w)) = imagePreview st
   /\ searchText (state_of (run env (handleAnalyze st) w)) = searchText st
   /\ cameraActive (state_of (run env (handleAnalyze st) w)) = cameraActive st
   /\ match file st, imagePreview st with
      | Some _, Some (_ :: _) =>
          loading (state_of (run env (handleAnalyze st) w)) = false
          /\ loadingStep (state_of (run env (handleAnalyze st) w)) = []
      | _, _ => run env (handleAnalyze st) w = (Normal tt, st, w, [])
      end)
  /\ (outcome_of (run env (handleTextAnalyze st) w) = Normal tt
      /\ file (state_of (run env (handleTextAnalyze st) w)) = file st
      /\ imagePreview (state_of (run env (handleTextAnalyze st) w))
         = imagePreview st
      /\ searchText (state_of (run env (handleTextAnalyze st) w))
         = searchText st
      /\ cameraActive (state_of (run env (handleTextAnalyze st) w))
         = cameraActive st
      /\ history (state_of (run env (handleTextAnalyze st) w)) = history st
      /\ match trim (searchText st) with
         | _ :: _ =>
             loading (state_of (run env (handleTextAnalyze st) w)) = false
             /\ loadingStep (state_of (run env (handleTextAnalyze st) w))
                = []
         | [] => run env (handleTextAnalyze st) w = (Normal tt, st, w, [])
         end).
Proof.
  split.
  - unfold handleAnalyze, analyze_body, fileToGenerativePart, loadHistory,
      insert_row, state_of, outcome_of.
    run_cbn.
    destruct (file st) as [f|] eqn:F; run_cbn;
      [|repeat split; assumption].
    destruct (imagePreview st) as [[|c p]|] eqn:P; run_cbn;
      try (repeat split; assumption).
    drive; repeat split; assumption.
  - unfold handleTextAnalyze, text_analyze_body, state_of, outcome_of.
    run_cbn.
    destruct (trim (searchText st)) as [|c r]; run_cbn; [repeat split|].
    drive; repeat split.
Qed.

(** X4.  A rejected promise ends the analysis: in a run of [handleAnalyze]
    where the file read or a call to the completion service is rejected, the
    record on display and the history stay as they were, nothing is sent to
    the store, [Analysis Failed] is logged and the one alert is the generic
    message; in a run of [handleTextAnalyze] where the call is rejected, the
    record on display stays and the one alert is the text message. *)
Theorem rejection_ends_analysis (W : Type) (env : Env W) (w : W) (st : State) :
  (existsb is_rejection (trace_of (run env (handleAnalyze st) w)) = true ->
   result (state_of (run env (handleAnalyze st) w)) = result st
   /\ history (state_of (run env (handleAnalyze st) w)) = history st
   /\ insert_attempts (trace_of (run env (handleAnalyze st) w)) = []
   /\ queries (trace_of (run env (handleAnalyze st) w)) = []
   /\ logged (trace_of (run env (handleAnalyze st) w))
      = [Some "Analysis Failed"%string]
   /\ alerts (trace_of (run env (handleAnalyze st) w)) = [ALERT_ANALYSIS])
  /\ (existsb is_rejection (trace_of (run env (handleTextAnalyze st) w)) = true ->
      result (state_of (run env (handleTextAnalyze st) w)) = result st
      /\ logged (trace_of (run env (handleTextAnalyze st) w)) = [None]
      /\ alerts (trace_of (run env (handleTextAnalyze st) w)) = [ALERT_TEXT]).
Proof.
  split.
  - unfold handleAnalyze, analyze_body, fileToGenerativePart, loadHistory,
      insert_row, trace_of, state_of.
    run_cbn.
    destruct (file st) as [f|]; run_cbn; [|discriminate].
    destruct (imagePreview st) as [[|c p]|]; run_cbn; try discriminate.
    drive; intro H; try discriminate H; repeat split.
  - unfold handleTextAnalyze, text_analyze_body, trace_of, state_of.
    run_cbn.
    destruct (trim (searchText st)) as [|c r]; run_cbn; [discriminate|].
    drive; intro H; try discriminate H; repeat split.
Qed.

Lemma rejection_witness :
  (result (state_of (run Store.env (handleAnalyze showing_oats) offline_world))
   = result showing_oats
   /\ history (state_of (run Store.env (handleAnalyze showing_oats)
                           offline_world)) = history showing_oats
   /\ insert_attempts (trace_of (run Store.env (handleAnalyze showing_oats)
                                   offline_world)) = []
   /\ queries (trace_of (run Store.env (handleAnalyze showing_oats)
                           offline_world)) = []
   /\ logged (trace_of (run Store.env (handleAnalyze showing_oats)
                          offline_world)) = [Some "Analysis Failed"%string]
   /\ alerts (trace_of (run Store.env (handleAnalyze showing_oats)
                          offline_world)) = [ALERT_ANALYSIS])
  /\ (result (state_of (run Store.env (handleTextAnalyze showing_oats)
                          offline_world)) = result showing_oats
      /\ logged (trace_of (run Store.env (handleTextAnalyze showing_oats)
                             offline_world)) = [None]
      /\ alerts (trace_of (run Store.env (handleTextAnalyze showing_oats)
                             offline_world)) = [ALERT_TEXT]).
Proof.
  pose proof (rejection_ends_analysis Store.env offline_world showing_oats)
    as [Photo Text].
  split; [apply Photo|apply Text]; reflexivity.
Defined.

(** X5.  A run of [handleAnalyze] talks to the completion service in one
    order only: nothing; or the identification request alone, rejected; or
    the identification request, answered, then the analysis request built
    from that answer.  The identification request carries the type of the
    selected file and no search tool; the analysis request enables the
    search tool. *)
Theorem photo_requests_in_order (W : Type) (env : Env W) (w : W) (st : State) :
  exchanges (trace_of (run env (handleAnalyze st) w)) = []
  \/ (exists f data e,
        file st = Some f
        /\ exchanges (trace_of (run env (handleAnalyze st) w))
           = [(mkRequest MODEL_NAME
                 (PartsContents [InlineData (file_type f) data;
                                 TextPart identify_instruction]) false,
               inl e)])
  \/ (exists f data g a,
        file st = Some f
        /\ exchanges (trace_of (run env (handleAnalyze st) w))
           = [(mkRequest MODEL_NAME
                 (PartsContents [InlineData (file_type f) data;
                                 TextPart identify_instruction]) false,
               inr g);
              (mkRequest MODEL_NAME
                 (TextContents
                    (analysis_prompt
                       (or_else (option_map trim (first_text g))
                                UNKNOWN_FOOD))) true,
               a)]).
Proof.
  unfold handleAnalyze, analyze_body, fileToGenerativePart, loadHistory,
    insert_row, trace_of.
  run_cbn.
  destruct (file st) as [f|]; run_cbn; [|now left].
  destruct (imagePreview st) as [[|c p]|]; run_cbn; try (now left).
  drive;
    first [ now left
          | right; left; do 3 eexists; split; reflexivity
          | right; right; do 4 eexists; split; reflexivity ].
Qed.

Lemma nameless_or_else (g : GenerateContentResponse) :
  nameless g = true ->
  or_else (option_map trim (first_text g)) UNKNOWN_FOOD = UNKNOWN_FOOD.
Proof.
  unfold nameless. destruct (first_text g) as [t|]; [|reflexivity].
  cbn [option_map]. now destruct (trim t).
Qed.

(** X6.  When the identification reply names nothing (no candidate, no
    part, no text, or only white space), the analysis goes on with the name
    [Unknown food]: the second request is the prompt for that name, and a
    record this run displays bears it. *)
Theorem nameless_reply_becomes_unknown_food (W : Type) (env : Env W) (w : W)
  (st : State) (req : GenerateContentRequest) (g : GenerateContentResponse)
  (rest : list (GenerateContentRequest * (Exn + GenerateContentResponse))) :
  exchanges (trace_of (run env (handleAnalyze st) w)) = (req, inr g) :: rest ->
  nameless g = true ->
  (exists a,
      rest = [(analysis_request (analysis_prompt UNKNOWN_FOOD), a)])
  /\ (result (state_of (run env (handleAnalyze st) w)) = result st
      \/ exists rec,
           result (state_of (run env (handleAnalyze st) w)) = Some rec
           /\ name rec = UNKNOWN_FOOD).
Proof.
  unfold handleAnalyze, analyze_body, fileToGenerativePart, loadHistory,
    insert_row, trace_of, state_of.
  run_cbn.
  destruct (file st) as [f|]; run_cbn; [|discriminate].
  destruct (imagePreview st) as [[|c p]|]; run_cbn; try discriminate.
  drive; intros H N; try discriminate H; inversion H; subst; clear H;
    rewrite (nameless_or_else _ N);
    (split; [eexists; reflexivity|]);
    first [ now left | right; eexists; split; reflexivity ].
Qed.

Lemma nameless_witness :
  (exists a,
      [(analysis_request (analysis_prompt UNKNOWN_FOOD),
        (inr (Scenario.reply Samples.plain_reply)
         : Exn + GenerateContentResponse))]
      = [(analysis_request (analysis_prompt UNKNOWN_FOOD), a)])
  /\ (result (state_of (run Store.env (handleAnalyze Scenario.photo_ready)
                          Scenario.nameless_world))
      = result Scenario.photo_ready
      \/ exists rec,
           result (state_of (run Store.env (handleAnalyze Scenario.photo_ready)
                               Scenario.nameless_world)) = Some rec
           /\ name rec = UNKNOWN_FOOD).
Proof.
  apply (@nameless_reply_becomes_unknown_food _ Store.env
           Scenario.nameless_world Scenario.photo_ready
           (identify_request Scenario.meal (Some (lit "AAAA")))
           (mkResponse None)); reflexivity.
Defined.

Lemma or_else_trim_clean (t : option jsstring) :
  or_else (option_map trim t) UNKNOWN_FOOD <> []
  /\ clean_edges (or_else (option_map trim t) UNKNOWN_FOOD) = true.
Proof.
  destruct t as [t|]; cbn [option_map or_else]; [|split; [discriminate|reflexivity]].
  destruct (trim t) as [|c r] eqn:E; [split; [discriminate|reflexivity]|].
  split; [discriminate|]. rewrite <- E. apply trim_clean_edges.
Qed.

(** X7.  A record that a run of either handler puts on display has a name
    that is not empty and has no white space at either end: the trimmed
    identification or [Unknown food] for a photo, the trimmed search text
    for a text query. *)
Theorem displayed_name_is_never_blank (W : Type) (env : Env W) (w : W)
  (st : State) :
  (result (state_of (run env (handleAnalyze st) w)) = result st
   \/ exists rec,
        result (state_of (run env (handleAnalyze st) w)) = Some rec
        /\ name rec <> [] /\ clean_edges (name rec) = true)
  /\ (result (state_of (run env (handleTextAnalyze st) w)) = result st
      \/ exists rec,
           result (state_of (run env (handleTextAnalyze st) w)) = Some rec
           /\ name rec <> [] /\ clean_edges (name rec) = true).
Proof.
  split.
  - unfold handleAnalyze, analyze_body, fileToGenerativePart, loadHistory,
      insert_row, state_of.
    run_cbn.
    destruct (file st) as [f|]; run_cbn; [|now left].
    destruct (imagePreview st) as [[|c p]|]; run_cbn; try (now left).
    drive; try (now left); right; eexists; (split; [reflexivity|]);
      cbn [name]; apply or_else_trim_clean.
  - unfold handleTextAnalyze, text_analyze_body, state_of. run_cbn.
    destruct (trim (searchText st)) as [|c r] eqn:T; run_cbn; [now left|].
    drive; try (now left); right; eexists; (split; [reflexivity|]);
      cbn [name]; (split; [discriminate|]);
      rewrite <- T; apply trim_clean_edges.
Qed.

(** X8.  A run of [handleAnalyze] sends at most one row to the store, to the
    table [history], and the row carries the name, summary, preview and
    macro fields of the record that is on display when the run ends. *)
Theorem stored_row_is_the_displayed_record (W : Type) (env : Env W) (w : W)
  (st : State) :
  (insert_attempts (trace_of (run env (handleAnalyze st) w)) = []
   /\ insert_tables (trace_of (run env (handleAnalyze st) w)) = [])
  \/ exists row reply rec,
       insert_attempts (trace_of (run env (handleAnalyze st) w))
       = [(row, reply)]
       /\ insert_tables (trace_of (run env (handleAnalyze st) w))
          = ["history"%string]
       /\ result (state_of (run env (handleAnalyze st) w)) = Some rec
       /\ shows rec row.
Proof.
  unfold handleAnalyze, analyze_body, fileToGenerativePart, loadHistory,
    insert_row, trace_of, state_of.
  run_cbn.
  destruct (file st) as [f|]; run_cbn; [|left; now split].
  destruct (imagePreview st) as [[|c p]|]; run_cbn; try (left; now split).
  drive; try (left; now split); right; do 3 eexists;
    (split; [reflexivity|]); (split; [reflexivity|]);
    (split; [reflexivity|]); eapply insert_row_of_shows; eassumption.
Qed.

(** X9.  [loadHistory] never throws and never alerts.  When the store
    answers with an error, the error is logged under [Supabase Load Error:]
    and the state, history included, stays as it was; when it answers with
    rows, the history becomes the records of those rows, in their order,
    whatever it held before, and nothing else changes. *)
Theorem loadHistory_keeps_history_on_error (W : Type) (env : Env W) (w : W)
  (st : State) :
  outcome_of (run env (loadHistory st) w) = Normal tt
  /\ alerts (trace_of (run env (loadHistory st) w)) = []
  /\ match select_replies (trace_of (run env (loadHistory st) w)) with
     | [SelectError e] =>
         state_of (run env (loadHistory st) w) = st
         /\ logged (trace_of (run env (loadHistory st) w))
            = [Some "Supabase Load Error:"%string]
     | [SelectData rows] =>
         state_of (run env (loadHistory st) w)
         = setHistory (map row_to_result rows) st
         /\ logged (trace_of (run env (loadHistory st) w)) = []
     | _ => False
     end.
Proof.
  unfold loadHistory, trace_of, state_of, outcome_of. run_cbn.
  drive; repeat split.
Qed.

(** X10.  A block that parses to [null] stops the persist stage: when the
    analysis reply makes the macro object [null], the record is put on
    display with [null] macros, reading the first macro for the row throws,
    the run ends in the generic alert, and nothing is sent to the store. *)
Theorem null_macros_skip_the_store (W : Type) (env : Env W) (w : W)
  (st : State) (first : GenerateContentRequest * (Exn + GenerateContentResponse))
  (req : GenerateContentRequest) (g : GenerateContentResponse) :
  exchanges (trace_of (run env (handleAnalyze st) w)) = [first; (req, inr g)] ->
  parsed_macros (parse_reply_image (or_else (first_text g) [])) = JNull ->
  insert_attempts (trace_of (run env (handleAnalyze st) w)) = []
  /\ alerts (trace_of (run env (handleAnalyze st) w)) = [ALERT_ANALYSIS]
  /\ exists rec,
       result (state_of (run env (handleAnalyze st) w)) = Some rec
       /\ macros rec = JNull.
Proof.
  unfold handleAnalyze, analyze_body, fileToGenerativePart, loadHistory,
    insert_row, trace_of, state_of.
  run_cbn.
  destruct (file st) as [f|]; run_cbn; [|discriminate].
  destruct (imagePreview st) as [[|c p]|]; run_cbn; try discriminate.
  drive; intros H Hnull; try discriminate H; inversion H; subst; clear H.
  all: try (match goal with
            | R : insert_row_of _ _ _ _ = Some _ |- _ =>
                rewrite Hnull in R; discriminate R
            end).
  all: repeat split; eexists; split; [reflexivity|exact Hnull].
Qed.

Lemma null_macros_witness :
  insert_attempts (trace_of (run Store.env (handleAnalyze Scenario.photo_ready)
                               Scenario.null_world)) = []
  /\ alerts (trace_of (run Store.env (handleAnalyze Scenario.photo_ready)
                         Scenario.null_world)) = [ALERT_ANALYSIS]
  /\ exists rec,
       result (state_of (run Store.env (handleAnalyze Scenario.photo_ready)
                           Scenario.null_world)) = Some rec
       /\ macros rec = JNull.
Proof.
  apply (@null_macros_skip_the_store _ Store.env Scenario.null_world
           Scenario.photo_ready
           (identify_request Scenario.meal (Some (lit "AAAA")),
            inr (Scenario.reply (lit "banana")))
           (analysis_request (analysis_prompt (lit "banana")))
           (Scenario.reply Samples.null_reply)); reflexivity.
Defined.


(* ================================================================== *)
(** ** Choosing a file *)

Lemma comma_nonempty : [44%N] <> [].
Proof. discriminate. Qed.

Lemma cut_comma_plain (y rest : jsstring) :
  no_comma y = true -> cut [44%N] (y ++ 44%N :: rest) = Some (y, rest).
Proof.
  induction y as [|c y IH]; intro H.
  - reflexivity.
  - simpl in H. apply andb_true_iff in H as [Hc H].
    apply negb_true_iff in Hc.
    cbn [app]. rewrite cut_unfold. cbn [starts_with].
    rewrite N.eqb_sym, Hc. cbn [andb]. now rewrite IH.
Qed.

Lemma cut_comma_none (y : jsstring) :
  no_comma y = true -> cut [44%N] y = None.
Proof.
  induction y as [|c y IH]; intro H; [reflexivity|].
  simpl in H. apply andb_true_iff in H as [Hc H].
  apply negb_true_iff in Hc.
  rewrite cut_unfold. cbn [starts_with].
  rewrite N.eqb_sym, Hc. cbn [andb]. now rewrite IH.
Qed.

(** X11.  [fileToGenerativePart] gives the text between the first and the
    second comma of the data URL (to its end when there is no second comma),
    which for [data:<type>;base64,<payload>] is the payload; for a URL
    without a comma it gives [undefined] and does not throw; a failed read
    rejects. *)
Theorem file_part_is_the_payload (W : Type) (env : Env W) (w : W)
  (st : State) (f : File) :
  (forall e, fst (answer env (ReadAsDataURL f) w) = inl e ->
             outcome_of (run env (fileToGenerativePart f st) w) = Thrown e)
  /\ (forall url, fst (answer env (ReadAsDataURL f) w) = inr url ->
                  no_comma url = true ->
                  outcome_of (run env (fileToGenerativePart f st) w)
                  = Normal None)
  /\ (forall header payload rest,
         fst (answer env (ReadAsDataURL f) w)
         = inr (header ++ [44%N] ++ payload ++ rest) ->
         no_comma header = true -> no_comma payload = true ->
         (rest = [] \/ exists r, rest = 44%N :: r) ->
         outcome_of (run env (fileToGenerativePart f st) w)
         = Normal (Some payload)).
Proof.
  unfold fileToGenerativePart, outcome_of. run_cbn.
  destruct (answer env (ReadAsDataURL f) w) as [[e|url] w'] eqn:E; run_cbn.
  - split; [|split]; intros; try discriminate.
    match goal with H : inl _ = inl _ |- _ => now inversion H end.
  - split; [|split].
    + discriminate.
    + intros u Hu Hc. inversion Hu; subst.
      rewrite (split_unfold comma_nonempty), (@cut_comma_none u Hc).
      reflexivity.
    + intros header payload rest Hu Hh Hp Hrest. inversion Hu; subst.
      rewrite (split_unfold comma_nonempty). cbn [app].
      rewrite (@cut_comma_plain header _ Hh), (split_unfold comma_nonempty).
      destruct Hrest as [->|[r ->]].
      * rewrite app_nil_r, (@cut_comma_none payload Hp). reflexivity.
      * rewrite (@cut_comma_plain payload _ Hp). reflexivity.
Qed.

Lemma file_part_witness :
  outcome_of (run Store.env (fileToGenerativePart Scenario.meal
                               Scenario.photo_ready)
                (Scenario.world Scenario.accepting))
  = Normal (Some (lit "AAAA")).
Proof.
  apply (proj2 (proj2 (file_part_is_the_payload Store.env
                         (Scenario.world Scenario.accepting)
                         Scenario.photo_ready Scenario.meal))
           (lit "data:image/png;base64") (lit "AAAA") []);
    try reflexivity.
  now left.
Defined.

(** X12.  Choosing a file: with no file in the event nothing happens and
    nothing is read; with a file, the file is read once, it becomes the
    selected file, the record on display is cleared, and the preview is the
    data URL the reader gave, or none when the read failed; the other cells
    are untouched and no exception escapes. *)
Theorem file_choice_sets_preview (W : Type) (env : Env W) (w : W)
  (st : State) (f : File) :
  run env (handleFileSelect None st) w = (Normal tt, st, w, [])
  /\ outcome_of (run env (handleFileSelect (Some f) st) w) = Normal tt
  /\ reads (trace_of (run env (handleFileSelect (Some f) st) w)) = [f]
  /\ state_of (run env (handleFileSelect (Some f) st) w)
     = mkState (Some f)
         match fst (answer env (ReadAsDataURL f) w) with
         | inr url => Some url
         | inl _ => None
         end
         (searchText st) (loading st) (loadingStep st) None (history st)
         (cameraActive st).
Proof.
  unfold handleFileSelect, outcome_of, trace_of, state_of. run_cbn.
  split; [reflexivity|].
  destruct (answer env (ReadAsDataURL f) w) as [[e|url] w'];
    run_cbn; repeat split.
Qed.

(* ================================================================== *)
(** ** The camera *)

Lemma crun_cbindP (W A B : Type) (env : CamEnv W) (p : CamProg A)
  (f : A -> CamProg B) (w : W) :
  crun env (cbindP p f) w
  = let '(a, w1, t1) := crun env p w in
    let '(b, w2, t2) := crun env (f a) w1 in
    (b, w2, t1 ++ t2).
Proof.
  revert w. induction p as [a|X e k IH]; intro w; simpl.
  - now destruct (crun env (f a) w) as [[b w2] t2].
  - destruct (cam_answer env e w) as [x w']. rewrite IH.
    destruct (crun env (k x) w') as [[a w1] t1].
    now destruct (crun env (f a) w1) as [[b w2] t2].
Qed.

(** Stopping the tracks of a stream makes one call per track, in order, and
    leaves the state alone. *)
Lemma stop_tracks_run (W : Type) (env : CamEnv W) (s : list Track)
  (c : CamState) (w : W) :
  exists w', crun env (stop_tracks s c) w = (Normal tt, c, w', stop_events s).
Proof.
  revert w. induction s as [|t s IH]; intro w.
  - now exists w.
  - cbn -[stop_events]. destruct (cam_answer env (TrackStop t) w) as [[] w1].
    cbn -[stop_events].
    change (stop_tracks s c) with (stop_tracks s c).
    destruct (IH w1) as [w' E].
    fold (stop_tracks s). rewrite E. now exists w'.
Qed.

Lemma stopped_stop_events (s : list Track) (rest : list CamEvent) :
  stopped (stop_events s ++ rest) = s ++ stopped rest.
Proof. induction s as [|t s IH]; simpl; [reflexivity|]. now rewrite IH. Qed.

Lemma alerts_stop_events (s : list Track) (rest : list CamEvent) :
  cam_alerts (stop_events s ++ rest) = cam_alerts rest.
Proof. induction s as [|t s IH]; simpl; [reflexivity|exact IH]. Qed.

Lemma video_calls_stop_events (s : list Track) (rest : list CamEvent) :
  video_calls (stop_events s ++ rest) = video_calls rest.
Proof. induction s as [|t s IH]; simpl; [reflexivity|exact IH]. Qed.

Lemma clock_reads_stop_events (s : list Track) (rest : list CamEvent) :
  clock_reads (stop_events s ++ rest) = clock_reads rest.
Proof. induction s as [|t s IH]; simpl; [reflexivity|exact IH]. Qed.

Lemma fetched_stop_events (s : list Track) (rest : list CamEvent) :
  fetched (stop_events s ++ rest) = fetched rest.
Proof. induction s as [|t s IH]; simpl; [reflexivity|exact IH]. Qed.

Lemma drawn_stop_events (s : list Track) (rest : list CamEvent) :
  drawn (stop_events s ++ rest) = drawn rest.
Proof. induction s as [|t s IH]; simpl; [reflexivity|exact IH]. Qed.

Lemma encoded_stop_events (s : list Track) (rest : list CamEvent) :
  encoded (stop_events s ++ rest) = encoded rest.
Proof. induction s as [|t s IH]; simpl; [reflexivity|exact IH]. Qed.

Lemma resized_stop_events (s : list Track) (rest : list CamEvent) :
  resized (stop_events s ++ rest) = resized rest.
Proof. induction s as [|t s IH]; simpl; [reflexivity|exact IH]. Qed.

(** The run of [stopCamera], call by call. *)
Lemma stopCamera_run (W : Type) (env : CamEnv W) (c : CamState) (w : W) :
  exists w' mounted,
    crun env (stopCamera c) w
    = (Normal tt,
       mkCamState (setCameraActive false (ui c)) None,
       w',
       stop_events match stream c with Some s => s | None => [] end
       ++ CEv VideoRefCurrent mounted
          :: if mounted
             then [CEv VideoPause tt; CEv (VideoSetSrcObject None) tt]
             else []).
Proof.
  destruct c as [u str]. unfold stopCamera. cam_cbn.
  assert (S : exists w1,
             crun env (match str with
                       | Some s => stop_tracks s
                       | None => cret tt
                       end (mkCamState u str)) w
             = (Normal tt, mkCamState u str, w1,
                stop_events match str with Some s => s | None => [] end)).
  { destruct str as [s|]; [apply stop_tracks_run|now exists w]. }
  destruct S as [w1 S].
  unfold cbind at 1. rewrite crun_cbindP, S. cam_cbn.
  cam_answer_call; cam_cbn.
  - cam_drive. eexists. exists true. reflexivity.
  - eexists. exists false. reflexivity.
Qed.

Lemma video_refs_stop_events (s : list Track) (rest : list CamEvent) :
  video_refs (stop_events s ++ rest) = video_refs rest.
Proof. induction s as [|t s IH]; simpl; [reflexivity|exact IH]. Qed.

(** X14.  [stopCamera] releases the camera: it stops every track of the
    held stream, once each and in order (none when no stream is held), and
    leaves no stream and the camera flag off; when the video ref holds an
    element it pauses the video and then detaches the stream from it, and
    otherwise it does nothing to the video; it neither throws nor alerts,
    and the other cells keep their values. *)
Theorem stopCamera_releases_every_track (W : Type) (env : CamEnv W)
  (c : CamState) (w : W) :
  cam_outcome_of (crun env (stopCamera c) w) = Normal tt
  /\ stopped (cam_trace_of (crun env (stopCamera c) w))
     = match stream c with Some s => s | None => [] end
  /\ cam_state_of (crun env (stopCamera c) w)
     = mkCamState (setCameraActive false (ui c)) None
  /\ match video_refs (cam_trace_of (crun env (stopCamera c) w)) with
     | true :: _ =>
         video_calls (cam_trace_of (crun env (stopCamera c) w))
         = [Pause; Detach]
     | false :: _ =>
         video_calls (cam_trace_of (crun env (stopCamera c) w)) = []
     | [] => False
     end
  /\ cam_alerts (cam_trace_of (crun env (stopCamera c) w)) = [].
Proof.
  destruct (stopCamera_run env c w) as (w' & mounted & ->).
  unfold cam_outcome_of, cam_state_of, cam_trace_of. cbn [fst snd].
  rewrite stopped_stop_events, video_calls_stop_events, alerts_stop_events,
    video_refs_stop_events.
  destruct mounted; cbn; rewrite ?app_nil_r; repeat split.
Qed.


(** X15.  [captureFromCamera], case by case.  When the video ref is empty
    it does nothing more than read it; without a drawing context it stops
    after sizing the canvas and changes no cell.  When the fetch of the
    encoded frame succeeds, the clock is read once and the selected file is
    a JPEG named [capture-<time>.jpg] for the time it gave, holding the
    fetched bytes; the preview is the encoded frame, the record on display
    is cleared, and the camera is released as by [stopCamera].  When the
    fetch is rejected the rejection escapes the handler: the preview is
    already set, but the file is not, no track is stopped, and the stream
    and camera flag stay as they were. *)
Theorem capture_outcomes (W : Type) (env : CamEnv W) (c : CamState) (w : W) :
  match fetched (cam_trace_of (crun env (captureFromCamera c) w)) with
  | [] =>
      cam_outcome_of (crun env (captureFromCamera c) w) = Normal tt
      /\ cam_state_of (crun env (captureFromCamera c) w) = c
      /\ stopped (cam_trace_of (crun env (captureFromCamera c) w)) = []
      /\ drawn (cam_trace_of (crun env (captureFromCamera c) w)) = []
      /\ (video_refs (cam_trace_of (crun env (captureFromCamera c) w))
          = [false] ->
          length (cam_trace_of (crun env (captureFromCamera c) w)) = 1%nat)
  | [(url, inr bytes)] =>
      cam_outcome_of (crun env (captureFromCamera c) w) = Normal tt
      /\ encoded (cam_trace_of (crun env (captureFromCamera c) w)) = [url]
      /\ stopped (cam_trace_of (crun env (captureFromCamera c) w))
         = match stream c with Some s => s | None => [] end
      /\ match clock_reads (cam_trace_of (crun env (captureFromCamera c) w))
         with
         | [now] =>
             cam_state_of (crun env (captureFromCamera c) w)
             = mkCamState
                 (mkState
                    (Some (mkFile (capture_name now) (lit "image/jpeg")
                             bytes))
                    (Some url) (searchText (ui c)) (loading (ui c))
                    (loadingStep (ui c)) None (history (ui c)) false)
                 None
         | _ => False
         end
  | [(url, inl e)] =>
      cam_outcome_of (crun env (captureFromCamera c) w) = Thrown e
      /\ encoded (cam_trace_of (crun env (captureFromCamera c) w)) = [url]
      /\ stopped (cam_trace_of (crun env (captureFromCamera c) w)) = []
      /\ clock_reads (cam_trace_of (crun env (captureFromCamera c) w)) = []
      /\ cam_state_of (crun env (captureFromCamera c) w)
         = with_ui (setImagePreview (Some url)) c
  | _ => False
  end.
Proof.
  destruct c as [u str].
  unfold captureFromCamera, cam_outcome_of, cam_state_of, cam_trace_of.
  cam_cbn. cam_answer_call; cam_cbn; [|repeat split].
  cam_drive;
    try match goal with
        | |- context [crun ?env (stopCamera ?c) ?w] =>
            let w' := fresh "w" in
            let m := fresh "m" in
            let E := fresh "E" in
            destruct (stopCamera_run env c w) as (w' & m & E);
            rewrite E; clear E; destruct m
        end;
    cam_cbn;
    rewrite ?fetched_stop_events, ?stopped_stop_events, ?encoded_stop_events,
      ?clock_reads_stop_events;
    cbn; rewrite ?app_nil_r;
    repeat split; try discriminate.
Qed.

Lemma capture_witness :
  (cam_state_of (crun platform_env (captureFromCamera filming) studio)
   = mkCamState
       (mkState
          (Some (mkFile (lit "capture-1700000000000.jpg") (lit "image/jpeg")
                   [65%N; 66%N; 67%N]))
          (Some (lit "data:image/jpeg;base64,QUJD")) [] false [] None []
          false)
       None
   /\ stopped (cam_trace_of (crun platform_env (captureFromCamera filming)
                               studio)) = [7%N; 8%N])
  /\ (cam_state_of (crun platform_env (captureFromCamera aiming) backstage)
      = aiming
      /\ length (cam_trace_of (crun platform_env (captureFromCamera aiming)
                                 backstage)) = 1%nat).
Proof.
  split.
  - pose proof (capture_outcomes platform_env filming studio) as H.
    change (fetched (cam_trace_of (crun platform_env
                                     (captureFromCamera filming) studio)))
      with [(lit "data:image/jpeg;base64,QUJD",
             @inr Exn (list N) [65%N; 66%N; 67%N])] in H.
    destruct H as (_ & _ & Hs & Hc).
    change (clock_reads (cam_trace_of (crun platform_env
                                         (captureFromCamera filming) studio)))
      with [1700000000000%Z] in Hc.
    split; [exact Hc|exact Hs].
  - pose proof (capture_outcomes platform_env aiming backstage) as H.
    change (fetched (cam_trace_of (crun platform_env
                                     (captureFromCamera aiming) backstage)))
      with (@nil (jsstring * (Exn + list N))) in H.
    destruct H as (_ & Hs & _ & _ & Hl).
    split; [exact Hs|]. apply Hl. reflexivity.
Defined.


Lemma measured_stop_events (s : list Track) (rest : list CamEvent) :
  measured (stop_events s ++ rest) = measured rest.
Proof. induction s as [|t s IH]; simpl; [reflexivity|exact IH]. Qed.

Lemma or_default_nonzero (n d : N) : d <> 0%N -> or_default n d <> 0%N.
Proof.
  unfold or_default. intro H. destruct (n =? 0)%N eqn:E; [exact H|].
  now apply N.eqb_neq.
Qed.

(** X16.  A frame that [captureFromCamera] draws never has a zero side: it
    is drawn at the size the video reports, with 640 in place of a zero
    width and 480 in place of a zero height, on a canvas given that size
    just before. *)
Theorem capture_draws_a_sized_frame (W : Type) (env : CamEnv W)
  (c : CamState) (w : W) (width height : N) :
  In (width, height) (drawn (cam_trace_of (crun env (captureFromCamera c) w))) ->
  width <> 0%N /\ height <> 0%N
  /\ resized (cam_trace_of (crun env (captureFromCamera c) w))
     = [(width, height)]
  /\ exists vw vh,
       measured (cam_trace_of (crun env (captureFromCamera c) w)) = [(vw, vh)]
       /\ width = (if (vw =? 0)%N then 640%N else vw)
       /\ height = (if (vh =? 0)%N then 480%N else vh).
Proof.
  destruct c as [u str].
  unfold captureFromCamera, cam_trace_of.
  cam_cbn. cam_answer_call; cam_cbn; [|contradiction].
  cam_drive;
    try match goal with
        | |- context [crun ?env (stopCamera ?c) ?w] =>
            let w' := fresh "w" in
            let m := fresh "m" in
            let E := fresh "E" in
            destruct (stopCamera_run env c w) as (w' & m & E);
            rewrite E; clear E; destruct m
        end;
    cam_cbn;
    rewrite ?drawn_stop_events, ?resized_stop_events, ?measured_stop_events;
    cbn -[or_default]; try contradiction;
    intros [H|[]]; inversion H; subst;
    (split; [apply or_default_nonzero; discriminate|]);
    (split; [apply or_default_nonzero; discriminate|]);
    (split; [reflexivity|]); do 2 eexists; repeat split.
Qed.

Lemma capture_frame_witness :
  (640 <> 0 /\ 480 <> 0)%N
  /\ resized (cam_trace_of (crun platform_env (captureFromCamera filming) studio))
     = [(640%N, 480%N)]
  /\ exists vw vh,
       measured (cam_trace_of (crun platform_env (captureFromCamera filming)
                                 studio)) = [(vw, vh)]
       /\ 640%N = (if (vw =? 0)%N then 640%N else vw)
       /\ 480%N = (if (vh =? 0)%N then 480%N else vh).
Proof.
  pose proof (@capture_draws_a_sized_frame _ platform_env filming studio
                640%N 480%N) as H.
  destruct H as (Hw & Hh & Hr & Hm); [vm_compute; now left|].
  exact (conj (conj Hw Hh) (conj Hr Hm)).
Defined.

(** X17.  [startCamera], case by case.  It never throws and never stops a
    track, not even those of a stream already held.  Where the platform has
    no [getUserMedia] it only alerts that the camera is not supported; when
    the request for a stream is rejected it logs the rejection, alerts that
    the camera cannot be accessed and changes no cell.  When a stream is
    granted it holds the stream and turns the camera flag on; when the video
    ref is empty at that moment it does nothing to the video and raises no
    alert; otherwise it attaches the stream to the video and plays it, and a
    rejected [play()] is logged and alerted, the stream staying held. *)
Theorem startCamera_outcomes (W : Type) (env : CamEnv W) (c : CamState)
  (w : W) :
  cam_outcome_of (crun env (startCamera c) w) = Normal tt
  /\ stopped (cam_trace_of (crun env (startCamera c) w)) = []
  /\ match acquired (cam_trace_of (crun env (startCamera c) w)) with
     | [] =>
         cam_state_of (crun env (startCamera c) w) = c
         /\ cam_alerts (cam_trace_of (crun env (startCamera c) w))
            = ["Camera not supported in this browser."%string]
         /\ cam_logged (cam_trace_of (crun env (startCamera c) w)) = []
         /\ video_calls (cam_trace_of (crun env (startCamera c) w)) = []
     | [inl e] =>
         cam_state_of (crun env (startCamera c) w) = c
         /\ cam_alerts (cam_trace_of (crun env (startCamera c) w))
            = ["Unable to access camera."%string]
         /\ cam_logged (cam_trace_of (crun env (startCamera c) w))
            = [("Camera start failed"%string, e)]
         /\ video_calls (cam_trace_of (crun env (startCamera c) w)) = []
     | [inr s] =>
         cam_state_of (crun env (startCamera c) w)
         = mkCamState (setCameraActive true (ui c)) (Some s)
         /\ match video_refs (cam_trace_of (crun env (startCamera c) w)) with
            | false :: _ =>
                video_calls (cam_trace_of (crun env (startCamera c) w)) = []
                /\ cam_alerts (cam_trace_of (crun env (startCamera c) w))
                   = []
                /\ cam_logged (cam_trace_of (crun env (startCamera c) w))
                   = []
            | true :: _ =>
                video_calls (cam_trace_of (crun env (startCamera c) w))
                = [Attach s; Play]
                /\ match plays (cam_trace_of (crun env (startCamera c) w))
                   with
                   | [inr _] =>
                       cam_alerts (cam_trace_of
                                     (crun env (startCamera c) w)) = []
                       /\ cam_logged (cam_trace_of
                                        (crun env (startCamera c) w)) = []
                   | [inl e] =>
                       cam_alerts (cam_trace_of
                                     (crun env (startCamera c) w))
                       = ["Unable to access camera."%string]
                       /\ cam_logged (cam_trace_of
                                        (crun env (startCamera c) w))
                          = [("Camera start failed"%string, e)]
                   | _ => False
                   end
            | [] => False
            end
     | _ => False
     end.
Proof.
  destruct c as [u str].
  unfold startCamera, cam_outcome_of, cam_state_of, cam_trace_of.
  cam_cbn. cam_answer_call; cam_cbn.
  - cam_answer_call; cam_cbn.
    + cam_drive. repeat split.
    + cam_drive;
        repeat match goal with x : unit |- _ => destruct x end;
        repeat split.
  - cam_drive. repeat split.
Qed.

Lemma start_witness :
  (cam_state_of (crun platform_env (startCamera camera_idle) stage_fright)
   = mkCamState (setCameraActive true initial) (Some [7%N; 8%N])
   /\ video_calls (cam_trace_of (crun platform_env (startCamera camera_idle)
                                   stage_fright))
      = [Attach [7%N; 8%N]; Play]
   /\ cam_alerts (cam_trace_of (crun platform_env (startCamera camera_idle)
                                  stage_fright))
      = ["Unable to access camera."%string])
  /\ (video_calls (cam_trace_of (crun platform_env (startCamera camera_idle)
                                    backstage)) = []
      /\ cam_alerts (cam_trace_of (crun platform_env
                                     (startCamera camera_idle) backstage))
         = []).
Proof.
  split.
  - pose proof (startCamera_outcomes platform_env camera_idle stage_fright)
      as (_ & _ & H).
    change (acquired (cam_trace_of (crun platform_env
                                      (startCamera camera_idle)
                                      stage_fright)))
      with [@inr Exn MediaStream [7%N; 8%N]] in H.
    destruct H as (Hs & H).
    change (video_refs (cam_trace_of (crun platform_env
                                        (startCamera camera_idle)
                                        stage_fright)))
      with [true] in H.
    destruct H as (Hv & H).
    change (plays (cam_trace_of (crun platform_env (startCamera camera_idle)
                                   stage_fright)))
      with [@inl Exn unit (ServiceError "NotAllowedError")] in H.
    destruct H as (Ha & _).
    split; [exact Hs|]. split; [exact Hv|exact Ha].
  - pose proof (startCamera_outcomes platform_env camera_idle backstage)
      as (_ & _ & H).
    change (acquired (cam_trace_of (crun platform_env
                                      (startCamera camera_idle) backstage)))
      with [@inr Exn MediaStream [7%N; 8%N]] in H.
    destruct H as (_ & H).
    change (video_refs (cam_trace_of (crun platform_env
                                        (startCamera camera_idle)
                                        backstage)))
      with [false] in H.
    destruct H as (Hv & Ha & _).
    split; [exact Hv|exact Ha].
Defined.


(** The encoded frame of a sample capture, and its file. *)
Example capture_in_the_studio :
  cam_state_of (crun platform_env (captureFromCamera filming) studio)
  = mkCamState
      (mkState
         (Some (mkFile (lit "capture-1700000000000.jpg") (lit "image/jpeg")
                  [65%N; 66%N; 67%N]))
         (Some (lit "data:image/jpeg;base64,QUJD")) [] false [] None [] false)
      None
  /\ stopped (cam_trace_of (crun platform_env (captureFromCamera filming)
                              studio)) = [7%N; 8%N]
  /\ drawn (cam_trace_of (crun platform_env (captureFromCamera filming)
                            studio)) = [(640%N, 480%N)].
Proof. vm_compute. repeat split. Qed.

(** The state a capture leaves behind when its fetch is rejected. *)
Lemma capture_failure_state (W : Type) (env : CamEnv W) (c : CamState) (w : W)
  (url : jsstring) (e : Exn) :
  fetched (cam_trace_of (crun env (captureFromCamera c) w)) = [(url, inl e)] ->
  cam_state_of (crun env (captureFromCamera c) w)
  = with_ui (setImagePreview (Some url)) c.
Proof.
  destruct c as [u str].
  unfold captureFromCamera, cam_state_of, cam_trace_of.
  cam_cbn. cam_answer_call; cam_cbn; [|discriminate].
  cam_drive;
    try match goal with
        | |- context [crun ?env (stopCamera ?c) ?w] =>
            let w' := fresh "w" in
            let m := fresh "m" in
            let E := fresh "E" in
            destruct (stopCamera_run env c w) as (w' & m & E);
            rewrite E; clear E; destruct m
        end;
    cam_cbn; rewrite ?fetched_stop_events; cbn;
    intro H; try discriminate H; inversion H; subst; reflexivity.
Qed.

(** X18.  A capture whose fetch is rejected, taken over the empty upload
    view, leaves a preview without a file: the Start Analysis control is then
    rendered, and [handleAnalyze] behind it returns at once, with no call and
    no change, whatever the environment. *)
Theorem failed_capture_leaves_a_dead_button (W : Type) (env : CamEnv W)
  (c : CamState) (w : W) (url : jsstring) (e : Exn) :
  fetched (cam_trace_of (crun env (captureFromCamera c) w)) = [(url, inl e)] ->
  file (ui c) = None -> result (ui c) = None -> loading (ui c) = false ->
  url <> [] ->
  rendered StartAnalysisButton
    (ui (cam_state_of (crun env (captureFromCamera c) w))) = true
  /\ forall (W' : Type) (env' : Env W') (w' : W'),
       run env' (handleAnalyze
                   (ui (cam_state_of (crun env (captureFromCamera c) w)))) w'
       = (Normal tt, ui (cam_state_of (crun env (captureFromCamera c) w)),
          w', []).
Proof.
  intros F Hf Hr Hl Hu. rewrite (capture_failure_state _ _ _ F).
  destruct c as [u str]. cbn in *. split.
  - unfold rendered. cbn. rewrite Hr, Hl. now destruct url.
  - intros W' env' w'. unfold handleAnalyze. run_cbn. now rewrite Hf.
Qed.

Lemma dead_button_witness :
  rendered StartAnalysisButton
    (ui (cam_state_of (crun platform_env (captureFromCamera aiming)
                         broken_fetch))) = true
  /\ forall (W' : Type) (env' : Env W') (w' : W'),
       run env' (handleAnalyze
                   (ui (cam_state_of (crun platform_env
                                        (captureFromCamera aiming)
                                        broken_fetch)))) w'
       = (Normal tt,
          ui (cam_state_of (crun platform_env (captureFromCamera aiming)
                              broken_fetch)),
          w', []).
Proof.
  apply (@failed_capture_leaves_a_dead_button _ platform_env aiming
           broken_fetch (lit "data:image/jpeg;base64,QUJD")
           (TypeError "Failed to fetch")); try reflexivity.
  discriminate.
Defined.

(* ================================================================== *)
(** ** From the analysis to the history *)






(* ================================================================== *)
(** ** Sessions *)

Lemma handleAnalyze_frame (W : Type) (env : Env W) (w : W) (st : State) :
  file (state_of (run env (handleAnalyze st) w)) = file st
  /\ imagePreview (state_of (run env (handleAnalyze st) w)) = imagePreview st
  /\ (history (state_of (run env (handleAnalyze st) w)) = history st
      \/ exists rows,
           history (state_of (run env (handleAnalyze st) w))
           = map row_to_result rows).
Proof.
  unfold handleAnalyze, analyze_body, fileToGenerativePart, loadHistory,
    insert_row, state_of.
  run_cbn.
  destruct (file st) as [f|] eqn:F; run_cbn;
    [|repeat split; try assumption; now left].
  destruct (imagePreview st) as [[|c p]|] eqn:P; run_cbn;
    try (repeat split; try assumption; now left).
  drive; repeat split; try assumption;
    try (now left); right; eexists; reflexivity.
Qed.

Lemma handleTextAnalyze_frame (W : Type) (env : Env W) (w : W) (st : State) :
  file (state_of (run env (handleTextAnalyze st) w)) = file st
  /\ imagePreview (state_of (run env (handleTextAnalyze st) w))
     = imagePreview st
  /\ history (state_of (run env (handleTextAnalyze st) w)) = history st.
Proof.
  unfold handleTextAnalyze, text_analyze_body, state_of. run_cbn.
  destruct (trim (searchText st)) as [|c r]; run_cbn; [repeat split|].
  drive; repeat split.
Qed.

Lemma loadHistory_frame (W : Type) (env : Env W) (w : W) (st : State) :
  file (state_of (run env (loadHistory st) w)) = file st
  /\ imagePreview (state_of (run env (loadHistory st) w)) = imagePreview st
  /\ (history (state_of (run env (loadHistory st) w)) = history st
      \/ exists rows,
           history (state_of (run env (loadHistory st) w))
           = map row_to_result rows).
Proof.
  unfold loadHistory, state_of. run_cbn.
  destruct (answer env (SupabaseSelect history_query) w) as [[e|rows] w'];
    run_cbn.
  - destruct (answer env _ w') as [[] w'']. run_cbn.
    repeat split; now left.
  - repeat split. right. eexists. reflexivity.
Qed.

Lemma rows_are_rows (rows : list Row) :
  Forall (fun item => exists r, item = row_to_result r)
         (map row_to_result rows).
Proof.
  induction rows as [|r rows IH]; cbn [map]; constructor; eauto.
Qed.

Lemma perform_keeps_invariant (W : Type) (env : Env W) (w : W) (a : Action)
  (st : State) :
  session_invariant st ->
  session_invariant (state_of (run env (perform a st) w)).
Proof.
  unfold session_invariant. intro Hh.
  destruct a as [|[f|]|f|s| | | |idx]; cbn [perform].
  - destruct (loadHistory_frame env w st) as (_ & _ & [->| [rows ->]]);
      auto using rows_are_rows.
  - exact Hh.
  - exact Hh.
  - unfold onloadend, state_of. run_cbn.
    destruct (answer env (ReadAsDataURL f) w) as [[e|url] w']; run_cbn;
      exact Hh.
  - exact Hh.
  - destruct (handleAnalyze_frame env w st) as (_ & _ & [->| [rows ->]]);
      auto using rows_are_rows.
  - destruct (handleTextAnalyze_frame env w st) as (_ & _ & ->).
    exact Hh.
  - exact Hh.
  - destruct (nth_error (history st) idx); exact Hh.
Qed.

Lemma session_keeps_invariant (W : Type) (env : Env W)
  (actions : list Action) (st : State) (w : W) :
  session_invariant st ->
  session_invariant (fst (session env actions st w)).
Proof.
  revert st w. induction actions as [|a rest IH]; intros st w H; [exact H|].
  cbn [session]. apply IH. now apply perform_keeps_invariant.
Qed.

Lemma initial_invariant : session_invariant initial.
Proof. constructor. Qed.


Lemma str_eqb_refl (a : jsstring) : str_eqb a a = true.
Proof.
  induction a as [|x a IH]; [reflexivity|].
  cbn [str_eqb]. now rewrite N.eqb_refl, IH.
Qed.

Lemma file_eqb_refl (f : File) : file_eqb f f = true.
Proof. unfold file_eqb. now rewrite !str_eqb_refl. Qed.

(** What a run of [handleAnalyze] reads, stores and displays, from a state
    with a file and a non-empty preview. *)
Lemma analysis_of_file_and_preview (W : Type) (env : Env W) (w : W)
  (st : State) (f : File) (c : N) (u : jsstring) :
  file st = Some f -> imagePreview st = Some (c :: u) ->
  analyses env st w f (c :: u).
Proof.
  intros F P. unfold analyses.
  unfold handleAnalyze, analyze_body, fileToGenerativePart, loadHistory,
    insert_row, trace_of, state_of.
  run_cbn. rewrite F. run_cbn. rewrite P. run_cbn.
  drive; (split; [reflexivity|]);
    (split; [intros row reply H; close_insert_case|]).
  all: try (now left).
  all: try (right; eexists; split; reflexivity).
  all: match goal with
       | R : insert_row_of _ _ _ _ = Some _ |- _ =>
           unfold insert_row_of in R;
           repeat match type of R with
                  | context [match ?x with Some _ => _ | None => _ end] =>
                      destruct x; try discriminate R
                  end;
           inversion R; reflexivity
       end.
Qed.

(** X13.  Start Analysis sends the selected file but stores and displays the
    preview, and a file choice sets the two at different times: the file at
    once, the preview when the read has ended.  Pressed between the two,
    over the preview of an earlier choice, the analysis reads the new file
    while its row and its record carry the earlier image; pressed after the
    read has ended with a non-empty data URL, they carry that URL. *)
Theorem press_before_the_read_ends (W : Type) (env : Env W) (w : W)
  (st : State) (b : File) (c : N) (u : jsstring) :
  imagePreview st = Some (c :: u) ->
  analyses env
    (fst (session env [ChooseFile (Some b)] st w))
    (snd (session env [ChooseFile (Some b)] st w)) b (c :: u)
  /\ rendered StartAnalysisButton
       (fst (session env [ChooseFile (Some b)] st w))
     = rendered StartAnalysisButton st
  /\ forall c' u',
       fst (answer env (ReadAsDataURL b) w) = inr (c' :: u') ->
       analyses env
         (fst (session env [ChooseFile (Some b); FileLoaded b] st w))
         (snd (session env [ChooseFile (Some b); FileLoaded b] st w))
         b (c' :: u').
Proof.
  intro P. cbn [session perform beginFileSelect fst snd].
  unfold state_of, world_of. run_cbn. split; [|split].
  - now apply analysis_of_file_and_preview.
  - reflexivity.
  - intros c' u' A. unfold onloadend. run_cbn.
    destruct (answer env (ReadAsDataURL b) w) as [x w'].
    cbn [fst] in A. subst x. run_cbn.
    now apply analysis_of_file_and_preview.
Qed.

Lemma mixed_photos_witness :
  playable Store.env []
    [ChooseFile (Some Scenario.meal); FileLoaded Scenario.meal;
     ChooseFile (Some dessert); PressStart] initial album_world = true
  /\ analyses Store.env
       (fst (session Store.env
               [ChooseFile (Some Scenario.meal); FileLoaded Scenario.meal;
                ChooseFile (Some dessert)] initial album_world))
       album_world dessert (lit "data:image/png;base64,meal.png")
  /\ analyses Store.env
       (fst (session Store.env
               [ChooseFile (Some Scenario.meal); FileLoaded Scenario.meal;
                ChooseFile (Some dessert); FileLoaded dessert]
               initial album_world))
       album_world dessert (lit "data:image/png;base64,dessert.png").
Proof.
  split; [vm_compute; reflexivity|].
  pose proof (@press_before_the_read_ends _ Store.env album_world
                (fst (session Store.env
                        [ChooseFile (Some Scenario.meal);
                         FileLoaded Scenario.meal] initial album_world))
                dessert 100%N
                (skipn 1 (lit "data:image/png;base64,meal.png")) eq_refl)
    as (Hb & _ & Ha).
  split; [exact Hb|].
  exact (Ha 100%N (skipn 1 (lit "data:image/png;base64,dessert.png"))
            eq_refl).
Defined.

(** The photos of the mixed run: the request carries the bytes read from
    the second file, the row the image of the first. *)
Example mixed_photos :
  map fst (insert_attempts
             (trace_of (run Store.env
                          (handleAnalyze
                             (fst (session Store.env
                                     [ChooseFile (Some Scenario.meal);
                                      FileLoaded Scenario.meal;
                                      ChooseFile (Some dessert)]
                                     initial album_world)))
                          album_world)))
  = [mkInsertRow (lit "banana") (lit "A sweet tropical fruit...")
       (lit "data:image/png;base64,meal.png")
       (num 105) (num 1) (num 0) (num 27)]
  /\ hd_error (requests
                 (trace_of (run Store.env
                              (handleAnalyze
                                 (fst (session Store.env
                                         [ChooseFile (Some Scenario.meal);
                                          FileLoaded Scenario.meal;
                                          ChooseFile (Some dessert)]
                                         initial album_world)))
                              album_world)))
     = Some (identify_request dessert (Some (lit "dessert.png"))).
Proof. vm_compute. split; reflexivity. Qed.

(** X21.  A read that ends late leaves a dead button, without the camera.
    While the read of a chosen file is in flight and a record is on display,
    Scan Next clears the file; the preview that [onloadend] sets afterwards
    stands alone: Start Analysis is on screen, and [handleAnalyze] behind it
    returns at its guard, with no call and no change, whatever the
    environment. *)
Theorem late_read_leaves_a_dead_button (W : Type) (env : Env W) (w : W)
  (st : State) (f : File) (c : N) (url : jsstring) :
  available [f] PressScanNext st = true ->
  loading st = false ->
  fst (answer env (ReadAsDataURL f) w) = inr (c :: url) ->
  playable env [f] [PressScanNext; FileLoaded f] st w = true
  /\ file (fst (session env [PressScanNext; FileLoaded f] st w)) = None
  /\ imagePreview (fst (session env [PressScanNext; FileLoaded f] st w))
     = Some (c :: url)
  /\ rendered StartAnalysisButton
       (fst (session env [PressScanNext; FileLoaded f] st w)) = true
  /\ forall (W' : Type) (env' : Env W') (w' : W'),
       run env' (handleAnalyze
                   (fst (session env [PressScanNext; FileLoaded f] st w))) w'
       = (Normal tt, fst (session env [PressScanNext; FileLoaded f] st w),
          w', []).
Proof.
  intros Ha Hl A. unfold available in Ha.
  destruct (result st) as [shown|] eqn:R; [clear Ha|discriminate Ha].
  cbn [playable session perform available reads_after end_read fst snd].
  rewrite R, file_eqb_refl.
  unfold scanNext, onloadend, state_of, world_of. run_cbn.
  destruct (answer env (ReadAsDataURL f) w) as [x w1].
  cbn [fst] in A. subst x. run_cbn.
  split; [reflexivity|]. split; [reflexivity|]. split; [reflexivity|].
  split.
  - unfold rendered. cbn. now rewrite Hl.
  - intros W' env' w'. unfold handleAnalyze. run_cbn. reflexivity.
Qed.

Lemma late_read_witness :
  playable Store.env []
    [Mount; ChooseFile (Some Scenario.meal); OpenEntry 0; PressScanNext;
     FileLoaded Scenario.meal] initial stocked_world = true
  /\ rendered StartAnalysisButton
       (fst (session Store.env
               [Mount; ChooseFile (Some Scenario.meal); OpenEntry 0;
                PressScanNext; FileLoaded Scenario.meal]
               initial stocked_world)) = true
  /\ forall (W' : Type) (env' : Env W') (w' : W'),
       run env'
         (handleAnalyze
            (fst (session Store.env
                    [Mount; ChooseFile (Some Scenario.meal); OpenEntry 0;
                     PressScanNext; FileLoaded Scenario.meal]
                    initial stocked_world))) w'
       = (Normal tt,
          fst (session Store.env
                 [Mount; ChooseFile (Some Scenario.meal); OpenEntry 0;
                  PressScanNext; FileLoaded Scenario.meal]
                 initial stocked_world),
          w', []).
Proof.
  split; [vm_compute; reflexivity|].
  pose proof (@late_read_leaves_a_dead_button _ Store.env
                (snd (session Store.env
                        [Mount; ChooseFile (Some Scenario.meal); OpenEntry 0]
                        initial stocked_world))
                (fst (session Store.env
                        [Mount; ChooseFile (Some Scenario.meal); OpenEntry 0]
                        initial stocked_world))
                Scenario.meal 100%N
                (skipn 1 Scenario.data_url) eq_refl eq_refl eq_refl)
    as (_ & _ & _ & Hr & Hd).
  split; [exact Hr|exact Hd].
Defined.

(** X22.  A text analysis started while a photo is selected: the record it
    puts on display has no image of its own and no citations, so the result
    view shows the selected photo beside the text record and lists no
    source, although the request asked for search grounding. *)
Theorem text_record_borrows_the_preview (W : Type) (env : Env W) (w : W)
  (st : State) (p : jsstring) (rec : AnalysisResult) :
  imagePreview st = Some p ->
  p <> [] ->
  result st = None ->
  result (state_of (run env (handleTextAnalyze st) w)) = Some rec ->
  image_src rec (state_of (run env (handleTextAnalyze st) w)) = p
  /\ shown_sources rec = Some []
  /\ Forall (fun req => googleSearch req = true)
            (requests (trace_of (run env (handleTextAnalyze st) w))).
Proof.
  intros P Hp R.
  unfold handleTextAnalyze, text_analyze_body, state_of, trace_of. run_cbn.
  destruct (trim (searchText st)) as [|c r]; run_cbn;
    [rewrite R; discriminate|].
  drive; rewrite ?R; intro H; try discriminate H;
    inversion H; subst rec; clear H.
  all: unfold image_src, shown_sources; cbn; rewrite P.
  all: destruct p as [|c0 p0]; [now contradiction Hp|].
  all: repeat split; repeat constructor.
Qed.

Lemma borrowed_preview_witness :
  exists rec,
    result (state_of (run Store.env (handleTextAnalyze photo_and_text)
                        stocked_world)) = Some rec
    /\ image_src rec (state_of (run Store.env
                                  (handleTextAnalyze photo_and_text)
                                  stocked_world)) = Scenario.data_url
    /\ shown_sources rec = Some [].
Proof.
  eexists. split; [vm_compute; reflexivity|].
  refine (let H := text_record_borrows_the_preview Store.env stocked_world
                     photo_and_text (p := Scenario.data_url) _ _ _ _ in
          conj (proj1 H) (proj1 (proj2 H))).
  - reflexivity.
  - discriminate.
  - reflexivity.
  - vm_compute. reflexivity.
Defined.

Lemma web_sources_filter (chunks : list GroundingChunk) :
  map Some (web_sources chunks) = map web (filter has_web chunks).
Proof.
  induction chunks as [|[[x|]] rest IH]; cbn; [reflexivity| |exact IH].
  now rewrite IH.
Qed.

(** X23.  The citations on display after a photo analysis: when a run of
    [handleAnalyze] puts a record on display, the reply of its second
    request, the one that asked for search grounding, decides them: the
    web entries of its grounding chunks, chunks without one passed over,
    give the sources in their order, and the result view lists the first
    three of these. *)
Theorem citations_on_display (W : Type) (env : Env W) (w : W) (st : State)
  (rec : AnalysisResult) :
  result st = None ->
  result (state_of (run env (handleAnalyze st) w)) = Some rec ->
  exists first req g cites,
    exchanges (trace_of (run env (handleAnalyze st) w))
    = [first; (req, inr g)]
    /\ googleSearch req = true
    /\ map web (filter has_web (first_chunks g)) = map Some cites
    /\ sources rec = Some cites
    /\ shown_sources rec = Some (firstn 3 cites).
Proof.
  intro R.
  unfold handleAnalyze, analyze_body, fileToGenerativePart, loadHistory,
    insert_row, state_of, trace_of.
  run_cbn.
  destruct (file st) as [f|]; run_cbn; [|rewrite R; discriminate].
  destruct (imagePreview st) as [[|c p]|]; run_cbn;
    try (rewrite R; discriminate).
  drive; rewrite ?R; intro H; try discriminate H;
    inversion H; subst rec; clear H.
  all: do 4 eexists; split; [reflexivity|]; split; [reflexivity|].
  all: split; [symmetry; apply web_sources_filter|].
  all: split; reflexivity.
Qed.

Lemma citations_witness :
  exists rec,
    result (state_of (run Store.env (handleAnalyze Scenario.photo_ready)
                        grounded_world)) = Some rec
    /\ sources rec = Some [cite "a"; cite "b"; cite "c"; cite "d"]
    /\ shown_sources rec = Some [cite "a"; cite "b"; cite "c"].
Proof.
  eexists. split; [vm_compute; reflexivity|].
  destruct (@citations_on_display _ Store.env grounded_world
              Scenario.photo_ready _ eq_refl eq_refl)
    as (first & req & g & cites & E & _ & C & S & V).
  vm_compute in E. injection E as _ _ <-.
  assert (Hc : cites = [cite "a"; cite "b"; cite "c"; cite "d"]).
  { vm_compute in C.
    destruct cites as [|s1 [|s2 [|s3 [|s4 [|s5 rest]]]]];
      try discriminate C.
    injection C as <- <- <- <-. reflexivity. }
  subst cites. split; [exact S|exact V].
Defined.

(* ================================================================== *)
(** ** Alerts at work *)

Lemma text_alert_witness :
  existsb is_rejection
    (trace_of (run Store.env (handleTextAnalyze Scenario.text_ready)
                 offline_world)) = true.
Proof.
  apply (text_alert_needs_rejection Store.env offline_world
           Scenario.text_ready).
  vm_compute. reflexivity.
Defined.

Lemma photo_alert_witness :
  existsb is_rejection
    (trace_of (run Store.env (handleAnalyze Scenario.photo_ready)
                 Scenario.null_world)) = true
  \/ exists rec,
       result (state_of (run Store.env (handleAnalyze Scenario.photo_ready)
                           Scenario.null_world)) = Some rec
       /\ get_prop K_CALORIES (macros rec) = None.
Proof.
  apply (photo_alert_causes Store.env Scenario.null_world
           Scenario.photo_ready).
  vm_compute. reflexivity.
Defined.

(* ================================================================== *)
(** ** What the views can read *)

(** No parser returns [undefined]. *)
Lemma parse_defined (fuel : nat) :
  (forall s v r, parse_value fuel s = POk v r -> v <> JUndefined)
  /\ (forall acc s v r,
         parse_elements fuel acc s = POk v r -> v <> JUndefined)
  /\ (forall acc s v r,
         parse_members fuel acc s = POk v r -> v <> JUndefined).
Proof.
  induction fuel as [|f (IHv & IHe & IHm)];
    [repeat split; intros; discriminate|].
  split; [|split].
  - intros s v r H. cbn [parse_value] in H.
    destruct (skip_ws s) as [|c t]; [discriminate H|].
    destruct (c =? 123)%N.
    { destruct (skip_ws t) as [|c' t'];
        [now apply IHm in H|].
      destruct (c' =? 125)%N; [inversion H; discriminate|now apply IHm in H]. }
    destruct (c =? 91)%N.
    { destruct (skip_ws t) as [|c' t'];
        [now apply IHe in H|].
      destruct (c' =? 93)%N; [inversion H; discriminate|now apply IHe in H]. }
    destruct (c =? 34)%N.
    { destruct (parse_string_body t) as [[str r']|]; [|discriminate H].
      inversion H; discriminate. }
    revert H. unfold parse_literal, parse_number.
    repeat match goal with
           | |- context [if ?b then _ else _] => destruct b
           | |- context [match ?x with Some _ => _ | None => _ end] =>
               destruct x
           | |- context [let '(_, _) := ?x in _] => destruct x
           end; intro H; try discriminate H; inversion H; discriminate.
  - intros acc s v r H. cbn [parse_elements] in H.
    destruct (parse_value f s) as [v0 r0| |]; try discriminate H.
    destruct (skip_ws r0) as [|c r']; [discriminate H|].
    destruct (c =? 44)%N; [now apply IHe in H|].
    destruct (c =? 93)%N; [|discriminate H].
    inversion H; discriminate.
  - intros acc s v r H. cbn [parse_members] in H.
    destruct (skip_ws s) as [|q t]; [discriminate H|].
    destruct (q =? 34)%N; [|discriminate H].
    destruct (parse_string_body t) as [[key r1]|]; [|discriminate H].
    destruct (skip_ws r1) as [|colon r2]; [discriminate H|].
    destruct (colon =? 58)%N; [|discriminate H].
    destruct (parse_value f r2) as [v0 r3| |]; try discriminate H.
    destruct (skip_ws r3) as [|c r4]; [discriminate H|].
    destruct (c =? 44)%N; [now apply IHm in H|].
    destruct (c =? 125)%N; [|discriminate H].
    inversion H; discriminate.
Qed.

Lemma JSON_parse_defined (s : jsstring) (v : JsValue) :
  JSON_parse s = Some v -> v <> JUndefined.
Proof.
  unfold JSON_parse.
  destruct (parse_value (fuel_for s) s) as [v0 rest| |] eqn:P;
    try discriminate.
  destruct (skip_ws rest); [|discriminate].
  intro H; inversion H; subst.
  exact (proj1 (parse_defined (fuel_for s)) _ _ _ P).
Qed.

Lemma parsed_macros_defined (fullText : jsstring) :
  parsed_macros (parse_reply_image fullText) <> JUndefined
  /\ parsed_macros (parse_reply_text fullText) <> JUndefined.
Proof.
  unfold parse_reply_image, parse_reply_text, parse_macro_block.
  destruct (split SENTINEL fullText) as [|p0 [|p1 rest]];
    try (split; discriminate).
  destruct (JSON_parse (trim (strip_fences p1))) as [v|] eqn:J;
    cbn [parsed_macros].
  - apply JSON_parse_defined in J. now split.
  - split; [|discriminate]. destruct (match_calories fullText); discriminate.
Qed.

Lemma view_macros_null (i : option JsValue) (n s : jsstring) (m : JsValue)
  (img : option jsstring) (t : option Z) (c : option (list Source)) :
  m <> JUndefined ->
  view_macros (mkAnalysisResult i n s m img t c) = None <-> m = JNull.
Proof.
  intro D. unfold view_macros. cbn [macros].
  destruct m; cbn; split; intro H; try easy.
Qed.

(** X26.  What the views can read off a record.  The macro object of a
    record that either handler puts on display is never [undefined], and the
    macro reads of the result view throw exactly when it is [null]; the
    macro reads of Recent Scans never throw, whatever sequence of page
    actions filled the history. *)
Theorem macro_reads_throw_only_on_null (W : Type) (env : Env W) (w : W)
  (st : State) (actions : list Action) :
  (result (state_of (run env (handleAnalyze st) w)) = result st
   \/ exists rec,
        result (state_of (run env (handleAnalyze st) w)) = Some rec
        /\ macros rec <> JUndefined
        /\ (view_macros rec = None <-> macros rec = JNull))
  /\ (result (state_of (run env (handleTextAnalyze st) w)) = result st
      \/ exists rec,
           result (state_of (run env (handleTextAnalyze st) w)) = Some rec
           /\ macros rec <> JUndefined
           /\ (view_macros rec = None <-> macros rec = JNull))
  /\ Forall (fun item => view_macros item <> None)
            (history (fst (session env actions initial w))).
Proof.
  split; [|split].
  - destruct (photo_analysis_result env w st) as [H|(g0 & g & pv & _ & H)];
      [now left|right].
    eexists. split; [exact H|]. cbn [macros].
    pose proof (proj1 (parsed_macros_defined (or_else (first_text g) [])))
      as D.
    split; [exact D|now apply view_macros_null].
  - destruct (text_analysis_result env w st) as [H|(g & H)];
      [now left|right].
    eexists. split; [exact H|]. cbn [macros].
    pose proof (proj2 (parsed_macros_defined (or_else (first_text g) [])))
      as D.
    split; [exact D|now apply view_macros_null].
  - eapply Forall_impl;
      [|exact (session_keeps_invariant env actions w initial_invariant)].
    intros item [r ->]. discriminate.
Qed.

